(** * Guard-ranking pipeline: feature engineering, encoders, top-K and MRR

    A shallow embedding of the guard-prediction core of the repository:

    - [scripts/prepare_features.py]  (module [PrepareFeatures])
    - [scripts/predict_guard.py]     (module [PredictGuard])
    - [backend/main.py]              (module [Backend])
    - [scripts/train_xgboost.py]     (module [TrainXgboost])

    Numeric columns are Python/numpy floats in the source.  They are
    embedded as exact rationals [Q]: every comparison, sum, product and
    quotient below is the exact counterpart of the floating-point one, and
    equalities between numbers are stated with [==].  A division by a
    zero denominator (numpy's [inf]/[nan]), [NaN] cells and the non-finite
    values [inf] and [nan] that a float field of a request accepts are
    outside the embedding.  Library calls that leave the rationals or the repository
    are parameters: the floating-point square root behind [DataFrame.std],
    sklearn's [top_k_accuracy_score] and the pandas pipeline that picks a
    guard's most frequent exit country are section variables, and the
    classifier is a record of its two entry points. *)

From Stdlib Require Import QArith Qminmax ZArith Lia Lqa OrderedTypeEx.
From stdpp Require Import base tactics option list sorting strings gmap pretty.

#[local] Set Warnings "-clear-no-such-hyp".

Local Open Scope Z_scope.
Local Open Scope nat_scope.
Local Open Scope string_scope.
Local Open Scope list_scope.

(** ** Exceptions and the error monad *)

(** The Python exceptions that the embedded code can raise. *)
Inductive exn : Set :=
| ValueError
| KeyError
| IndexError
| ZeroDivisionError.

(** A computation either raises or returns. *)
Inductive result (A : Type) : Type :=
| Raise (e : exn)
| Return (a : A).

Arguments Raise {A} e.
Arguments Return {A} a.

#[global] Instance result_ret : MRet result := fun A a => Return a.
#[global] Instance result_bind : MBind result := fun A B f m =>
  match m with
  | Raise e => Raise e
  | Return a => f a
  end.
#[global] Instance result_fmap : FMap result := fun A B f m =>
  match m with
  | Raise e => Raise e
  | Return a => Return (f a)
  end.

(** [for x in l: ...] with a body that may raise, collecting the results. *)
Fixpoint for_each {A B : Type} (f : A -> result B) (l : list A) : result (list B) :=
  match l with
  | [] => Return []
  | x :: l' =>
      match f x with
      | Raise e => Raise e
      | Return y =>
          match for_each f l' with
          | Raise e => Raise e
          | Return ys => Return (y :: ys)
          end
      end
  end.

(** [try: e except: d] *)
Definition try_except {A : Type} (m : result A) (d : A) : A :=
  match m with
  | Raise _ => d
  | Return a => a
  end.

Definition is_Return {A : Type} (m : result A) : Prop :=
  exists a, m = Return a.

(** ** Python and numpy primitives *)

(** [l[:k]]: a negative stop counts from the end. *)
Definition slice_to {A : Type} (k : Z) (l : list A) : list A :=
  if (0 <=? k)%Z then take (Z.to_nat k) l
  else take (length l - Z.to_nat (- k)) l.

(** [l[i]] for a non-negative position. *)
Definition getitem {A : Type} (l : list A) (i : nat) : result A :=
  match l !! i with
  | Some x => Return x
  | None => Raise IndexError
  end.

(** [x or d] on strings: the empty string is falsy. *)
Definition str_or (x d : string) : string :=
  if decide (x = "") then d else x.

(** [enumerate(l, start)] *)
Fixpoint enumerate_from {A : Type} (start : nat) (l : list A) : list (nat * A) :=
  match l with
  | [] => []
  | x :: l' => (start, x) :: enumerate_from (S start) l'
  end.

(** *** np.argsort

    [np.argsort(row)] returns the positions of [row] in ascending order of
    value.  The default sort of numpy is not stable: the order it leaves
    positions of equal value in is not specified and changes with the
    array and the platform.  The embedding computes one admissible result,
    the one that keeps positions of equal value in position order;
    [argsort_admissible] below states what every result satisfies.  Apart
    from the two closed evaluations on the row [0.5, 0.5], for which numpy
    returns this result too, no property below depends on the order of
    ties. *)

Fixpoint argsort_insert (p : nat * Q) (l : list (nat * Q)) : list (nat * Q) :=
  match l with
  | [] => [p]
  | q :: l' =>
      if Qle_bool (snd p) (snd q) then p :: q :: l'
      else q :: argsort_insert p l'
  end.

Definition argsort_pairs (l : list (nat * Q)) : list (nat * Q) :=
  foldr argsort_insert [] l.

Definition np_argsort (row : list Q) : list nat :=
  map fst (argsort_pairs (enumerate_from 0 row)).

(** [np.argsort(row)[::-1][:k]], the expression shared by the three top-K
    extraction sites. *)
Definition top_k_indices (row : list Q) (k : Z) : list nat :=
  slice_to k (rev (np_argsort row)).

(** *** np.argmax: the first position holding the maximum. *)

Fixpoint argmax_from (best_i : nat) (best : Q) (i : nat) (l : list Q) : nat :=
  match l with
  | [] => best_i
  | x :: l' =>
      if Qle_bool x best then argmax_from best_i best (S i) l'
      else argmax_from i x (S i) l'
  end.

Definition np_argmax (row : list Q) : result nat :=
  match row with
  | [] => Raise ValueError
  | x :: l => Return (argmax_from 0 x 1 l)
  end.

(** [sum(l)] over rationals. *)
Definition Qsum (l : list Q) : Q := foldr Qplus 0%Q l.

(** ** sklearn.preprocessing.LabelEncoder

    The encoder is sklearn's; the repository only calls it.  [fit] stores
    the sorted distinct values ([np.unique]); [transform] maps a value to
    its position there and raises [ValueError] on a value that was not
    fitted; [inverse_transform] indexes [classes_] and raises [ValueError]
    outside [0, N). *)
Module LabelEncoder.

Record t : Set := { classes_ : list string }.

Fixpoint insert_unique (s : string) (l : list string) : list string :=
  match l with
  | [] => [s]
  | x :: l' =>
      match String.compare s x with
      | Lt => s :: x :: l'
      | Eq => x :: l'
      | Gt => x :: insert_unique s l'
      end
  end.

Definition np_unique (y : list string) : list string :=
  foldr insert_unique [] y.

Definition fit (y : list string) : t :=
  {| classes_ := np_unique y |}.

Fixpoint index_of (s : string) (l : list string) : option nat :=
  match l with
  | [] => None
  | x :: l' => if decide (s = x) then Some 0 else S <$> index_of s l'
  end.

Definition transform1 (le : t) (v : string) : result Z :=
  match index_of v (classes_ le) with
  | Some i => Return (Z.of_nat i)
  | None => Raise ValueError
  end.

Definition transform (le : t) (y : list string) : result (list Z) :=
  for_each (transform1 le) y.

Definition fit_transform (y : list string) : t * result (list Z) :=
  let le := fit y in (le, transform le y).

Definition inverse_transform1 (le : t) (i : Z) : result string :=
  if decide (0 <= i < Z.of_nat (length (classes_ le)))%Z then
    match classes_ le !! Z.to_nat i with
    | Some v => Return v
    | None => Raise ValueError
    end
  else Raise ValueError.

Definition inverse_transform (le : t) (y : list Z) : result (list string) :=
  for_each (inverse_transform1 le) y.

End LabelEncoder.

(** ** Data frames

    A row of the circuit CSV is a record of its raw columns; the numeric
    columns a script adds with [df['name'] = ...] are kept, in creation
    order, in an association list next to it. *)

Record Circuit : Set := {
  circuit_id : string;
  guard_fingerprint : string;
  guard_country : string;
  middle_fingerprint : string;
  middle_country : string;
  exit_fingerprint : string;
  exit_country : string;
  guard_bandwidth : Q;
  middle_bandwidth : Q;
  exit_bandwidth : Q;
  circuit_setup_duration : Q;
  total_bytes : Q
}.

Abbreviation columns := (list (string * Q)).

Abbreviation frame := (list (Circuit * columns)).

(** [row['name'] = v]: overwrite in place, or append a new column. *)
Fixpoint set_col (name : string) (v : Q) (cols : columns) : columns :=
  match cols with
  | [] => [(name, v)]
  | (n, w) :: cols' =>
      if decide (n = name) then (n, v) :: cols'
      else (n, w) :: set_col name v cols'
  end.

(** [row['name']] *)
Fixpoint get_col (name : string) (cols : columns) : result Q :=
  match cols with
  | [] => Raise KeyError
  | (n, w) :: cols' =>
      if decide (n = name) then Return w else get_col name cols'
  end.

(** [df['name'] = f(row)] for every row. *)
Definition assign (name : string) (f : Circuit -> Q) (df : frame) : frame :=
  map (fun r => (fst r, set_col name (f (fst r)) (snd r))) df.

(** The raw numeric columns of the CSV, in header order. *)
Definition numeric_columns (c : Circuit) : columns :=
  [ ("guard_bandwidth", guard_bandwidth c);
    ("middle_bandwidth", middle_bandwidth c);
    ("exit_bandwidth", exit_bandwidth c);
    ("circuit_setup_duration", circuit_setup_duration c);
    ("total_bytes", total_bytes c) ].

(** [df[feature_cols]] on one row: the feature vector.  The columns are
    looked up row by row, among the raw numeric columns and the added ones.
    The embedding therefore covers frames with at least one row and
    feature lists of numeric columns: on a frame without rows pandas still
    raises [KeyError] for an absent column, and it selects the text columns
    of the CSV, which are no cells of this numeric vector. *)
Definition select_features (feature_cols : list string) (r : Circuit * columns)
  : result (list Q) :=
  for_each (fun name => get_col name (numeric_columns (fst r) ++ snd r)) feature_cols.

(** [int(b)] / [.astype(int)] as a numeric cell. *)
Definition Qbool (b : bool) : Q := if b then 1%Q else 0%Q.

Definition Qnat (n : nat) : Q := inject_Z (Z.of_nat n).

(** Row-wise [sum], [min], [max] and sample variance ([ddof = 1]) of the
    three bandwidth columns; [std] is the square root of the last. *)
Definition bw_total (g m e : Q) : Q := (g + m + e)%Q.

Definition bw_min (g m e : Q) : Q := Qmin (Qmin g m) e.

Definition bw_max (g m e : Q) : Q := Qmax (Qmax g m) e.

Definition bw_variance (g m e : Q) : Q :=
  let mean := (bw_total g m e / 3)%Q in
  let sq x := ((x - mean) * (x - mean))%Q in
  ((sq g + sq m + sq e) / 2)%Q.

(** The three bandwidth cells of a row, passed to a row-wise aggregate. *)
Definition on_bandwidths (f : Q -> Q -> Q -> Q) (c : Circuit) : Q :=
  f (guard_bandwidth c) (middle_bandwidth c) (exit_bandwidth c).

(** [nunique] over the three country columns / [len(set([...]))]. *)
Definition distinct_countries (g m e : string) : nat :=
  length (remove_dups [g; m; e]).

(** The five categorical columns that get a [LabelEncoder], in loop order. *)
Definition categorical_cols : list (string * (Circuit -> string)) :=
  [ ("middle_fingerprint", middle_fingerprint);
    ("exit_fingerprint", exit_fingerprint);
    ("guard_country", guard_country);
    ("middle_country", middle_country);
    ("exit_country", exit_country) ].

(** ** scripts/prepare_features.py: the training transform *)
Module PrepareFeatures.
Section EngineerFeatures.

(** Floating-point square root (inside [DataFrame.std]). *)
Variable fsqrt : Q -> Q.

(** The [guard_top_country] dictionary: the pandas
    [groupby/size/sort_values/groupby/first] pipeline that maps a guard to
    its most frequent exit country (tie order is pandas'). *)
Variable guard_top_country : list Circuit -> gmap string string.

(** [df[col].value_counts()[key]] and [df.groupby(cols).size()[key]]. *)
Definition count_rows (P : Circuit -> bool) (raw : list Circuit) : nat :=
  length (List.filter P raw).

Definition same (f : Circuit -> string) (c : Circuit) : Circuit -> bool :=
  fun r => bool_decide (f r = f c).

(** [df.groupby('guard_fingerprint')['guard_bandwidth'].mean()] *)
Definition guard_avg_bw (raw : list Circuit) (c : Circuit) : Q :=
  let grp := List.filter (same guard_fingerprint c) raw in
  (Qsum (map guard_bandwidth grp) / Qnat (length grp))%Q.

(** [le.fit_transform(df[col])] row by row: the position of the row's
    value among the fitted classes (a fitted value always has one). *)
Definition code (le : LabelEncoder.t) (v : string) : Q :=
  match LabelEncoder.index_of v (LabelEncoder.classes_ le) with
  | Some i => Qnat i
  | None => (-1)%Q
  end.

Definition encode_column (raw : list Circuit)
  (st : frame * gmap string LabelEncoder.t) (col : string * (Circuit -> string))
  : frame * gmap string LabelEncoder.t :=
  let le := LabelEncoder.fit (map (snd col) raw) in
  (assign (fst col ++ "_encoded") (fun c => code le (snd col c)) (fst st),
   <[fst col := le]> (snd st)).

Definition engineer_features (raw : list Circuit)
  : frame * gmap string LabelEncoder.t :=
  let df : frame := map (fun c => (c, [])) raw in
  (* A. bandwidth features *)
  let df := assign "bw_ratio_guard_middle"
              (fun c => guard_bandwidth c / (middle_bandwidth c + 1))%Q df in
  let df := assign "bw_ratio_guard_exit"
              (fun c => guard_bandwidth c / (exit_bandwidth c + 1))%Q df in
  let df := assign "bw_ratio_middle_exit"
              (fun c => middle_bandwidth c / (exit_bandwidth c + 1))%Q df in
  let df := assign "bw_total" (on_bandwidths bw_total) df in
  let df := assign "bw_min" (on_bandwidths bw_min) df in
  let df := assign "bw_max" (on_bandwidths bw_max) df in
  let df := assign "bw_std" (fun c => fsqrt (on_bandwidths bw_variance c)) df in
  (* B. geographic features *)
  let df := assign "same_country_guard_middle"
              (fun c => Qbool (bool_decide (guard_country c = middle_country c))) df in
  let df := assign "same_country_guard_exit"
              (fun c => Qbool (bool_decide (guard_country c = exit_country c))) df in
  let df := assign "same_country_middle_exit"
              (fun c => Qbool (bool_decide (middle_country c = exit_country c))) df in
  let df := assign "all_same_country"
              (fun c => Qbool (bool_decide (guard_country c = middle_country c)
                               && bool_decide (guard_country c = exit_country c))) df in
  let df := assign "country_diversity"
              (fun c => Qnat (distinct_countries (guard_country c) (middle_country c)
                                (exit_country c))) df in
  (* C. historical aggregates over the whole frame *)
  let df := assign "guard_usage_freq"
              (fun c => Qnat (count_rows (same guard_fingerprint c) raw)) df in
  let df := assign "middle_usage_freq"
              (fun c => Qnat (count_rows (same middle_fingerprint c) raw)) df in
  let df := assign "exit_usage_freq"
              (fun c => Qnat (count_rows (same exit_fingerprint c) raw)) df in
  let df := assign "guard_exit_pair_freq"
              (fun c => Qnat (count_rows (fun r => same guard_fingerprint c r
                                                   && same exit_fingerprint c r) raw)) df in
  let df := assign "guard_avg_bandwidth" (guard_avg_bw raw) df in
  let df := assign "guard_middle_pair_freq"
              (fun c => Qnat (count_rows (fun r => same guard_fingerprint c r
                                                   && same middle_fingerprint c r) raw)) df in
  let df := assign "guard_prefers_exit_country"
              (fun c => Qbool (bool_decide
                 (exit_country c
                  = default "" (guard_top_country raw !! guard_fingerprint c)))) df in
  (* D. label encoding *)
  let '(df, encoders) := foldl (encode_column raw) (df, ∅) categorical_cols in
  let le_target := LabelEncoder.fit (map guard_fingerprint raw) in
  let df := assign "guard_label" (fun c => code le_target (guard_fingerprint c)) df in
  let encoders := <["guard_fingerprint" := le_target]> encoders in
  (* E. interaction features *)
  let df := assign "bw_guard_x_setup"
              (fun c => guard_bandwidth c * circuit_setup_duration c)%Q df in
  let df := assign "bw_total_x_bytes"
              (fun c => on_bandwidths bw_total c * total_bytes c)%Q df in
  (df, encoders).

End EngineerFeatures.
End PrepareFeatures.

(** ** The classifier

    Any multi-class probabilistic classifier: [predict_proba] maps a matrix
    of feature rows to a matrix of probability rows, and [get_score] is the
    booster's importance dictionary keyed by ["f0"], ["f1"], ... *)
Record Model : Type := {
  predict_proba : list (list Q) -> list (list Q);
  get_score : gmap string Q
}.

(** ** scripts/predict_guard.py: batch inference *)
Module PredictGuard.
Section PredictTopKGuards.

Variable fsqrt : Q -> Q.

(** One entry of the returned frame. *)
Record Ranking : Set := {
  ranking_circuit_id : string;
  top_k_guards : list string;
  top_k_probabilities : list Q
}.

(** [df[name] = values], one value per row. *)
Definition assign_values (name : string) (vals : list Q) (df : frame) : frame :=
  zip_with (fun r v => (fst r, set_col name v (snd r))) df vals.

(** [le = encoders[col]; df[f'{col}_encoded'] = le.transform(df[col])] *)
Definition encode_column (encoders : gmap string LabelEncoder.t)
  (df : frame) (col : string * (Circuit -> string)) : result frame :=
  match encoders !! fst col with
  | None => Raise KeyError
  | Some le =>
      codes ← LabelEncoder.transform le (map (fun r => snd col (fst r)) df);
      Return (assign_values (fst col ++ "_encoded") (map inject_Z codes) df)
  end.

Fixpoint encode_columns (encoders : gmap string LabelEncoder.t)
  (df : frame) (cols : list (string * (Circuit -> string))) : result frame :=
  match cols with
  | [] => Return df
  | col :: cols' =>
      df' ← encode_column encoders df col;
      encode_columns encoders df' cols'
  end.

(** The feature-engineering prefix of [predict_top_k_guards]. *)
Definition engineer (encoders : gmap string LabelEncoder.t) (circuit_data : frame)
  : result frame :=
  let df := circuit_data in
  let df := assign "bw_ratio_guard_middle"
              (fun c => guard_bandwidth c / (middle_bandwidth c + 1))%Q df in
  let df := assign "bw_ratio_guard_exit"
              (fun c => guard_bandwidth c / (exit_bandwidth c + 1))%Q df in
  let df := assign "bw_ratio_middle_exit"
              (fun c => middle_bandwidth c / (exit_bandwidth c + 1))%Q df in
  let df := assign "bw_total" (on_bandwidths bw_total) df in
  let df := assign "bw_min" (on_bandwidths bw_min) df in
  let df := assign "bw_max" (on_bandwidths bw_max) df in
  let df := assign "bw_std" (fun c => fsqrt (on_bandwidths bw_variance c)) df in
  let df := assign "same_country_guard_middle"
              (fun c => Qbool (bool_decide (guard_country c = middle_country c))) df in
  let df := assign "same_country_guard_exit"
              (fun c => Qbool (bool_decide (guard_country c = exit_country c))) df in
  let df := assign "same_country_middle_exit"
              (fun c => Qbool (bool_decide (middle_country c = exit_country c))) df in
  let df := assign "all_same_country"
              (fun c => Qbool (bool_decide (guard_country c = middle_country c)
                               && bool_decide (guard_country c = exit_country c))) df in
  let df := assign "country_diversity"
              (fun c => Qnat (distinct_countries (guard_country c) (middle_country c)
                                (exit_country c))) df in
  df ← encode_columns encoders df categorical_cols;
  let df := assign "bw_guard_x_setup"
              (fun c => guard_bandwidth c * circuit_setup_duration c)%Q df in
  let df := assign "bw_total_x_bytes"
              (fun c => on_bandwidths bw_total c * total_bytes c)%Q df in
  Return df.

(** The body of [for i in range(len(X))]. *)
Definition rank_row (guard_encoder : LabelEncoder.t) (k : Z)
  (r : Circuit * columns) (row : list Q) : result Ranking :=
  let top_k_indices := top_k_indices row k in
  top_k_probs ← for_each (getitem row) top_k_indices;
  top_k_guards ← LabelEncoder.inverse_transform guard_encoder
                    (map Z.of_nat top_k_indices);
  Return {| ranking_circuit_id := circuit_id (fst r);
            top_k_guards := top_k_guards;
            top_k_probabilities := top_k_probs |}.

Fixpoint rank_rows (guard_encoder : LabelEncoder.t) (k : Z)
  (circuit_data : frame) (probabilities : list (list Q)) (i : nat) (n : nat)
  : result (list Ranking) :=
  match n with
  | O => Return []
  | S n' =>
      row ← getitem probabilities i;
      r ← getitem circuit_data i;
      res ← rank_row guard_encoder k r row;
      rest ← rank_rows guard_encoder k circuit_data probabilities (S i) n';
      Return (res :: rest)
  end.

(** [X = df[feature_cols].fillna(0)]: the embedding has no NaN cells, so
    [fillna] is the identity. *)
Definition predict_top_k_guards (circuit_data : frame) (model : Model)
  (encoders : gmap string LabelEncoder.t) (feature_cols : list string) (k : Z)
  : result (list Ranking) :=
  df ← engineer encoders circuit_data;
  X ← for_each (select_features feature_cols) df;
  let probabilities := predict_proba model X in
  match encoders !! "guard_fingerprint" with
  | None => Raise KeyError
  | Some guard_encoder =>
      rank_rows guard_encoder k circuit_data probabilities 0 (length X)
  end.

End PredictTopKGuards.
End PredictGuard.

(** ** backend/main.py: the prediction service *)
Module Backend.

(** Request schema.  The two float fields range over the finite floats;
    the schema also accepts [inf] and [nan], which are left out. *)
Record PredictionRequest : Set := {
  exit_fingerprint : string;
  exit_country : string;
  bandwidth : Q;
  setup_time : Q;
  middle_fingerprint : option string;
  middle_country : option string
}.

Record GuardPrediction : Set := {
  guard_fingerprint : string;
  guard_nickname : string;
  guard_address : string;
  guard_country : string;
  confidence : Q;
  rank : nat
}.

Inductive Impact : Set := high | medium | low.

Record FeatureImportance : Set := {
  feature : string;
  importance : Q;
  value : Q;
  impact : Impact
}.

(** One entry of the [guard_meta] dictionary. *)
Record GuardMeta : Set := {
  meta_nickname : string;
  meta_address : string;
  meta_country : string
}.

(** The module-level globals filled in by [load_model]. *)
Record Globals : Type := {
  model : option Model;
  encoders : gmap string LabelEncoder.t;
  feature_columns : list string;
  guard_fingerprints : list string;
  guard_meta : gmap string GuardMeta
}.

(** [x if x else d] / [x or d] on an optional string. *)
Definition opt_or (x : option string) (d : string) : string :=
  match x with
  | Some s => str_or s d
  | None => d
  end.

(** [try: encoders[col].transform([v])[0] except: -1] *)
Definition encode_or_sentinel (g : Globals) (col v : string) : Q :=
  try_except
    (match encoders g !! col with
     | None => Raise KeyError
     | Some le =>
         codes ← LabelEncoder.transform le [v];
         code ← getitem codes 0;
         Return (inject_Z code)
     end)
    (-1)%Q.

Section EngineerFeatures.

Variable fsqrt : Q -> Q.

Definition engineer_features (g : Globals) (request : PredictionRequest)
  : result columns :=
  let positive := negb (Qle_bool (bandwidth request) 0) in
  let gb := (17 # 2)%Q in
  let mb := 7%Q in
  let eb := if positive then bandwidth request else (13 # 2)%Q in
  let setup := setup_time request in
  let bytes := if positive
               then (bandwidth request * setup_time request * 1000000)%Q
               else 10000000%Q in
  let guard_country := "US" in
  let middle_country := opt_or (middle_country request) "Unknown" in
  let exit_country := exit_country request in
  let df : columns :=
    [ ("guard_bandwidth", gb); ("middle_bandwidth", mb); ("exit_bandwidth", eb);
      ("circuit_setup_duration", setup); ("total_bytes", bytes) ] in
  (* bandwidth ratios *)
  let df := set_col "bw_ratio_guard_middle" (gb / (mb + (1 # 1000000)))%Q df in
  let df := set_col "bw_ratio_guard_exit" (gb / (eb + (1 # 1000000)))%Q df in
  let df := set_col "bw_ratio_middle_exit" (mb / (eb + (1 # 1000000)))%Q df in
  let df := set_col "bw_total" (bw_total gb mb eb) df in
  let df := set_col "bw_min" (bw_min gb mb eb) df in
  let df := set_col "bw_max" (bw_max gb mb eb) df in
  let df := set_col "bw_std" (fsqrt (bw_variance gb mb eb)) df in
  (* geographic features *)
  let df := set_col "same_country_guard_middle"
              (Qbool (bool_decide (guard_country = middle_country))) df in
  let df := set_col "same_country_guard_exit"
              (Qbool (bool_decide (guard_country = exit_country))) df in
  let df := set_col "same_country_middle_exit"
              (Qbool (bool_decide (middle_country = exit_country))) df in
  let df := set_col "all_same_country"
              (Qbool (bool_decide (guard_country = middle_country)
                      && bool_decide (guard_country = exit_country))) df in
  let unique_countries := distinct_countries guard_country middle_country exit_country in
  let df := set_col "country_diversity" (Qnat unique_countries / 3)%Q df in
  (* historical features: fixed defaults *)
  let df := set_col "guard_usage_freq" (1 # 2)%Q df in
  let df := set_col "middle_usage_freq" (1 # 2)%Q df in
  let df := set_col "exit_usage_freq" (1 # 2)%Q df in
  let df := set_col "guard_exit_pair_freq" (1 # 10)%Q df in
  let df := set_col "guard_avg_bandwidth" gb df in
  let df := set_col "guard_middle_pair_freq" (1 # 10)%Q df in
  let df := set_col "guard_prefers_exit_country" (1 # 2)%Q df in
  (* categorical encodings *)
  let df := set_col "middle_fingerprint_encoded"
              (encode_or_sentinel g "middle_fingerprint"
                 (opt_or (middle_fingerprint request) "UNKNOWN")) df in
  let df := set_col "exit_fingerprint_encoded"
              (encode_or_sentinel g "exit_fingerprint" (exit_fingerprint request)) df in
  let df := set_col "guard_country_encoded"
              (encode_or_sentinel g "guard_country" guard_country) df in
  let df := set_col "middle_country_encoded"
              (encode_or_sentinel g "middle_country" middle_country) df in
  let df := set_col "exit_country_encoded"
              (encode_or_sentinel g "exit_country" exit_country) df in
  (* interaction features *)
  let df := set_col "bw_guard_x_setup" (gb * setup)%Q df in
  let df := set_col "bw_total_x_bytes" (bw_total gb mb eb * bytes)%Q df in
  (* X = df[feature_columns] *)
  for_each (fun name => v ← get_col name df; Return (name, v)) (feature_columns g).

End EngineerFeatures.

(** [f"GuardNode{idx:03d}"] *)
Definition guard_node_label (idx : nat) : string :=
  let digits := pretty idx in
  ("GuardNode" ++ String.concat "" (replicate (3 - String.length digits) "0") ++ digits)%string.

Definition get_top_k_predictions (g : Globals) (probabilities : list (list Q)) (k : Z)
  : result (list GuardPrediction) :=
  row ← getitem probabilities 0;
  let top_k_indices := top_k_indices row k in
  for_each
    (fun '(rank, idx) =>
       guard_fp ← getitem (guard_fingerprints g) idx;
       confidence ← getitem row idx;
       let meta := guard_meta g !! guard_fp in
       Return {| guard_fingerprint := guard_fp;
                 guard_nickname :=
                   str_or (default "" (meta_nickname <$> meta)) (guard_node_label idx);
                 guard_address := str_or (default "" (meta_address <$> meta)) "Unknown";
                 guard_country := str_or (default "" (meta_country <$> meta)) "Unknown";
                 confidence := confidence;
                 rank := rank |})
    (enumerate_from 1 top_k_indices).

(** The entries collected by the first loop of [get_feature_importance]. *)
Record Scored : Set := {
  scored_feature : string;
  scored_importance : Q;
  scored_value : Q
}.

Fixpoint collect_importance (importance_dict : gmap string Q) (feature_values : columns)
  (i : nat) (cols : list string) : result (list Scored) :=
  match cols with
  | [] => Return []
  | col :: cols' =>
      let feat_name := ("f" ++ pretty i)%string in
      let importance := default 0%Q (importance_dict !! feat_name) in
      if negb (Qle_bool importance 0) then
        value ← get_col col feature_values;
        rest ← collect_importance importance_dict feature_values (S i) cols';
        Return ({| scored_feature := col; scored_importance := importance;
                   scored_value := value |} :: rest)
      else collect_importance importance_dict feature_values (S i) cols'
  end.

(** [list.sort(key=importance, reverse=True)]: stable, descending. *)
Fixpoint sort_insert (x : Scored) (l : list Scored) : list Scored :=
  match l with
  | [] => [x]
  | y :: l' =>
      if Qle_bool (scored_importance y) (scored_importance x) then x :: y :: l'
      else y :: sort_insert x l'
  end.

Definition sort_by_importance (l : list Scored) : list Scored :=
  foldr sort_insert [] l.

(** [max(l)] on a non-empty list of numbers, started from its head. *)
Definition list_max (x : Q) (l : list Q) : Q := foldl Qmax x l.

Definition bucket (normalized_imp : Q) : Impact :=
  if negb (Qle_bool normalized_imp (7 # 10)) then high
  else if negb (Qle_bool normalized_imp (4 # 10)) then medium
  else low.

Definition get_feature_importance (g : Globals) (m : Model) (feature_values : columns)
  (top_n : Z) : result (list FeatureImportance) :=
  let importance_dict := get_score m in
  feature_importance ← collect_importance importance_dict feature_values 0
                          (feature_columns g);
  let top_features := slice_to top_n (sort_by_importance feature_importance) in
  let max_importance :=
    match map scored_importance top_features with
    | [] => 1%Q
    | x :: l => list_max x l
    end in
  Return (map (fun feat =>
                 let normalized_imp := (scored_importance feat / max_importance)%Q in
                 {| feature := scored_feature feat;
                    importance := normalized_imp;
                    value := scored_value feat;
                    impact := bucket normalized_imp |})
              top_features).

(** The payload of a successful [/api/predict] response (the elapsed time
    and the constant version strings are left out). *)
Record PredictionResponse : Set := {
  predictions : list GuardPrediction;
  top_features : list FeatureImportance;
  total_features : nat
}.

(** HTTP outcome of the endpoint. *)
Inductive Http (A : Type) : Type :=
| Http503
| Http500 (e : exn)
| Http200 (a : A).

Arguments Http503 {A}.
Arguments Http500 {A} e.
Arguments Http200 {A} a.

Section Endpoint.

Variable fsqrt : Q -> Q.

Definition predict_guard_nodes (g : Globals) (request : PredictionRequest)
  : Http PredictionResponse :=
  match model g with
  | None => Http503
  | Some m =>
      let body :=
        X ← engineer_features fsqrt g request;
        let probabilities := predict_proba m [map snd X] in
        predictions ← get_top_k_predictions g probabilities 10;
        top_features ← get_feature_importance g m X 5;
        Return {| predictions := predictions;
                  top_features := top_features;
                  total_features := length (feature_columns g) |} in
      match body with
      | Raise e => Http500 e
      | Return r => Http200 r
      end
  end.

End Endpoint.
End Backend.

(** ** scripts/train_xgboost.py: ranking evaluation *)
Module TrainXgboost.

(** [np.where(l == x)[0][0]]: first position of [x] in [l], if any. *)
Fixpoint position (x : nat) (l : list nat) : option nat :=
  match l with
  | [] => None
  | y :: l' => if decide (y = x) then Some 0 else S <$> position x l'
  end.

(** The loop of [calculate_mrr], with the accumulator [mrr] threaded. *)
Fixpoint mrr_loop (y_pred_proba : list (list Q)) (k : Z) (i : nat)
  (y_true : list nat) (mrr : Q) : result Q :=
  match y_true with
  | [] => Return mrr
  | true_label :: rest =>
      row ← getitem y_pred_proba i;
      let top_k_indices := top_k_indices row k in
      match position true_label top_k_indices with
      | Some p =>
          let rank := p + 1 in
          mrr_loop y_pred_proba k (S i) rest (mrr + 1 / Qnat rank)%Q
      | None => mrr_loop y_pred_proba k (S i) rest mrr
      end
  end.

Definition calculate_mrr (y_true : list nat) (y_pred_proba : list (list Q)) (k : Z)
  : result Q :=
  mrr ← mrr_loop y_pred_proba k 0 y_true 0%Q;
  if decide (length y_true = 0) then Raise ZeroDivisionError
  else Return (mrr / Qnat (length y_true))%Q.

(** [sklearn.metrics.accuracy_score]: the fraction of positions where the
    two label arrays agree.  Arrays of different lengths are rejected; an
    empty evaluation set has no accuracy and is embedded as an error too. *)
Definition accuracy_score (y_true y_pred : list nat) : result Q :=
  if decide (length y_true = length y_pred /\ y_true <> []) then
    let hits := List.filter (fun p => bool_decide (fst p = snd p)) (zip y_true y_pred) in
    Return (Qnat (length hits) / Qnat (length y_true))%Q
  else Raise ValueError.

Section EvaluateTopk.

(** [sklearn.metrics.top_k_accuracy_score], used for every [k] but 1. *)
Variable top_k_accuracy_score : list nat -> list (list Q) -> Z -> result Q.

Fixpoint evaluate_loop (y_true : list nat) (y_pred_proba : list (list Q))
  (k_values : list Z) (results : gmap string Q) : result (gmap string Q) :=
  match k_values with
  | [] => Return results
  | k :: ks =>
      acc ← (if decide (k = 1%Z) then
                y_pred ← for_each np_argmax y_pred_proba;
                accuracy_score y_true y_pred
              else top_k_accuracy_score y_true y_pred_proba k);
      evaluate_loop y_true y_pred_proba ks (<[("Top-" ++ pretty k)%string := acc]> results)
  end.

Definition evaluate_topk (y_true : list nat) (y_pred_proba : list (list Q))
  (k_values : list Z) : result (gmap string Q) :=
  evaluate_loop y_true y_pred_proba k_values ∅.

End EvaluateTopk.

(** [exclude_cols] and the feature-column selection of [main]. *)
Definition exclude_cols : list string :=
  [ "request_id"; "circuit_id"; "timestamp"; "build_time"; "status"; "purpose";
    "guard_fingerprint"; "guard_nickname"; "guard_address"; "guard_country";
    "middle_fingerprint"; "middle_nickname"; "middle_address"; "middle_country";
    "exit_fingerprint"; "exit_nickname"; "exit_address"; "exit_country";
    "guard_label" ].

Definition feature_cols (r : Circuit * columns) : list string :=
  List.filter (fun col => bool_decide (col ∉ exclude_cols))
    (map fst (numeric_columns (fst r) ++ snd r)).

End TrainXgboost.

(** ** Reference definitions used to state the properties *)

(** The reciprocal rank of one example, in the words of the evaluation
    protocol: [1 / rank] when the true class is in the top-K list (rank
    being its 1-based position there), 0 otherwise. *)
Definition reciprocal_rank (k : Z) (true_label : nat) (row : list Q) : Q :=
  match TrainXgboost.position true_label (top_k_indices row k) with
  | Some p => (1 / Qnat (S p))%Q
  | None => 0%Q
  end.

(** Mean over the examples of their reciprocal ranks. *)
Definition mean_reciprocal_rank (k : Z) (y_true : list nat) (P : list (list Q)) : Q :=
  (Qsum (zip_with (reciprocal_rank k) y_true P) / Qnat (length y_true))%Q.

(** Fraction of the examples that satisfy a test. *)
Definition fraction (hit : nat -> list Q -> bool) (y_true : list nat) (P : list (list Q)) : Q :=
  (Qnat (length (List.filter (fun p => hit (fst p) (snd p)) (zip y_true P)))
   / Qnat (length y_true))%Q.

(** The probability of class [i] in a row. *)
Definition prob (row : list Q) (i : nat) : Q := default 0%Q (row !! i).

(** The order the embedded sort puts (position, value) pairs in: by value,
    and by position among equal values. *)
Definition asc (p q : nat * Q) : Prop :=
  (snd p < snd q)%Q \/ ((snd p == snd q)%Q /\ fst p < fst q).

(** Lexicographic order on strings, the order of [np.unique]. *)
Definition slt (a b : string) : Prop := String.compare a b = Lt.

(** Shapes of a ranked candidate list [top] for a probability row. *)
Definition ranked_by_probability (row : list Q) (top : list nat) : Prop :=
  forall a b i j, a < b -> top !! a = Some i -> top !! b = Some j ->
    (prob row j <= prob row i)%Q.

Definition ties_ascending (row : list Q) (top : list nat) : Prop :=
  forall a b i j, a < b -> top !! a = Some i -> top !! b = Some j ->
    (prob row i == prob row j)%Q -> i < j.

(** What numpy promises of [np.argsort(row)]: a permutation of the positions
    of [row] that lists them by ascending value.  The default sort is not
    stable, so the order among positions of equal value is left open. *)
Definition argsort_admissible (argsort : list Q -> list nat) : Prop :=
  forall row,
    argsort row ≡ₚ seq 0 (length row)
    /\ forall a b i j, a < b -> argsort row !! a = Some i -> argsort row !! b = Some j ->
         (prob row i <= prob row j)%Q.

(** Top-1 hits, by [np.argmax] and by membership in the extractor's top-1
    list. *)
Definition argmax_hit (y : nat) (row : list Q) : bool :=
  match np_argmax row with
  | Return m => bool_decide (m = y)
  | Raise _ => false
  end.

Definition top1_hit (y : nat) (row : list Q) : bool :=
  bool_decide (y ∈ top_k_indices row 1).

(** The maximum of the row is attained at exactly one class. *)
Definition unique_max (row : list Q) : Prop :=
  exists m, m < length row
            /\ forall j, j < length row -> j <> m -> (prob row j < prob row m)%Q.

(** The order [list.sort(key=importance, reverse=True)] leaves the scored
    features in. *)
Definition by_importance (a b : Backend.Scored) : Prop :=
  (Backend.scored_importance b <= Backend.scored_importance a)%Q.

(** ** A small concrete deployment

    Two training circuits, the artifacts fitted on them, and an
    observation whose exit country was never seen at fit time. *)
Module Scenario.

Definition circuit_a : Circuit :=
  {| circuit_id := "c-a";
     guard_fingerprint := "GUARD-A"; guard_country := "US";
     middle_fingerprint := "MIDDLE-A"; middle_country := "DE";
     exit_fingerprint := "EXIT-A"; exit_country := "FR";
     guard_bandwidth := 17 # 2; middle_bandwidth := 7; exit_bandwidth := 13 # 2;
     circuit_setup_duration := 2; total_bytes := 13000000 |}.

Definition circuit_b : Circuit :=
  {| circuit_id := "c-b";
     guard_fingerprint := "GUARD-B"; guard_country := "US";
     middle_fingerprint := "MIDDLE-A"; middle_country := "US";
     exit_fingerprint := "EXIT-B"; exit_country := "US";
     guard_bandwidth := 1; middle_bandwidth := 2; exit_bandwidth := 3;
     circuit_setup_duration := 2; total_bytes := 100 |}.

Definition corpus : list Circuit := [circuit_a; circuit_b].

(** Same relays as [circuit_a], but the exit is in a country absent from
    the corpus. *)
Definition circuit_unseen : Circuit :=
  {| circuit_id := "c-new";
     guard_fingerprint := "GUARD-A"; guard_country := "US";
     middle_fingerprint := "MIDDLE-A"; middle_country := "DE";
     exit_fingerprint := "EXIT-A"; exit_country := "JP";
     guard_bandwidth := 17 # 2; middle_bandwidth := 7; exit_bandwidth := 13 # 2;
     circuit_setup_duration := 2; total_bytes := 13000000 |}.

(** The encoders [prepare_features.py] pickles for this corpus. *)
Definition encoders (fsqrt : Q -> Q) (guard_top_country : list Circuit -> gmap string string)
  : gmap string LabelEncoder.t :=
  snd (PrepareFeatures.engineer_features fsqrt guard_top_country corpus).

(** The feature columns [train_xgboost.py] pickles for this corpus. *)
Definition feature_columns (fsqrt : Q -> Q)
  (guard_top_country : list Circuit -> gmap string string) : list string :=
  match fst (PrepareFeatures.engineer_features fsqrt guard_top_country corpus) with
  | r :: _ => TrainXgboost.feature_cols r
  | [] => []
  end.

(** The service state after [load_model]. *)
Definition globals (fsqrt : Q -> Q)
  (guard_top_country : list Circuit -> gmap string string) (m : Model)
  : Backend.Globals :=
  {| Backend.model := Some m;
     Backend.encoders := encoders fsqrt guard_top_country;
     Backend.feature_columns := feature_columns fsqrt guard_top_country;
     Backend.guard_fingerprints :=
       default [] (LabelEncoder.classes_
                     <$> encoders fsqrt guard_top_country !! "guard_fingerprint");
     Backend.guard_meta := ∅ |}.

(** The request the service receives for [circuit_a]: exit relay, exit
    country, observed bandwidth 6.5, setup time 2, middle relay known. *)
Definition request_a : Backend.PredictionRequest :=
  {| Backend.exit_fingerprint := "EXIT-A";
     Backend.exit_country := "FR";
     Backend.bandwidth := 13 # 2;
     Backend.setup_time := 2;
     Backend.middle_fingerprint := Some "MIDDLE-A";
     Backend.middle_country := Some "DE" |}.

(** The same request from the unseen exit country. *)
Definition request_unseen : Backend.PredictionRequest :=
  {| Backend.exit_fingerprint := "EXIT-A";
     Backend.exit_country := "JP";
     Backend.bandwidth := 13 # 2;
     Backend.setup_time := 2;
     Backend.middle_fingerprint := Some "MIDDLE-A";
     Backend.middle_country := Some "DE" |}.

(** Stand-ins for the library functions, for closed evaluations that do
    not depend on them, and a two-class model. *)
Definition sqrt_stub : Q -> Q := fun q => q.

Definition top_country_stub : list Circuit -> gmap string string := fun _ => ∅.

Definition model : Model :=
  {| predict_proba := map (fun _ => [3 # 10; 7 # 10]%Q);
     get_score := {[ "f0" := 4%Q; "f5" := 8%Q; "f7" := 2%Q ]} |}.

Definition deployed : Backend.Globals := globals sqrt_stub top_country_stub model.

Definition top_k_accuracy_stub : list nat -> list (list Q) -> Z -> result Q :=
  fun _ _ _ => Raise ValueError.

(** The feature row the service builds for [request_a]. *)
Definition features_a : columns :=
  match Backend.engineer_features sqrt_stub deployed request_a with
  | Return X => X
  | Raise _ => []
  end.

End Scenario.

(** * Row-wise readings, startup metadata and the topology *)

(** ** Column names

    The columns each copy of the transform writes, in creation order, and
    the thirty-one model inputs (the five raw numeric columns followed by
    the engineered ones, without the target). *)
Definition bandwidth_names : list string :=
  [ "bw_ratio_guard_middle"; "bw_ratio_guard_exit"; "bw_ratio_middle_exit";
    "bw_total"; "bw_min"; "bw_max"; "bw_std" ].

Definition geographic_names : list string :=
  [ "same_country_guard_middle"; "same_country_guard_exit";
    "same_country_middle_exit"; "all_same_country"; "country_diversity" ].

Definition historical_names : list string :=
  [ "guard_usage_freq"; "middle_usage_freq"; "exit_usage_freq";
    "guard_exit_pair_freq"; "guard_avg_bandwidth"; "guard_middle_pair_freq";
    "guard_prefers_exit_country" ].

Definition encoded_names : list string :=
  [ "middle_fingerprint_encoded"; "exit_fingerprint_encoded";
    "guard_country_encoded"; "middle_country_encoded"; "exit_country_encoded" ].

Definition interaction_names : list string :=
  [ "bw_guard_x_setup"; "bw_total_x_bytes" ].

Definition raw_numeric_names : list string :=
  [ "guard_bandwidth"; "middle_bandwidth"; "exit_bandwidth";
    "circuit_setup_duration"; "total_bytes" ].

(** Columns added by [prepare_features.engineer_features]. *)
Definition training_names : list string :=
  bandwidth_names ++ geographic_names ++ historical_names ++ encoded_names
  ++ ["guard_label"] ++ interaction_names.

(** Columns of the frame [backend/main.py] builds, and the feature list
    [train_xgboost.py] derives from the training frame. *)
Definition model_feature_names : list string :=
  raw_numeric_names ++ bandwidth_names ++ geographic_names ++ historical_names
  ++ encoded_names ++ interaction_names.

(** Columns [predict_guard.py] computes itself. *)
Definition batch_names : list string :=
  bandwidth_names ++ geographic_names ++ encoded_names ++ interaction_names.

(** The row-wise reading of [prepare_features.engineer_features]: the
    columns of the row built from circuit [c] of the corpus [raw]. *)
Definition training_row (fsqrt : Q -> Q)
  (guard_top_country : list Circuit -> gmap string string)
  (raw : list Circuit) (c : Circuit) : columns :=
  [ ("bw_ratio_guard_middle", guard_bandwidth c / (middle_bandwidth c + 1));
    ("bw_ratio_guard_exit", guard_bandwidth c / (exit_bandwidth c + 1));
    ("bw_ratio_middle_exit", middle_bandwidth c / (exit_bandwidth c + 1));
    ("bw_total", on_bandwidths bw_total c);
    ("bw_min", on_bandwidths bw_min c);
    ("bw_max", on_bandwidths bw_max c);
    ("bw_std", fsqrt (on_bandwidths bw_variance c));
    ("same_country_guard_middle",
      Qbool (bool_decide (guard_country c = middle_country c)));
    ("same_country_guard_exit",
      Qbool (bool_decide (guard_country c = exit_country c)));
    ("same_country_middle_exit",
      Qbool (bool_decide (middle_country c = exit_country c)));
    ("all_same_country",
      Qbool (bool_decide (guard_country c = middle_country c)
             && bool_decide (guard_country c = exit_country c)));
    ("country_diversity",
      Qnat (distinct_countries (guard_country c) (middle_country c) (exit_country c)));
    ("guard_usage_freq",
      Qnat (PrepareFeatures.count_rows (PrepareFeatures.same guard_fingerprint c) raw));
    ("middle_usage_freq",
      Qnat (PrepareFeatures.count_rows (PrepareFeatures.same middle_fingerprint c) raw));
    ("exit_usage_freq",
      Qnat (PrepareFeatures.count_rows (PrepareFeatures.same exit_fingerprint c) raw));
    ("guard_exit_pair_freq",
      Qnat (PrepareFeatures.count_rows
              (fun r => PrepareFeatures.same guard_fingerprint c r
                        && PrepareFeatures.same exit_fingerprint c r) raw));
    ("guard_avg_bandwidth", PrepareFeatures.guard_avg_bw raw c);
    ("guard_middle_pair_freq",
      Qnat (PrepareFeatures.count_rows
              (fun r => PrepareFeatures.same guard_fingerprint c r
                        && PrepareFeatures.same middle_fingerprint c r) raw));
    ("guard_prefers_exit_country",
      Qbool (bool_decide
               (exit_country c
                = default "" (guard_top_country raw !! guard_fingerprint c))));
    ("middle_fingerprint_encoded",
      PrepareFeatures.code (LabelEncoder.fit (map middle_fingerprint raw))
        (middle_fingerprint c));
    ("exit_fingerprint_encoded",
      PrepareFeatures.code (LabelEncoder.fit (map exit_fingerprint raw))
        (exit_fingerprint c));
    ("guard_country_encoded",
      PrepareFeatures.code (LabelEncoder.fit (map guard_country raw)) (guard_country c));
    ("middle_country_encoded",
      PrepareFeatures.code (LabelEncoder.fit (map middle_country raw)) (middle_country c));
    ("exit_country_encoded",
      PrepareFeatures.code (LabelEncoder.fit (map exit_country raw)) (exit_country c));
    ("guard_label",
      PrepareFeatures.code (LabelEncoder.fit (map guard_fingerprint raw))
        (guard_fingerprint c));
    ("bw_guard_x_setup", guard_bandwidth c * circuit_setup_duration c);
    ("bw_total_x_bytes", on_bandwidths bw_total c * total_bytes c) ]%Q.



(** The six label-encoded columns of the training frame: source column,
    its accessor, and the column the codes are stored in. *)
Definition encoded_columns : list (string * (Circuit -> string) * string) :=
  [ ("middle_fingerprint", middle_fingerprint, "middle_fingerprint_encoded");
    ("exit_fingerprint", exit_fingerprint, "exit_fingerprint_encoded");
    ("guard_country", guard_country, "guard_country_encoded");
    ("middle_country", middle_country, "middle_country_encoded");
    ("exit_country", exit_country, "exit_country_encoded");
    ("guard_fingerprint", guard_fingerprint, "guard_label") ].

(** The code an encoder dictionary gives a value of one column. *)
Definition encoder_code (encoders : gmap string LabelEncoder.t) (col v : string) : Q :=
  match encoders !! col with
  | Some le => PrepareFeatures.code le v
  | None => (-1)%Q
  end.

(** The row-wise reading of the feature-engineering prefix of
    [predict_guard.predict_top_k_guards]: the assignments made to one row,
    in order, on top of the columns the row already has. *)
Definition batch_assignments (fsqrt : Q -> Q) (encoders : gmap string LabelEncoder.t)
  (c : Circuit) : columns :=
  [ ("bw_ratio_guard_middle", guard_bandwidth c / (middle_bandwidth c + 1));
    ("bw_ratio_guard_exit", guard_bandwidth c / (exit_bandwidth c + 1));
    ("bw_ratio_middle_exit", middle_bandwidth c / (exit_bandwidth c + 1));
    ("bw_total", on_bandwidths bw_total c);
    ("bw_min", on_bandwidths bw_min c);
    ("bw_max", on_bandwidths bw_max c);
    ("bw_std", fsqrt (on_bandwidths bw_variance c));
    ("same_country_guard_middle",
      Qbool (bool_decide (guard_country c = middle_country c)));
    ("same_country_guard_exit",
      Qbool (bool_decide (guard_country c = exit_country c)));
    ("same_country_middle_exit",
      Qbool (bool_decide (middle_country c = exit_country c)));
    ("all_same_country",
      Qbool (bool_decide (guard_country c = middle_country c)
             && bool_decide (guard_country c = exit_country c)));
    ("country_diversity",
      Qnat (distinct_countries (guard_country c) (middle_country c) (exit_country c)));
    ("middle_fingerprint_encoded",
      encoder_code encoders "middle_fingerprint" (middle_fingerprint c));
    ("exit_fingerprint_encoded",
      encoder_code encoders "exit_fingerprint" (exit_fingerprint c));
    ("guard_country_encoded", encoder_code encoders "guard_country" (guard_country c));
    ("middle_country_encoded", encoder_code encoders "middle_country" (middle_country c));
    ("exit_country_encoded", encoder_code encoders "exit_country" (exit_country c));
    ("bw_guard_x_setup", guard_bandwidth c * circuit_setup_duration c);
    ("bw_total_x_bytes", on_bandwidths bw_total c * total_bytes c) ]%Q.

Definition set_cols (assignments cols : columns) : columns :=
  foldl (fun acc nv => set_col (fst nv) (snd nv) acc) cols assignments.

Definition batch_row (fsqrt : Q -> Q) (encoders : gmap string LabelEncoder.t)
  (r : Circuit * columns) : columns :=
  set_cols (batch_assignments fsqrt encoders (fst r)) (snd r).

(** Every categorical encoder is present and has seen every value of its
    column in the frame. *)
Definition encoders_cover (encoders : gmap string LabelEncoder.t) (data : frame) : Prop :=
  forall col get, (col, get) ∈ categorical_cols ->
    exists le, encoders !! col = Some le
               /\ forall r, r ∈ data -> get (fst r) ∈ LabelEncoder.classes_ le.

(** ** backend/main.py: relay metadata loaded at startup

    The two loops of [load_model] over the engineered CSV.  The rows are
    taken as parsed by [csv.DictReader] (a dictionary per row; an absent
    field reads as [None]) or by [csv.reader] (a list of fields per row).
    Strings are ASCII. *)
Module LoadModel.

(** [str.strip()] *)
Definition is_space (a : Ascii.ascii) : bool :=
  let n := Ascii.nat_of_ascii a in
  ((n =? 32) || ((9 <=? n) && (n <=? 13)) || ((28 <=? n) && (n <=? 31)))%nat.

Fixpoint lstrip (s : string) : string :=
  match s with
  | EmptyString => EmptyString
  | String a s' => if is_space a then lstrip s' else s
  end.

Fixpoint rstrip (s : string) : string :=
  match s with
  | EmptyString => EmptyString
  | String a s' =>
      let t := rstrip s' in
      if is_space a && bool_decide (t = EmptyString) then EmptyString else String a t
  end.

Definition strip (s : string) : string := rstrip (lstrip s).

(** The dictionary stored for one guard. *)
Definition meta_entry (fp nickname address country : string) : Backend.GuardMeta :=
  {| Backend.meta_nickname := str_or nickname ("Guard_" ++ String.substring 0 6 fp);
     Backend.meta_address := str_or address "Unknown";
     Backend.meta_country := str_or country "Unknown" |}.

(** Loop state: the [guard_meta] dictionary and the [loaded] counter. *)
Abbreviation state := (gmap string Backend.GuardMeta * nat)%type.

(** Body of [for row in reader] over a headered file. *)
Definition load_header_row (st : state) (row : gmap string string) : state :=
  let fp := strip (default "" (row !! "guard_fingerprint")) in
  if decide (String.length fp = 40) then
    (<[fp := meta_entry fp (default "" (row !! "guard_nickname"))
               (default "" (row !! "guard_address"))
               (default "" (row !! "guard_country"))]> (fst st),
     S (snd st))
  else st.

(** [row[i].strip() if len(row) > i else ''] *)
Definition field (row : list string) (i : nat) : string :=
  if decide (i < length row) then strip (default "" (row !! i)) else "".

(** Body of [for row in reader] over a raw positional file. *)
Definition load_plain_row (st : state) (row : list string) : state :=
  if decide (length row < 8) then st
  else
    let fp := strip (default "" (row !! 4)) in
    if decide (String.length fp = 40) then
      (<[fp := meta_entry fp (field row 5) (field row 6) (field row 7)]> (fst st),
       S (snd st))
    else st.

(** The metadata block of [load_model]: [has_header] is the outcome of the
    test on the first line, and only the rows of the matching reader are
    used. *)
Definition load_metadata (guard_meta : gmap string Backend.GuardMeta)
  (has_header : bool) (dict_rows : list (gmap string string))
  (plain_rows : list (list string)) : state :=
  if has_header then foldl load_header_row (guard_meta, 0) dict_rows
  else foldl load_plain_row (guard_meta, 0) plain_rows.

End LoadModel.

(** Every stored entry is keyed by a 40-character fingerprint and has no
    empty field. *)
Definition meta_well_formed (guard_meta : gmap string Backend.GuardMeta) : Prop :=
  forall fp mt, guard_meta !! fp = Some mt ->
    String.length fp = 40
    /\ Backend.meta_nickname mt <> "" /\ Backend.meta_address mt <> ""
    /\ Backend.meta_country mt <> "".

(** A one-relay deployment whose metadata comes from one headered row:
    padded fingerprint, a nickname, no address column, an empty country. *)
Module Startup.

Definition fingerprint : string := "0123456789ABCDEF0123456789ABCDEF01234567".

Definition csv_row : gmap string string :=
  {[ "guard_fingerprint" := " 0123456789ABCDEF0123456789ABCDEF01234567 ";
     "guard_nickname" := "relayA";
     "guard_country" := "" ]}.

Definition deployment : Backend.Globals :=
  {| Backend.model := None;
     Backend.encoders := ∅;
     Backend.feature_columns := [];
     Backend.guard_fingerprints := [fingerprint];
     Backend.guard_meta := fst (LoadModel.load_metadata ∅ true [csv_row] []) |}.

End Startup.

(** ** backend/main.py: the synthetic topology

    [random.sample], [random.choice] and [random.uniform] draw from the
    module's generator: they are functions of an explicit generator state
    that return the drawn value and the next state.  [round] is the
    built-in on floats.  The time stamp and the constant note of the
    response are left out. *)
Module Topology.

Inductive NodeType : Set := guard | middle | exit.

Record TopologyNode : Set := {
  id : string;
  fingerprint : string;
  nickname : string;
  role : NodeType;
  country : string;
  bandwidth : Q;
  degree : nat
}.

Record TopologyLink : Set := {
  source : string;
  target : string;
  circuit_weight : Q;
  latency_ms : Q
}.

Record TopologyResponse : Set := {
  node_count : nat;
  link_count : nat;
  nodes : list TopologyNode;
  links : list TopologyLink
}.

(** Outcome of [GET /api/topology]. *)
Inductive Response : Set :=
| Http400 (detail : string)
| Http200 (topo : TopologyResponse).

(** [s[-n:]] for a positive [n] *)
Definition last_chars (n : nat) (s : string) : string :=
  String.substring (String.length s - n) n s.

(** [f"MID-{fp[:12]}"] and [f"EXT-{fp[-12:]}"] *)
Definition middle_of (fp : string) : string := ("MID-" ++ String.substring 0 12 fp)%string.

Definition exit_of (fp : string) : string := ("EXT-" ++ last_chars 12 fp)%string.

(** [f'{i:04X}'] for [i < 65536] *)
Definition hex_digit (n : nat) : string := String.substring n 1 "0123456789ABCDEF".

Definition hex4 (i : nat) : string :=
  (hex_digit (i / 4096 mod 16) ++ hex_digit (i / 256 mod 16)
   ++ hex_digit (i / 16 mod 16) ++ hex_digit (i mod 16))%string.

Definition fake_fingerprints : list string :=
  map (fun i => ("FAKE" ++ hex4 i)%string) (seq 0 200).

Definition countries_pool : list string :=
  ["US"; "DE"; "FR"; "GB"; "NL"; "CA"; "SE"; "NO"; "CH"; "JP"].

Definition role_prefix (r : NodeType) : string :=
  match r with
  | guard => "Guard"
  | middle => "Middle"
  | exit => "Exit"
  end.

(** [degree_map[k] = degree_map.get(k, 0) + 1] *)
Definition bump (k : string) (d : gmap string nat) : gmap string nat :=
  <[k := default 0 (d !! k) + 1]> d.

Definition degree_map (links : list TopologyLink) : gmap string nat :=
  foldl (fun d lk => bump (target lk) (bump (source lk) d)) ∅ links.

(** [n.degree = degree_map.get(n.id, 0)] *)
Definition set_degree (d : gmap string nat) (n : TopologyNode) : TopologyNode :=
  {| id := id n; fingerprint := fingerprint n; nickname := nickname n;
     role := role n; country := country n; bandwidth := bandwidth n;
     degree := default 0 (d !! id n) |}.

Section Random.
Context {rng : Type}.
Variable sample : list string -> nat -> rng -> list string * rng.
Variable choice : list string -> rng -> string * rng.
Variable uniform : Q -> Q -> rng -> Q * rng.
Variable round : Q -> nat -> Q.

Definition mk_node (fp : string) (r : NodeType) (st : rng) : TopologyNode * rng :=
  let '(c, st) := choice countries_pool st in
  let '(b, st) := uniform 2 15 st in
  ({| id := fp; fingerprint := fp;
      nickname := (role_prefix r ++ last_chars 5 fp)%string;
      role := r; country := c; bandwidth := round b 2; degree := 0 |}, st).

(** [for fp in fps: nodes.append(mk_node(fp, r))] *)
Fixpoint mk_nodes (fps : list string) (r : NodeType) (st : rng)
  : list TopologyNode * rng :=
  match fps with
  | [] => ([], st)
  | fp :: fps =>
      let '(n, st) := mk_node fp r st in
      let '(ns, st) := mk_nodes fps r st in
      (n :: ns, st)
  end.

(** [for g, m, e in zip(gs, ms, es)]: two links per circuit. *)
Fixpoint mk_links (gs ms es : list string) (st : rng) : list TopologyLink * rng :=
  match gs, ms, es with
  | g :: gs, m :: ms, e :: es =>
      let '(w1, st) := uniform (1 # 10) 1 st in
      let '(l1, st) := uniform 5 60 st in
      let '(w2, st) := uniform (1 # 10) 1 st in
      let '(l2, st) := uniform 5 60 st in
      let '(ls, st) := mk_links gs ms es st in
      ({| source := g; target := m;
          circuit_weight := round w1 3; latency_ms := round l1 1 |}
       :: {| source := m; target := e;
             circuit_weight := round w2 3; latency_ms := round l2 1 |}
       :: ls, st)
  | _, _, _ => ([], st)
  end.

Definition generate_topology (guard_fingerprints : option (list string)) (limit : Z)
  (st : rng) : TopologyResponse * rng :=
  let fingerprints := default fake_fingerprints guard_fingerprints in
  let sample_size :=
    Z.to_nat (Z.min (Z.max 10 (limit / 3)) (Z.of_nat (length fingerprints))) in
  let '(sampled_guards, st) := sample fingerprints sample_size st in
  let sampled_middles := map middle_of (take sample_size sampled_guards) in
  let sampled_exits := map exit_of (take sample_size sampled_guards) in
  let '(guards, st) := mk_nodes sampled_guards guard st in
  let '(middles, st) := mk_nodes sampled_middles middle st in
  let '(exits, st) := mk_nodes sampled_exits exit st in
  let '(links, st) := mk_links sampled_guards sampled_middles sampled_exits st in
  let nodes := map (set_degree (degree_map links)) (guards ++ middles ++ exits) in
  ({| node_count := length nodes; link_count := length links;
      nodes := nodes; links := links |}, st).

Definition topology (guard_fingerprints : option (list string)) (limit : Z)
  (st : rng) : Response :=
  if decide (limit < 10)%Z then Http400 "limit must be >= 10"
  else if decide (limit > 150)%Z then Http400 "limit too large for demo (<=150)"
  else Http200 (fst (generate_topology guard_fingerprints limit st)).

End Random.

(** How often [k] is an end point of a link. *)
Definition endpoint_count (k : string) (links : list TopologyLink) : nat :=
  length (filter (fun lk => source lk = k) links)
  + length (filter (fun lk => target lk = k) links).

(** Deterministic stand-ins for the generator, for closed evaluations. *)
Definition sample_stub : list string -> nat -> unit -> list string * unit :=
  fun population k st => (take k population, st).

Definition choice_stub : list string -> unit -> string * unit :=
  fun pool st => (default "" (head pool), st).

Definition uniform_stub : Q -> Q -> unit -> Q * unit := fun a b st => (a, st).

Definition round_stub : Q -> nat -> Q := fun q _ => q.

End Topology.

(** The accuracy one iteration of [evaluate_topk]'s loop computes for [k]. *)
Definition accuracy_at (top_k_accuracy_score : list nat -> list (list Q) -> Z -> result Q)
  (y_true : list nat) (y_pred_proba : list (list Q)) (k : Z) : result Q :=
  if decide (k = 1%Z) then
    y_pred ← for_each np_argmax y_pred_proba;
    TrainXgboost.accuracy_score y_true y_pred
  else top_k_accuracy_score y_true y_pred_proba k.

(** * Properties *)

(** ** The error monad and slices *)

Lemma for_each_Return {A B : Type} (f : A -> result B) (l : list A) :
  Forall (fun x => is_Return (f x)) l -> is_Return (for_each f l).
Proof.
  induction 1 as [|x l [y Hy] _ [ys Hys]]; simpl.
  - by exists [].
  - rewrite Hy, Hys. by eexists.
Qed.

Lemma for_each_length {A B : Type} (f : A -> result B) (l : list A) (ys : list B) :
  for_each f l = Return ys -> length ys = length l.
Proof.
  revert ys. induction l as [|x l IH]; intros ys; simpl.
  - by intros [= <-].
  - destruct (f x); [done|]. destruct (for_each f l) eqn:E; [done|].
    intros [= <-]. simpl. f_equal. by apply IH.
Qed.

Lemma for_each_lookup {A B : Type} (f : A -> result B) (l : list A) (ys : list B) i x :
  for_each f l = Return ys -> l !! i = Some x ->
  exists y, f x = Return y /\ ys !! i = Some y.
Proof.
  revert ys i. induction l as [|x' l IH]; intros ys i; simpl; [done|].
  destruct (f x') eqn:Ex; [done|]. destruct (for_each f l) eqn:E; [done|].
  intros [= <-]. destruct i as [|i]; simpl.
  - intros [= <-]. eauto.
  - intros Hi. by apply IH.
Qed.

Lemma for_each_Raise {A B : Type} (f : A -> result B) (l : list A) (e : exn) :
  for_each f l = Raise e -> exists x, x ∈ l /\ f x = Raise e.
Proof.
  induction l as [|x l IH]; simpl; [done|].
  destruct (f x) eqn:Ex.
  - intros [= <-]. exists x. split; [left|done].
  - destruct (for_each f l); [|done]. intros [= <-].
    destruct IH as (y & ? & ?); [done|]. exists y. split; [by right|done].
Qed.

Lemma lookup_map {A B : Type} (f : A -> B) (l : list A) i :
  map f l !! i = f <$> l !! i.
Proof. revert i. induction l as [|x l IH]; intros [|i]; simpl; auto. Qed.

Lemma slice_to_nonneg {A : Type} (k : Z) (l : list A) :
  (0 <= k)%Z -> slice_to k l = take (Z.to_nat k) l.
Proof. intros Hk. unfold slice_to. by rewrite (proj2 (Z.leb_le 0 k) Hk). Qed.

Lemma slice_to_neg {A : Type} (k : Z) (l : list A) :
  (k < 0)%Z -> slice_to k l = take (length l - Z.to_nat (- k)) l.
Proof. intros Hk. unfold slice_to. by rewrite (proj2 (Z.leb_gt 0 k) Hk). Qed.

Lemma slice_to_prefix {A : Type} (k : Z) (l : list A) :
  exists n, slice_to k l = take n l.
Proof. unfold slice_to. destruct (0 <=? k)%Z; eauto. Qed.

(** ** LabelEncoder *)

Lemma slt_trans a b c : slt a b -> slt b c -> slt a c.
Proof.
  unfold slt. intros H1 H2.
  apply String_as_OT.cmp_lt in H1. apply String_as_OT.cmp_lt in H2.
  apply String_as_OT.cmp_lt. by apply String_as_OT.lt_trans with b.
Qed.

Lemma slt_irrefl a : ~ slt a a.
Proof.
  unfold slt. intros H. apply String_as_OT.cmp_lt in H.
  by apply String_as_OT.lt_not_eq in H.
Qed.

Lemma compare_Gt_slt a b : String.compare a b = Gt -> slt b a.
Proof.
  unfold slt. intros H. rewrite String.compare_antisym, H. done.
Qed.

Lemma elem_of_insert_unique s l x :
  x ∈ LabelEncoder.insert_unique s l <-> x = s \/ x ∈ l.
Proof.
  induction l as [|y l IH]; simpl.
  - rewrite list_elem_of_singleton. set_solver.
  - destruct (String.compare s y) eqn:E.
    + apply String.compare_eq_iff in E. subst. set_solver.
    + set_solver.
    + rewrite elem_of_cons, IH. set_solver.
Qed.

Lemma insert_unique_sorted s l :
  StronglySorted slt l -> StronglySorted slt (LabelEncoder.insert_unique s l).
Proof.
  induction 1 as [|y l Hl IH Hy]; simpl.
  - repeat constructor.
  - destruct (String.compare s y) eqn:E.
    + by constructor.
    + constructor; [by constructor|]. constructor; [done|].
      eapply Forall_impl; [exact Hy|]. intros z Hz. by apply slt_trans with y.
    + constructor; [done|]. apply Forall_forall. intros z Hz.
      apply elem_of_insert_unique in Hz as [->|Hz].
      * by apply compare_Gt_slt.
      * rewrite Forall_forall in Hy. by apply Hy.
Qed.

Lemma elem_of_np_unique y x : x ∈ LabelEncoder.np_unique y <-> x ∈ y.
Proof.
  induction y as [|v y IH]; simpl; [done|].
  rewrite elem_of_insert_unique, IH. set_solver.
Qed.

Lemma np_unique_sorted y : StronglySorted slt (LabelEncoder.np_unique y).
Proof.
  induction y as [|v y IH]; simpl; [constructor|]. by apply insert_unique_sorted.
Qed.

Lemma sorted_slt_NoDup l : StronglySorted slt l -> NoDup l.
Proof.
  induction 1 as [|y l Hl IH Hy]; constructor; [|done].
  intros Hin. rewrite Forall_forall in Hy. by apply (slt_irrefl y), Hy.
Qed.

Lemma index_of_Some v l i :
  LabelEncoder.index_of v l = Some i -> l !! i = Some v.
Proof.
  revert i. induction l as [|x l IH]; intros i; simpl; [done|].
  destruct (decide (v = x)) as [->|Hne].
  - by intros [= <-].
  - destruct (LabelEncoder.index_of v l) as [j|]; [|done].
    intros [= <-]. by apply IH.
Qed.

Lemma index_of_None v l :
  LabelEncoder.index_of v l = None <-> v ∉ l.
Proof.
  induction l as [|x l IH]; simpl.
  - split; [intros _; apply not_elem_of_nil|done].
  - destruct (decide (v = x)) as [->|Hne].
    + split; [done|]. intros H. destruct H. left.
    + rewrite not_elem_of_cons, <- IH.
      destruct (LabelEncoder.index_of v l); simpl; split; try done; naive_solver.
Qed.

Lemma index_of_lookup v l i :
  NoDup l -> l !! i = Some v -> LabelEncoder.index_of v l = Some i.
Proof.
  intros Hnd. revert i. induction Hnd as [|x l Hx Hnd IH]; intros i; [done|].
  simpl. destruct i as [|i]; simpl.
  - intros [= ->]. by rewrite decide_True.
  - intros Hi. rewrite decide_False.
    + by rewrite (IH i Hi).
    + intros ->. apply Hx. by eapply list_elem_of_lookup_2.
Qed.

Lemma transform1_seen le v :
  v ∈ LabelEncoder.classes_ le ->
  exists i, LabelEncoder.transform1 le v = Return (Z.of_nat i)
            /\ LabelEncoder.classes_ le !! i = Some v.
Proof.
  intros Hv. unfold LabelEncoder.transform1.
  destruct (LabelEncoder.index_of v (LabelEncoder.classes_ le)) as [i|] eqn:E.
  - exists i. split; [done|]. by apply index_of_Some.
  - by apply index_of_None in E.
Qed.

Lemma transform1_unseen le v :
  v ∉ LabelEncoder.classes_ le -> LabelEncoder.transform1 le v = Raise ValueError.
Proof.
  intros Hv. unfold LabelEncoder.transform1.
  by rewrite (proj2 (index_of_None _ _) Hv).
Qed.

Lemma transform1_error le v e :
  LabelEncoder.transform1 le v = Raise e -> e = ValueError.
Proof.
  unfold LabelEncoder.transform1.
  destruct (LabelEncoder.index_of _ _); [done|]. by intros [= <-].
Qed.

Lemma inverse_transform1_lookup le i v :
  LabelEncoder.classes_ le !! i = Some v ->
  LabelEncoder.inverse_transform1 le (Z.of_nat i) = Return v.
Proof.
  intros Hi. unfold LabelEncoder.inverse_transform1.
  pose proof (lookup_lt_Some _ _ _ Hi).
  rewrite decide_True by lia. by rewrite Nat2Z.id, Hi.
Qed.

(** The encoders [prepare_features.py] stores: one per categorical column
    and one for the target, each fitted on that column of the corpus. *)
Lemma training_encoders fsqrt guard_top_country (raw : list Circuit) col get :
  (col, get) ∈ ("guard_fingerprint", guard_fingerprint) :: categorical_cols ->
  snd (PrepareFeatures.engineer_features fsqrt guard_top_country raw) !! col
  = Some (LabelEncoder.fit (map get raw)).
Proof.
  unfold PrepareFeatures.engineer_features, PrepareFeatures.encode_column.
  cbn [foldl categorical_cols fst snd]. intros H.
  repeat (apply elem_of_cons in H as [[= -> ->]|H]);
    [by simplify_map_eq..|by apply elem_of_nil in H].
Qed.

Lemma fit_round_trip (y : list string) (v : string) :
  v ∈ y ->
  exists i, LabelEncoder.transform1 (LabelEncoder.fit y) v = Return i
            /\ (0 <= i < Z.of_nat (length (LabelEncoder.classes_ (LabelEncoder.fit y))))%Z
            /\ LabelEncoder.inverse_transform1 (LabelEncoder.fit y) i = Return v.
Proof.
  intros Hv. destruct (transform1_seen (LabelEncoder.fit y) v) as (i & Ht & Hi).
  { by apply elem_of_np_unique. }
  exists (Z.of_nat i). split; [done|]. split.
  - apply lookup_lt_Some in Hi. lia.
  - by apply inverse_transform1_lookup.
Qed.

Lemma fit_dense (y : list string) (i : Z) :
  (0 <= i < Z.of_nat (length (LabelEncoder.classes_ (LabelEncoder.fit y))))%Z ->
  exists v, v ∈ y /\ LabelEncoder.transform1 (LabelEncoder.fit y) v = Return i.
Proof.
  intros Hi.
  destruct (lookup_lt_is_Some_2 (LabelEncoder.classes_ (LabelEncoder.fit y))
              (Z.to_nat i)) as [v Hv]; [lia|].
  exists v. split.
  - apply elem_of_np_unique. by eapply list_elem_of_lookup_2.
  - unfold LabelEncoder.transform1.
    rewrite (index_of_lookup v _ (Z.to_nat i));
      [|by apply sorted_slt_NoDup, np_unique_sorted|done].
    f_equal. lia.
Qed.

Lemma fit_canonical (y y' : list string) :
  (forall v, v ∈ y <-> v ∈ y') -> LabelEncoder.fit y' = LabelEncoder.fit y.
Proof.
  intros Hy'. unfold LabelEncoder.fit. f_equal.
  apply (StronglySorted_unique_strong slt).
  - intros a b _ _ Hab Hba. destruct (slt_irrefl a). by apply slt_trans with b.
  - apply np_unique_sorted.
  - apply np_unique_sorted.
  - apply NoDup_Permutation.
    + apply sorted_slt_NoDup, np_unique_sorted.
    + apply sorted_slt_NoDup, np_unique_sorted.
    + intros v. rewrite !elem_of_np_unique. symmetry. apply Hy'.
Qed.

Lemma code_transform1 le v i :
  LabelEncoder.transform1 le v = Return i -> PrepareFeatures.code le v = inject_Z i.
Proof.
  unfold LabelEncoder.transform1, PrepareFeatures.code.
  destruct (LabelEncoder.index_of v (LabelEncoder.classes_ le)); [|done].
  by intros [= <-].
Qed.

(** [C7] For every training corpus and each encoded column (the five
    categorical features and the target), [prepare_features.py] stores the
    encoder fitted on that column.  It gives every value of the column an
    index in [0, N), [N] being the number of fitted classes, and decoding
    that index returns the value (round trip); every index of [0, N) is
    the code of some value of the column (dense, no gaps); and the encoder
    depends only on the set of values in the column, so fitting again on
    the same corpus, in any row order, reproduces it. *)
Theorem C7_encoder_round_trip fsqrt guard_top_country (raw : list Circuit)
  (col : string) (get : Circuit -> string) :
  (col, get) ∈ ("guard_fingerprint", guard_fingerprint) :: categorical_cols ->
  exists le,
    snd (PrepareFeatures.engineer_features fsqrt guard_top_country raw) !! col = Some le
    /\ le = LabelEncoder.fit (map get raw)
    /\ (forall v, v ∈ map get raw ->
          exists i, LabelEncoder.transform1 le v = Return i
                    /\ (0 <= i < Z.of_nat (length (LabelEncoder.classes_ le)))%Z
                    /\ LabelEncoder.inverse_transform1 le i = Return v)
    /\ (forall i, (0 <= i < Z.of_nat (length (LabelEncoder.classes_ le)))%Z ->
          exists v, v ∈ map get raw /\ LabelEncoder.transform1 le v = Return i)
    /\ (forall raw', (forall v, v ∈ map get raw <-> v ∈ map get raw') ->
          snd (PrepareFeatures.engineer_features fsqrt guard_top_country raw') !! col
          = Some le).
Proof.
  intros Hcol. exists (LabelEncoder.fit (map get raw)).
  split; [by apply training_encoders|]. split; [done|].
  split; [apply fit_round_trip|]. split; [apply fit_dense|].
  intros raw' Hsame. rewrite (training_encoders _ _ raw' col get Hcol).
  f_equal. by apply fit_canonical.
Qed.

(** The exit-country encoder of the two-circuit corpus. *)
Lemma C7_encoder_round_trip_witness :
  exists le,
    snd (PrepareFeatures.engineer_features Scenario.sqrt_stub Scenario.top_country_stub
           Scenario.corpus) !! "exit_country" = Some le
    /\ le = LabelEncoder.fit (map exit_country Scenario.corpus)
    /\ (forall v, v ∈ map exit_country Scenario.corpus ->
          exists i, LabelEncoder.transform1 le v = Return i
                    /\ (0 <= i < Z.of_nat (length (LabelEncoder.classes_ le)))%Z
                    /\ LabelEncoder.inverse_transform1 le i = Return v)
    /\ (forall i, (0 <= i < Z.of_nat (length (LabelEncoder.classes_ le)))%Z ->
          exists v, v ∈ map exit_country Scenario.corpus
                    /\ LabelEncoder.transform1 le v = Return i)
    /\ (forall raw', (forall v, v ∈ map exit_country Scenario.corpus
                                <-> v ∈ map exit_country raw') ->
          snd (PrepareFeatures.engineer_features Scenario.sqrt_stub
                 Scenario.top_country_stub raw') !! "exit_country"
          = Some le).
Proof.
  apply (C7_encoder_round_trip Scenario.sqrt_stub Scenario.top_country_stub
           Scenario.corpus "exit_country" exit_country).
  apply list_elem_of_In. simpl. tauto.
Defined.

(** ** np.argsort and the top-K extractor *)

Lemma Qle_bool_false x y : Qle_bool x y = false -> (y < x)%Q.
Proof.
  intros H. apply Qnot_le_lt. intros Hle.
  apply Qle_bool_iff in Hle. congruence.
Qed.

Lemma asc_trans p q r : asc p q -> asc q r -> asc p r.
Proof.
  unfold asc. intros [H1|[H1 H1']] [H2|[H2 H2']].
  - left. by apply Qlt_trans with (snd q).
  - left. by rewrite <- H2.
  - left. by rewrite H1.
  - right. split; [by rewrite H1|lia].
Qed.

Lemma argsort_insert_perm p l : argsort_insert p l ≡ₚ p :: l.
Proof.
  induction l as [|q l IH]; simpl; [done|].
  destruct (Qle_bool (snd p) (snd q)); [done|].
  rewrite IH. apply Permutation_swap.
Qed.

Lemma argsort_pairs_perm l : argsort_pairs l ≡ₚ l.
Proof.
  induction l as [|p l IH]; simpl; [done|].
  by rewrite argsort_insert_perm, IH.
Qed.

Lemma argsort_insert_sorted p l :
  StronglySorted asc l -> Forall (fun q => fst p < fst q) l ->
  StronglySorted asc (argsort_insert p l).
Proof.
  induction 1 as [|q l Hl IH Hq]; intros Hp; simpl.
  - repeat constructor.
  - apply Forall_cons in Hp as [Hpq Hp].
    destruct (Qle_bool (snd p) (snd q)) eqn:E.
    + assert (asc p q) as Hasc.
      { apply Qle_bool_iff, Qle_lteq in E as [E|E]; [by left|by right]. }
      constructor; [by constructor|]. constructor; [done|].
      eapply Forall_impl; [exact Hq|]. intros r Hr. by apply asc_trans with q.
    + constructor; [by apply IH|].
      rewrite argsort_insert_perm. constructor; [|done].
      left. by apply Qle_bool_false.
Qed.

Lemma elem_of_enumerate_from {A : Type} (s : nat) (l : list A) i x :
  (i, x) ∈ enumerate_from s l <-> s <= i /\ l !! (i - s) = Some x.
Proof.
  revert s. induction l as [|y l IH]; intros s; simpl.
  - rewrite elem_of_nil. naive_solver.
  - rewrite elem_of_cons, IH. split.
    + intros [[= -> ->]|[Hs Hl]].
      * split; [lia|]. by rewrite Nat.sub_diag.
      * split; [lia|]. by replace (i - s) with (S (i - S s)) by lia.
    + intros [Hs Hl]. destruct (decide (i = s)) as [->|Hne].
      * left. rewrite Nat.sub_diag in Hl. simpl in Hl. congruence.
      * right. split; [lia|].
        by replace (i - s) with (S (i - S s)) in Hl by lia.
Qed.

Lemma enumerate_from_lookup {A : Type} (s : nat) (l : list A) a :
  enumerate_from s l !! a = (fun x => (s + a, x)) <$> l !! a.
Proof.
  revert s a. induction l as [|y l IH]; intros s a; simpl; [done|].
  destruct a as [|a]; simpl.
  - by rewrite Nat.add_0_r.
  - rewrite IH. by replace (S s + a) with (s + S a) by lia.
Qed.

Lemma fst_enumerate_from {A : Type} (s : nat) (l : list A) :
  map fst (enumerate_from s l) = seq s (length l).
Proof.
  revert s. induction l as [|y l IH]; intros s; simpl; [done|]. by rewrite IH.
Qed.

Lemma argsort_pairs_sorted (s : nat) (row : list Q) :
  StronglySorted asc (argsort_pairs (enumerate_from s row)).
Proof.
  revert s. induction row as [|x row IH]; intros s; simpl; [constructor|].
  apply argsort_insert_sorted; [apply IH|].
  rewrite argsort_pairs_perm. apply Forall_forall. intros [i v] Hiv.
  apply elem_of_enumerate_from in Hiv. simpl. lia.
Qed.

Lemma StronglySorted_rev {A : Type} (R : relation A) (l : list A) :
  StronglySorted R l -> StronglySorted (flip R) (rev l).
Proof.
  induction 1 as [|x l Hl IH Hx]; simpl; [constructor|].
  apply StronglySorted_app_2; [|done|repeat constructor].
  intros y z Hy Hz. apply list_elem_of_singleton in Hz as ->.
  apply list_elem_of_In, in_rev, list_elem_of_In in Hy.
  rewrite Forall_forall in Hx. by apply Hx.
Qed.

Lemma StronglySorted_take {A : Type} (R : relation A) (n : nat) (l : list A) :
  StronglySorted R l -> StronglySorted R (take n l).
Proof.
  intros Hl. rewrite <- (take_drop n l) in Hl.
  by apply StronglySorted_app_1_l in Hl.
Qed.

Lemma StronglySorted_lookup {A : Type} (R : relation A) (l : list A) a b x y :
  StronglySorted R l -> a < b -> l !! a = Some x -> l !! b = Some y -> R x y.
Proof.
  intros Hl. revert a b. induction Hl as [|z l Hl IH Hz]; intros a b Hab; [done|].
  destruct b as [|b]; [lia|]. destruct a as [|a]; simpl.
  - intros [= ->] Hb. rewrite Forall_forall in Hz.
    by eapply Hz, list_elem_of_lookup_2.
  - apply IH. lia.
Qed.

Lemma slice_to_map {A B : Type} (f : A -> B) (k : Z) (l : list A) :
  slice_to k (map f l) = map f (slice_to k l).
Proof.
  unfold slice_to. rewrite length_map.
  destruct (0 <=? k)%Z; symmetry; apply fmap_take.
Qed.

Lemma slice_to_sorted {A : Type} (R : relation A) (k : Z) (l : list A) :
  StronglySorted R l -> StronglySorted R (slice_to k l).
Proof.
  intros Hl. destruct (slice_to_prefix k l) as [n ->]. by apply StronglySorted_take.
Qed.

Lemma top_k_indices_pairs (row : list Q) (k : Z) :
  top_k_indices row k
  = map fst (slice_to k (rev (argsort_pairs (enumerate_from 0 row)))).
Proof.
  unfold top_k_indices, np_argsort. by rewrite <- slice_to_map, map_rev.
Qed.

Lemma top_k_pairs_sorted (row : list Q) (k : Z) :
  StronglySorted (flip asc) (slice_to k (rev (argsort_pairs (enumerate_from 0 row)))).
Proof. apply slice_to_sorted, StronglySorted_rev, argsort_pairs_sorted. Qed.

Lemma top_k_pairs_elem (row : list Q) (k : Z) i v :
  (i, v) ∈ slice_to k (rev (argsort_pairs (enumerate_from 0 row))) ->
  row !! i = Some v.
Proof.
  intros H.
  destruct (slice_to_prefix k (rev (argsort_pairs (enumerate_from 0 row)))) as [n Hn].
  rewrite Hn in H. apply subseteq_take in H.
  rewrite <- Permutation_rev, argsort_pairs_perm in H.
  apply elem_of_enumerate_from in H as [_ H]. by rewrite Nat.sub_0_r in H.
Qed.

Lemma prob_lookup (row : list Q) i v : row !! i = Some v -> prob row i = v.
Proof. unfold prob. by intros ->. Qed.

Lemma np_argsort_perm (row : list Q) : np_argsort row ≡ₚ seq 0 (length row).
Proof.
  unfold np_argsort. rewrite <- fst_enumerate_from.
  apply (fmap_Permutation fst), argsort_pairs_perm.
Qed.

Lemma top_k_indices_prefix (row : list Q) (k : Z) :
  exists n, top_k_indices row k = take n (rev (np_argsort row)).
Proof. apply slice_to_prefix. Qed.

Lemma top_k_indices_bound (row : list Q) (k : Z) i :
  i ∈ top_k_indices row k -> i < length row.
Proof.
  destruct (top_k_indices_prefix row k) as [n ->]. intros H.
  apply subseteq_take in H. rewrite <- Permutation_rev, np_argsort_perm in H.
  apply elem_of_seq in H. lia.
Qed.

Lemma top_k_indices_NoDup (row : list Q) (k : Z) : NoDup (top_k_indices row k).
Proof.
  destruct (top_k_indices_prefix row k) as [n ->].
  apply (sublist_NoDup _ (rev (np_argsort row))); [|apply sublist_take].
  rewrite <- Permutation_rev, np_argsort_perm. apply NoDup_seq.
Qed.

Lemma length_rev_argsort (row : list Q) : length (rev (np_argsort row)) = length row.
Proof. by rewrite length_rev, np_argsort_perm, length_seq. Qed.

Lemma top_k_indices_length (row : list Q) (k : Z) :
  (0 <= k)%Z -> length (top_k_indices row k) = Nat.min (Z.to_nat k) (length row).
Proof.
  intros Hk. unfold top_k_indices.
  by rewrite slice_to_nonneg, length_take, length_rev_argsort.
Qed.

Lemma top_k_indices_length_neg (row : list Q) (k : Z) :
  (k < 0)%Z -> length (top_k_indices row k) = length row - Z.to_nat (- k).
Proof.
  intros Hk. unfold top_k_indices.
  rewrite slice_to_neg, length_take, length_rev_argsort by done. lia.
Qed.

(** Candidates come out by non-increasing probability; the embedded sort
    lists equal probabilities by decreasing class index. *)
Lemma top_k_indices_order (row : list Q) (k : Z) a b i j :
  a < b -> top_k_indices row k !! a = Some i -> top_k_indices row k !! b = Some j ->
  (prob row j <= prob row i)%Q /\ ((prob row j == prob row i)%Q -> j < i).
Proof.
  intros Hab. rewrite top_k_indices_pairs, !list_lookup_fmap.
  destruct (_ !! a) as [[i' v]|] eqn:Ea; [|done].
  destruct (_ !! b) as [[j' w]|] eqn:Eb; [|done].
  simpl. intros [= ->] [= ->].
  pose proof (StronglySorted_lookup _ _ a b _ _ (top_k_pairs_sorted row k) Hab Ea Eb)
    as Hs.
  apply list_elem_of_lookup_2, top_k_pairs_elem, prob_lookup in Ea.
  apply list_elem_of_lookup_2, top_k_pairs_elem, prob_lookup in Eb.
  rewrite Ea, Eb. unfold flip, asc in Hs. simpl in Hs.
  destruct Hs as [Hs|[Hs Hs']].
  - split; [by apply Qlt_le_weak|]. intros Heq. rewrite Heq in Hs.
    by apply Qlt_irrefl in Hs.
  - split; [by rewrite Hs; apply Qle_refl|done].
Qed.

(** *** The service's wrapper around the extractor *)

Lemma getitem_Some {A : Type} (l : list A) i x :
  getitem l i = Return x <-> l !! i = Some x.
Proof. unfold getitem. destruct (l !! i); naive_solver. Qed.

Lemma getitem_lt {A : Type} (l : list A) i :
  i < length l -> is_Return (getitem l i).
Proof.
  intros Hi. destruct (lookup_lt_is_Some_2 l i Hi) as [x Hx].
  exists x. by apply getitem_Some.
Qed.

Lemma get_top_k_predictions_inv g row rest k preds :
  Backend.get_top_k_predictions g (row :: rest) k = Return preds ->
  length preds = length (top_k_indices row k)
  /\ forall a i, top_k_indices row k !! a = Some i ->
       exists p, preds !! a = Some p /\ Backend.rank p = S a
                 /\ Backend.confidence p = prob row i
                 /\ Backend.guard_fingerprints g !! i = Some (Backend.guard_fingerprint p).
Proof.
  unfold Backend.get_top_k_predictions. simpl. intros H. split.
  - apply for_each_length in H. rewrite H.
    by rewrite <- (length_map fst), fst_enumerate_from, length_seq.
  - intros a i Ha.
    eapply (for_each_lookup _ _ _ a (S a, i)) in H as (p & Hp & Hpa).
    2:{ by rewrite enumerate_from_lookup, Ha. }
    exists p. split; [done|]. simpl in Hp.
    destruct (getitem (Backend.guard_fingerprints g) i) as [|fp] eqn:Efp; [done|].
    destruct (getitem row i) as [|c] eqn:Ec; [done|].
    simpl in Hp. injection Hp as <-. simpl.
    apply getitem_Some in Efp, Ec. by rewrite (prob_lookup _ _ _ Ec).
Qed.

Lemma get_top_k_predictions_Return g row rest k :
  length row <= length (Backend.guard_fingerprints g) ->
  is_Return (Backend.get_top_k_predictions g (row :: rest) k).
Proof.
  intros Hlen. unfold Backend.get_top_k_predictions. simpl.
  apply for_each_Return, Forall_forall. intros [r i] Hri.
  apply elem_of_enumerate_from in Hri as [_ Hri].
  apply list_elem_of_lookup_2, top_k_indices_bound in Hri.
  destruct (getitem_lt (Backend.guard_fingerprints g) i) as [fp Hfp]; [lia|].
  destruct (getitem_lt row i) as [c Hc]; [done|].
  rewrite Hfp. simpl. rewrite Hc. simpl. by eexists.
Qed.

Lemma rank_row_inv enc k r row res :
  PredictGuard.rank_row enc k r row = Return res ->
  PredictGuard.top_k_probabilities res = map (prob row) (top_k_indices row k)
  /\ length (PredictGuard.top_k_guards res) = length (top_k_indices row k).
Proof.
  unfold PredictGuard.rank_row.
  destruct (for_each (getitem row) (top_k_indices row k)) as [|probs] eqn:Ep;
    [done|]. simpl.
  destruct (LabelEncoder.inverse_transform enc _) as [|guards] eqn:Eg; [done|].
  simpl. intros [= <-]. simpl. split.
  - apply list_eq. intros a. rewrite list_lookup_fmap.
    destruct (top_k_indices row k !! a) as [i|] eqn:Ea; simpl.
    + destruct (for_each_lookup _ _ _ _ _ Ep Ea) as (v & Hv & ->).
      apply getitem_Some in Hv. by rewrite (prob_lookup _ _ _ Hv).
    + apply lookup_ge_None. rewrite (for_each_length _ _ _ Ep).
      by apply lookup_ge_None.
  - apply for_each_length in Eg. by rewrite Eg, length_map.
Qed.

Lemma StronglySorted_of_lookup {A : Type} (R : relation A) (l : list A) :
  (forall a b x y, a < b -> l !! a = Some x -> l !! b = Some y -> R x y) ->
  StronglySorted R l.
Proof.
  induction l as [|x l IH]; intros H; constructor.
  - apply IH. intros a b y z Hab Ha Hb. apply (H (S a) (S b)); [lia|done|done].
  - apply Forall_forall. intros y Hy.
    apply list_elem_of_lookup_1 in Hy as [b Hb]. apply (H 0 (S b)); [lia|done|done].
Qed.

Lemma filter_length_Permutation {A : Type} (f : A -> bool) (l1 l2 : list A) :
  l1 ≡ₚ l2 -> length (List.filter f l1) = length (List.filter f l2).
Proof.
  induction 1 as [|x l1 l2 _ IH|x y l|l1 l2 l3 _ IH1 _ IH2]; simpl.
  - done.
  - destruct (f x); simpl; by rewrite IH.
  - by destruct (f x), (f y).
  - by rewrite IH1.
Qed.

(** Two rankings of the same classes by non-increasing value carry the same
    values position by position, however each orders its ties. *)
Lemma rankings_same_values (f : nat -> Q) (l1 l2 : list nat) :
  (forall z, length (List.filter (fun i => Qeq_bool z (f i)) l1)
             = length (List.filter (fun i => Qeq_bool z (f i)) l2)) ->
  StronglySorted (fun i j => (f j <= f i)%Q) l1 ->
  StronglySorted (fun i j => (f j <= f i)%Q) l2 ->
  Forall2 (fun i j => (f i == f j)%Q) l1 l2.
Proof.
  intros Hcnt Hs1. revert l2 Hcnt.
  induction Hs1 as [|x l1 Hs1 IH Hx]; intros l2 Hcnt Hs2.
  - destruct l2 as [|y l2]; [constructor|].
    specialize (Hcnt (f y)). simpl in Hcnt.
    rewrite (proj2 (Qeq_bool_iff _ _) (Qeq_refl (f y))) in Hcnt. discriminate.
  - destruct Hs2 as [|y l2 Hs2 Hy].
    { specialize (Hcnt (f x)). simpl in Hcnt.
      rewrite (proj2 (Qeq_bool_iff _ _) (Qeq_refl (f x))) in Hcnt. discriminate. }
    assert (forall (l l' : list nat) u,
              (forall z, length (List.filter (fun i => Qeq_bool z (f i)) l)
                         = length (List.filter (fun i => Qeq_bool z (f i)) l')) ->
              u ∈ l -> exists u', u' ∈ l' /\ (f u == f u')%Q) as Hmem.
    { intros l l' u Hc Hu. specialize (Hc (f u)).
      destruct (List.filter (fun i => Qeq_bool (f u) (f i)) l') as [|u' r] eqn:E.
      - assert (u ∈ List.filter (fun i => Qeq_bool (f u) (f i)) l) as Hin.
        { apply list_elem_of_In, filter_In. split; [by apply list_elem_of_In|].
          apply Qeq_bool_iff, Qeq_refl. }
        destruct (List.filter _ l); [by apply elem_of_nil in Hin|discriminate].
      - assert (In u' (List.filter (fun i => Qeq_bool (f u) (f i)) l')) as Hin
          by (rewrite E; by left).
        apply filter_In in Hin as [Hin Heq]. exists u'.
        split; [by apply list_elem_of_In|by apply Qeq_bool_iff]. }
    assert (f x == f y)%Q as Hxy.
    { apply Qle_antisym.
      - destruct (Hmem (x :: l1) (y :: l2) x Hcnt ltac:(left)) as (u & Hu & Heq).
        rewrite Heq. apply elem_of_cons in Hu as [->|Hu]; [apply Qle_refl|].
        rewrite Forall_forall in Hy. by apply Hy.
      - destruct (Hmem (y :: l2) (x :: l1) y ltac:(by intros z; symmetry) ltac:(left))
          as (u & Hu & Heq).
        rewrite Heq. apply elem_of_cons in Hu as [->|Hu]; [apply Qle_refl|].
        rewrite Forall_forall in Hx. by apply Hx. }
    constructor; [done|]. apply IH; [|done].
    intros z. specialize (Hcnt z). simpl in Hcnt.
    assert (Qeq_bool z (f x) = Qeq_bool z (f y)) as Hb.
    { destruct (Qeq_bool z (f y)) eqn:E.
      - apply Qeq_bool_iff. apply Qeq_bool_iff in E. by rewrite Hxy.
      - destruct (Qeq_bool z (f x)) eqn:E'; [|done].
        apply Qeq_bool_iff in E'. rewrite Hxy in E'.
        apply Qeq_bool_iff in E'. congruence. }
    rewrite Hb in Hcnt. destruct (Qeq_bool z (f y)); simpl in Hcnt; lia.
Qed.

Lemma argsort_admissible_ranking (argsort : list Q -> list nat) (row : list Q) :
  argsort_admissible argsort ->
  rev (argsort row) ≡ₚ seq 0 (length row)
  /\ StronglySorted (fun i j => (prob row j <= prob row i)%Q) (rev (argsort row)).
Proof.
  intros Hadm. destruct (Hadm row) as [Hperm Hsort]. split.
  - by rewrite <- Permutation_rev.
  - apply (StronglySorted_rev (fun i j => (prob row i <= prob row j)%Q)).
    by apply StronglySorted_of_lookup.
Qed.

(** The embedded sort is one of the admissible results. *)
Lemma np_argsort_admissible : argsort_admissible np_argsort.
Proof.
  intros row. split; [apply np_argsort_perm|].
  intros a b i j Hab. unfold np_argsort. rewrite !list_lookup_fmap.
  destruct (_ !! a) as [[i' v]|] eqn:Ea; [|done].
  destruct (_ !! b) as [[j' w]|] eqn:Eb; [|done].
  simpl. intros [= ->] [= ->].
  pose proof (StronglySorted_lookup _ _ a b _ _ (argsort_pairs_sorted 0 row) Hab Ea Eb)
    as Hs.
  assert (forall i v, (i, v) ∈ argsort_pairs (enumerate_from 0 row) -> prob row i = v)
    as Hel.
  { intros i0 v0 H. rewrite argsort_pairs_perm in H.
    apply elem_of_enumerate_from in H as [_ H]. rewrite Nat.sub_0_r in H.
    by apply prob_lookup. }
  apply list_elem_of_lookup_2, Hel in Ea. apply list_elem_of_lookup_2, Hel in Eb.
  rewrite Ea, Eb. unfold asc in Hs. simpl in Hs.
  destruct Hs as [Hs|[Hs _]]; [by apply Qlt_le_weak|by rewrite Hs; apply Qle_refl].
Qed.

(** Whatever admissible order [np.argsort] leaves ties in, the sliced
    ranking has the same length, is ordered by non-increasing probability,
    and carries the same probabilities position by position. *)
Lemma top_k_any_tie_order (argsort : list Q -> list nat) (row : list Q) (k : Z) :
  argsort_admissible argsort -> (0 <= k)%Z ->
  length (slice_to k (rev (argsort row))) = Nat.min (Z.to_nat k) (length row)
  /\ ranked_by_probability row (slice_to k (rev (argsort row)))
  /\ Forall2 Qeq (map (prob row) (slice_to k (rev (argsort row))))
       (map (prob row) (top_k_indices row k)).
Proof.
  intros Hadm Hk.
  destruct (argsort_admissible_ranking argsort row Hadm) as [Hperm Hsort].
  destruct (argsort_admissible_ranking np_argsort row np_argsort_admissible)
    as [Hperm0 Hsort0].
  split; [|split].
  - rewrite slice_to_nonneg, length_take, Hperm, length_seq by done. done.
  - intros a b i j Hab Ha Hb.
    apply (StronglySorted_lookup _ _ a b i j
             (slice_to_sorted _ k _ Hsort) Hab Ha Hb).
  - unfold top_k_indices. rewrite !slice_to_nonneg by done.
    apply Forall2_fmap, Forall2_take, rankings_same_values; [|done|done].
    intros z. apply filter_length_Permutation. by rewrite Hperm, Hperm0.
Qed.

(** [C2, amended] For every probability row and every [k >= 1] the
    extractor [np.argsort(row)[::-1][:k]] returns exactly
    [min(k, number of classes)] candidates, in non-increasing probability
    order.  The order among candidates of equal probability is whatever
    [np.argsort] leaves: for every admissible result of the sort the
    extracted list has this length and this order and carries the same
    probabilities position by position.  The ranked predictions of the
    service and the ranking rows of the batch script carry the candidates
    in the extracted order. *)
Theorem C2_top_k_order_and_length (row : list Q) (k : Z) :
  (1 <= k)%Z ->
  let top := top_k_indices row k in
  length top = Nat.min (Z.to_nat k) (length row)
  /\ ranked_by_probability row top
  /\ (forall argsort, argsort_admissible argsort ->
        let top' := slice_to k (rev (argsort row)) in
        length top' = Nat.min (Z.to_nat k) (length row)
        /\ ranked_by_probability row top'
        /\ Forall2 Qeq (map (prob row) top') (map (prob row) top))
  /\ (forall g rest preds,
        Backend.get_top_k_predictions g (row :: rest) k = Return preds ->
        map Backend.confidence preds = map (prob row) top
        /\ map Backend.rank preds = seq 1 (length top))
  /\ (forall enc r res,
        PredictGuard.rank_row enc k r row = Return res ->
        PredictGuard.top_k_probabilities res = map (prob row) top).
Proof.
  intros Hk top. split; [|split; [|split; [|split]]].
  - apply top_k_indices_length. lia.
  - intros a b i j Hab Ha Hb.
    by destruct (top_k_indices_order row k a b i j Hab Ha Hb).
  - intros argsort Hadm. apply top_k_any_tie_order; [done|lia].
  - intros g rest preds Hp.
    apply get_top_k_predictions_inv in Hp as [Hlen Hp]. split.
    + apply list_eq. intros a. rewrite !list_lookup_fmap.
      destruct (top !! a) as [i|] eqn:Ea; simpl.
      * destruct (Hp a i Ea) as (p & -> & _ & Hc & _). simpl. by rewrite Hc.
      * apply lookup_ge_None in Ea. fold top in Hlen.
        by rewrite (proj2 (lookup_ge_None preds a)) by lia.
    + apply list_eq. intros a. rewrite list_lookup_fmap.
      destruct (top !! a) as [i|] eqn:Ea; simpl.
      * destruct (Hp a i Ea) as (p & -> & Hr & _). simpl. rewrite Hr.
        apply lookup_lt_Some in Ea. by rewrite lookup_seq_lt.
      * apply lookup_ge_None in Ea. fold top in Hlen.
        rewrite (proj2 (lookup_ge_None preds a)) by lia.
        simpl. symmetry. by apply lookup_seq_ge.
  - intros enc r res Hres. by apply rank_row_inv in Hres as [? _].
Qed.

(** The scenario row [0.1, 0.7, 0.2] with [k = 3], and the embedded sort as
    the admissible result. *)
Lemma C2_top_k_order_and_length_witness :
  length (top_k_indices [1 # 10; 7 # 10; 2 # 10]%Q 3) = 3
  /\ ranked_by_probability [1 # 10; 7 # 10; 2 # 10]%Q
       (top_k_indices [1 # 10; 7 # 10; 2 # 10]%Q 3)
  /\ length (slice_to 3 (rev (np_argsort [1 # 10; 7 # 10; 2 # 10]%Q))) = 3.
Proof.
  pose proof (C2_top_k_order_and_length [1 # 10; 7 # 10; 2 # 10]%Q 3 ltac:(lia))
    as (Hlen & Hrank & Hany & _).
  destruct (Hany np_argsort np_argsort_admissible) as (Hlen' & _).
  split; [exact Hlen|]. split; [exact Hrank|exact Hlen'].
Defined.

(** [C2] as stated fails on ties: on the row [0.5, 0.5] the extractor puts
    class 1 before class 0, the result numpy returns for this row. *)
Lemma C2_ties_not_ascending :
  ~ ties_ascending [1 # 2; 1 # 2]%Q (top_k_indices [1 # 2; 1 # 2]%Q 2).
Proof.
  intros H. specialize (H 0 1 1 0). simpl in H.
  assert (1 < 0) as Hlt; [|lia].
  apply H; [lia|reflexivity|reflexivity|reflexivity].
Qed.

(** ** Requests with a non-positive [k] *)

Lemma rank_row_Return enc k r row :
  length row <= length (LabelEncoder.classes_ enc) ->
  is_Return (PredictGuard.rank_row enc k r row).
Proof.
  intros Hlen. unfold PredictGuard.rank_row.
  destruct (for_each_Return (getitem row) (top_k_indices row k)) as [probs ->].
  { apply Forall_forall. intros i Hi. by eapply getitem_lt, top_k_indices_bound. }
  simpl. unfold LabelEncoder.inverse_transform.
  destruct (for_each_Return (LabelEncoder.inverse_transform1 enc)
              (map Z.of_nat (top_k_indices row k))) as [guards ->].
  { apply Forall_forall. intros z Hz. apply list_elem_of_fmap in Hz as (i & -> & Hi).
    apply top_k_indices_bound in Hi.
    destruct (lookup_lt_is_Some_2 (LabelEncoder.classes_ enc) i) as [v Hv]; [lia|].
    exists v. by apply inverse_transform1_lookup. }
  simpl. by eexists.
Qed.

(** [C8, amended] [k] is not validated anywhere: for [k <= 0] the
    extraction does not raise.  It follows Python's slice rule: it returns
    no candidate for [k = 0], and for [k < 0] the ranking without its
    [|k|] least probable classes; the service and the batch script return
    a result of that length whenever the class table covers the row. *)
Theorem C8_nonpositive_k_is_sliced (row : list Q) (k : Z) :
  (k <= 0)%Z ->
  let n := if decide (k = 0%Z) then 0 else length row - Z.to_nat (- k) in
  top_k_indices row k = take n (rev (np_argsort row))
  /\ (forall g rest, length row <= length (Backend.guard_fingerprints g) ->
        exists preds, Backend.get_top_k_predictions g (row :: rest) k = Return preds
                      /\ length preds = n)
  /\ (forall enc r, length row <= length (LabelEncoder.classes_ enc) ->
        exists res, PredictGuard.rank_row enc k r row = Return res
                    /\ length (PredictGuard.top_k_guards res) = n).
Proof.
  intros Hk n.
  assert (top_k_indices row k = take n (rev (np_argsort row))) as Htop.
  { unfold top_k_indices, n. destruct (decide (k = 0%Z)) as [->|Hne].
    - by rewrite slice_to_nonneg.
    - rewrite slice_to_neg by lia. by rewrite length_rev_argsort. }
  assert (length (top_k_indices row k) = n) as Hlen.
  { rewrite Htop, length_take, length_rev_argsort. unfold n.
    destruct (decide (k = 0%Z)); lia. }
  split; [done|split].
  - intros g rest Hg.
    destruct (get_top_k_predictions_Return g row rest k Hg) as [preds Hp].
    exists preds. split; [done|].
    apply get_top_k_predictions_inv in Hp as [-> _]. done.
  - intros enc r Henc.
    destruct (rank_row_Return enc k r row Henc) as [res Hres].
    exists res. split; [done|].
    apply rank_row_inv in Hres as [_ ->]. done.
Qed.

(** [k = -1] on a three-class row keeps the two most probable classes. *)
Lemma C8_nonpositive_k_is_sliced_witness :
  top_k_indices [1 # 10; 7 # 10; 2 # 10]%Q (-1)
  = take 2 (rev (np_argsort [1 # 10; 7 # 10; 2 # 10]%Q)).
Proof.
  exact (proj1 (C8_nonpositive_k_is_sliced [1 # 10; 7 # 10; 2 # 10]%Q (-1) ltac:(lia))).
Defined.

(** [C8] as stated fails: with [k = -1] the service returns a ranked
    prediction, and with [k = 0] an empty result, instead of rejecting
    the request. *)
Lemma C8_nonpositive_k_not_rejected :
  Backend.get_top_k_predictions Scenario.deployed [[3 # 10; 7 # 10]%Q] (-1)
  = Return [ {| Backend.guard_fingerprint := "GUARD-B";
                Backend.guard_nickname := "GuardNode001";
                Backend.guard_address := "Unknown";
                Backend.guard_country := "Unknown";
                Backend.confidence := 7 # 10;
                Backend.rank := 1 |} ]
  /\ Backend.get_top_k_predictions Scenario.deployed [[3 # 10; 7 # 10]%Q] 0
     = Return [].
Proof. split; vm_compute; reflexivity. Qed.

(** ** The three copies of the feature transform *)

Lemma assign_map (name : string) (f : Circuit -> Q) (h : Circuit -> columns)
  (raw : list Circuit) :
  assign name f (map (fun c => (c, h c)) raw)
  = map (fun c => (c, set_col name (f c) (h c))) raw.
Proof. unfold assign. rewrite map_map. done. Qed.

(** Every row of the training frame carries the columns computed from its
    own raw record; its ratio columns use the stabilizer [+ 1] and its
    diversity column is the raw count of distinct countries. *)
Lemma training_row_columns fsqrt guard_top_country (raw : list Circuit) :
  exists H : Circuit -> columns,
    fst (PrepareFeatures.engineer_features fsqrt guard_top_country raw)
    = map (fun c => (c, H c)) raw
    /\ forall c,
         get_col "bw_ratio_guard_middle" (H c)
         = Return (guard_bandwidth c / (middle_bandwidth c + 1))%Q
         /\ get_col "bw_ratio_guard_exit" (H c)
            = Return (guard_bandwidth c / (exit_bandwidth c + 1))%Q
         /\ get_col "bw_ratio_middle_exit" (H c)
            = Return (middle_bandwidth c / (exit_bandwidth c + 1))%Q
         /\ get_col "country_diversity" (H c)
            = Return (Qnat (distinct_countries (guard_country c) (middle_country c)
                              (exit_country c))).
Proof.
  unfold PrepareFeatures.engineer_features, PrepareFeatures.encode_column.
  cbn [foldl categorical_cols fst snd].
  rewrite (assign_map _ _ (fun _ => [])). rewrite !assign_map.
  eexists. split; [reflexivity|]. intros c. cbn beta.
  repeat split; vm_compute; reflexivity.
Qed.

Lemma select_named_get (df : columns) (cols : list string) (X : columns) name :
  for_each (fun name => v ← get_col name df; Return (name, v)) cols = Return X ->
  name ∈ cols -> get_col name X = get_col name df.
Proof.
  revert X. induction cols as [|n cols IH]; intros X; simpl.
  - intros _ Hin. by apply elem_of_nil in Hin.
  - destruct (get_col n df) as [|v] eqn:En; [done|]. simpl.
    destruct (for_each _ cols) as [|X'] eqn:EX; [done|].
    intros [= <-] Hin. simpl. destruct (decide (n = name)) as [->|Hne].
    + done.
    + apply elem_of_cons in Hin as [->|Hin]; [done|]. by apply IH.
Qed.

(** Whatever the request, the service's frame has its ratio columns
    computed from the defaults 8.5 and 7.0 with the stabilizer [+ 1e-6],
    and its diversity column divided by 3. *)
Lemma service_columns fsqrt g (request : Backend.PredictionRequest) (X : columns) :
  Backend.engineer_features fsqrt g request = Return X ->
  exists df : columns,
    (forall name, name ∈ Backend.feature_columns g -> get_col name X = get_col name df)
    /\ get_col "bw_ratio_guard_middle" df
       = Return ((17 # 2) / (7 + (1 # 1000000)))%Q
    /\ get_col "bw_ratio_guard_exit" df
       = Return ((17 # 2)
                 / ((if negb (Qle_bool (Backend.bandwidth request) 0)
                     then Backend.bandwidth request else 13 # 2) + (1 # 1000000)))%Q
    /\ get_col "country_diversity" df
       = Return (Qnat (distinct_countries "US"
                         (Backend.opt_or (Backend.middle_country request) "Unknown")
                         (Backend.exit_country request)) / 3)%Q.
Proof.
  unfold Backend.engineer_features. cbv zeta. intros HX.
  eexists. split; [|split; [|split]].
  - intros name Hname. by apply (select_named_get _ _ _ _ HX).
  - reflexivity.
  - reflexivity.
  - reflexivity.
Qed.

Lemma ratio_stabilizers_differ (gb mb : Q) :
  (gb == 17 # 2)%Q -> (mb == 7)%Q ->
  ~ (gb / (mb + 1) == (17 # 2) / (7 + (1 # 1000000)))%Q.
Proof. intros -> ->. vm_compute. discriminate. Qed.

(** A training row that carries the bandwidths the service assumes for the
    unknown guard and middle relay never gets the ratio the service
    computes. *)
Lemma ratio_guard_middle_skew fsqrt guard_top_country raw i c cols g request X :
  fst (PrepareFeatures.engineer_features fsqrt guard_top_country raw) !! i
    = Some (c, cols) ->
  (guard_bandwidth c == 17 # 2)%Q -> (middle_bandwidth c == 7)%Q ->
  Backend.engineer_features fsqrt g request = Return X ->
  "bw_ratio_guard_middle" ∈ Backend.feature_columns g ->
  exists vt vs, get_col "bw_ratio_guard_middle" cols = Return vt
                /\ get_col "bw_ratio_guard_middle" X = Return vs
                /\ ~ (vt == vs)%Q.
Proof.
  intros Hrow Hg Hm HX Hname.
  destruct (training_row_columns fsqrt guard_top_country raw) as (H & HH & Hcols).
  rewrite HH, lookup_map in Hrow.
  destruct (raw !! i) as [c'|]; [|done]. simpl in Hrow. injection Hrow as -> <-.
  destruct (Hcols c) as (Ht & _).
  destruct (service_columns fsqrt g request X HX) as (df & Hsel & Hs & _).
  do 2 eexists. split; [exact Ht|]. split; [by rewrite (Hsel _ Hname)|].
  by apply ratio_stabilizers_differ.
Qed.

(** [C1] On one and the same observation (guard bandwidth 8.5, middle
    bandwidth 7.0, exit bandwidth 6.5) the training transform and the batch
    script compute [bw_ratio_guard_middle = 8.5 / (7.0 + 1) = 17/16], the
    service computes [8.5 / (7.0 + 1e-6)]: the stabilizer constants differ
    and so do the feature values. *)
Theorem C1_service_ratio_differs_from_training :
  forall fsqrt guard_top_country m,
    (exists cols,
        fst (PrepareFeatures.engineer_features fsqrt guard_top_country Scenario.corpus) !! 0
        = Some (Scenario.circuit_a, cols)
        /\ get_col "bw_ratio_guard_middle" cols = Return (17 # 16)%Q
        /\ get_col "bw_ratio_guard_exit" cols = Return (34 # 30)%Q
        /\ get_col "bw_ratio_middle_exit" cols = Return (14 # 15)%Q)
    /\ (exists cols,
          PredictGuard.engineer fsqrt (Scenario.encoders fsqrt guard_top_country)
            [(Scenario.circuit_a, [])]
          = Return [(Scenario.circuit_a, cols)]
          /\ get_col "bw_ratio_guard_middle" cols = Return (17 # 16)%Q
          /\ get_col "bw_ratio_guard_exit" cols = Return (34 # 30)%Q
          /\ get_col "bw_ratio_middle_exit" cols = Return (14 # 15)%Q)
    /\ (exists X,
          Backend.engineer_features fsqrt
            (Scenario.globals fsqrt guard_top_country m) Scenario.request_a
          = Return X
          /\ get_col "bw_ratio_guard_middle" X = Return (17000000 # 14000002)%Q
          /\ get_col "bw_ratio_guard_exit" X = Return (34000000 # 26000004)%Q
          /\ get_col "bw_ratio_middle_exit" X = Return (14000000 # 13000002)%Q)
    /\ ~ (17 # 16 == 17000000 # 14000002)%Q
    /\ ~ (34 # 30 == 34000000 # 26000004)%Q
    /\ ~ (14 # 15 == 14000000 # 13000002)%Q.
Proof.
  intros fsqrt guard_top_country m.
  split; [|split; [|split; [|split; [|split]]]].
  - eexists. split; [vm_compute; reflexivity|]. repeat split; reflexivity.
  - eexists. split; [vm_compute; reflexivity|]. repeat split; reflexivity.
  - eexists. split; [vm_compute; reflexivity|]. repeat split; reflexivity.
  - vm_compute. discriminate.
  - vm_compute. discriminate.
  - vm_compute. discriminate.
Qed.

(** [C4] For an observation with three distinct countries the training
    transform and the batch script store [country_diversity = 3], the raw
    count, where the service stores [3 / 3]: the training side is not
    divided by 3 and leaves the range [1/3, 1]. *)
Theorem C4_training_diversity_is_raw_count :
  forall fsqrt guard_top_country m,
    (exists cols,
        fst (PrepareFeatures.engineer_features fsqrt guard_top_country Scenario.corpus) !! 0
        = Some (Scenario.circuit_a, cols)
        /\ get_col "country_diversity" cols = Return 3%Q)
    /\ (exists cols,
          PredictGuard.engineer fsqrt (Scenario.encoders fsqrt guard_top_country)
            [(Scenario.circuit_a, [])]
          = Return [(Scenario.circuit_a, cols)]
          /\ get_col "country_diversity" cols = Return 3%Q)
    /\ (exists X,
          Backend.engineer_features fsqrt
            (Scenario.globals fsqrt guard_top_country m) Scenario.request_a
          = Return X
          /\ get_col "country_diversity" X = Return (3 # 3)%Q)
    /\ distinct_countries "US" "DE" "FR" = 3
    /\ ~ (3 == Qnat 3 / 3)%Q
    /\ ~ (3 <= 1)%Q.
Proof.
  intros fsqrt guard_top_country m.
  split; [|split; [|split; [|split; [|split]]]].
  - eexists. split; [vm_compute; reflexivity|reflexivity].
  - eexists. split; [vm_compute; reflexivity|reflexivity].
  - eexists. split; [vm_compute; reflexivity|reflexivity].
  - reflexivity.
  - vm_compute. discriminate.
  - vm_compute. intros H. by apply H.
Qed.

(** ** Unseen categorical values at inference *)

(** The service: a value the encoder of [col] never saw (or a missing
    encoder) becomes the sentinel. *)
Lemma encode_or_sentinel_unseen g col v :
  (forall le, Backend.encoders g !! col = Some le -> v ∉ LabelEncoder.classes_ le) ->
  Backend.encode_or_sentinel g col v = (-1)%Q.
Proof.
  intros Hv. unfold Backend.encode_or_sentinel.
  destruct (Backend.encoders g !! col) as [le|] eqn:E; [|done].
  unfold LabelEncoder.transform. simpl.
  by rewrite (transform1_unseen le v (Hv le eq_refl)).
Qed.

Lemma encode_or_sentinel_seen g col le v :
  Backend.encoders g !! col = Some le -> v ∈ LabelEncoder.classes_ le ->
  exists i, LabelEncoder.classes_ le !! i = Some v
            /\ Backend.encode_or_sentinel g col v = inject_Z (Z.of_nat i).
Proof.
  intros E Hv. unfold Backend.encode_or_sentinel. rewrite E.
  destruct (transform1_seen le v Hv) as (i & Ht & Hi).
  exists i. split; [done|]. unfold LabelEncoder.transform. simpl. by rewrite Ht.
Qed.

Lemma for_each_raises {A B : Type} (f : A -> result B) (l : list A) (x : A) (e : exn) :
  x ∈ l -> f x = Raise e -> (forall y e', f y = Raise e' -> e' = e) ->
  for_each f l = Raise e.
Proof.
  intros Hx Hfx Hf. destruct (for_each f l) as [e'|ys] eqn:E.
  - apply for_each_Raise in E as (y & _ & Hy). by rewrite (Hf y e' Hy).
  - apply list_elem_of_lookup in Hx as [i Hi].
    destruct (for_each_lookup _ _ _ _ _ E Hi) as (y & Hy & _). congruence.
Qed.

(** The batch script: one row with a value its encoder never saw makes the
    whole column transform raise. *)
Lemma encode_column_unseen encoders (df : frame) col get le r :
  encoders !! col = Some le -> r ∈ df -> get (fst r) ∉ LabelEncoder.classes_ le ->
  PredictGuard.encode_column encoders df (col, get) = Raise ValueError.
Proof.
  intros E Hr Hv. unfold PredictGuard.encode_column. simpl. rewrite E.
  unfold LabelEncoder.transform.
  rewrite (for_each_raises _ _ (get (fst r)) ValueError); [done| | |].
  - apply list_elem_of_In, in_map_iff. exists r. split; [done|].
    by apply list_elem_of_In.
  - by apply transform1_unseen.
  - intros y e'. apply transform1_error.
Qed.

(** [C3] With the encoders fitted on the training corpus, an observation
    whose exit country is not in the corpus is encoded to [-1] by the
    service, and makes the batch script raise [ValueError] before any row
    is scored. *)
Theorem C3_batch_script_raises_on_unseen :
  forall fsqrt guard_top_country m feature_cols k,
    PredictGuard.predict_top_k_guards fsqrt [(Scenario.circuit_unseen, [])] m
      (Scenario.encoders fsqrt guard_top_country) feature_cols k
    = Raise ValueError
    /\ Backend.encode_or_sentinel (Scenario.globals fsqrt guard_top_country m)
         "exit_country" "JP" = (-1)%Q
    /\ "JP" ∉ map exit_country Scenario.corpus.
Proof.
  intros fsqrt guard_top_country m feature_cols k. split; [|split].
  - vm_compute. reflexivity.
  - vm_compute. reflexivity.
  - intros H. apply list_elem_of_In in H. simpl in H.
    destruct H as [H|[H|[]]]; discriminate.
Qed.

(** ** Mean reciprocal rank *)

Lemma Qnat_S_pos (n : nat) : (0 < Qnat (S n))%Q.
Proof. unfold Qnat. rewrite <- (Zlt_Qlt 0). lia. Qed.

Lemma Qnat_S_ge_1 (n : nat) : (1 <= Qnat (S n))%Q.
Proof. unfold Qnat. rewrite <- (Zle_Qle 1). lia. Qed.

Lemma Qnat_eq (n m : nat) : (Qnat n == Qnat m)%Q <-> n = m.
Proof.
  unfold Qnat. rewrite inject_Z_injective. lia.
Qed.

Lemma Qnat_S (n : nat) : (Qnat (S n) == 1 + Qnat n)%Q.
Proof.
  unfold Qnat. rewrite Nat2Z.inj_succ, <- Z.add_1_l, inject_Z_plus. reflexivity.
Qed.

Lemma Qdiv_pos_bounds (s n : Q) :
  (0 < n)%Q -> (0 <= s <= n)%Q -> (0 <= s / n <= 1)%Q.
Proof.
  intros Hn [H0 H1]. split.
  - apply Qle_shift_div_l; [done|]. by rewrite Qmult_0_l.
  - apply Qle_shift_div_r; [done|]. by rewrite Qmult_1_l.
Qed.

Lemma Qdiv_eq_0 (s n : Q) : (0 < n)%Q -> (s / n == 0)%Q <-> (s == 0)%Q.
Proof.
  intros Hn. split; intros H.
  - rewrite <- (Qmult_div_r s n), H by (intros E; rewrite E in Hn; by apply Qlt_irrefl in Hn).
    apply Qmult_0_r.
  - rewrite H. unfold Qdiv. apply Qmult_0_l.
Qed.

Lemma Qdiv_eq_1 (s n : Q) : (0 < n)%Q -> (s / n == 1)%Q <-> (s == n)%Q.
Proof.
  intros Hn.
  assert (~ (n == 0)%Q) as Hn0.
  { intros E. rewrite E in Hn. by apply Qlt_irrefl in Hn. }
  split; intros H.
  - rewrite <- (Qmult_div_r s n), H by done. apply Qmult_1_r.
  - rewrite H. unfold Qdiv. by apply Qmult_inv_r.
Qed.

Lemma position_None x l : TrainXgboost.position x l = None <-> x ∉ l.
Proof.
  induction l as [|y l IH]; simpl.
  - split; [intros _; apply not_elem_of_nil|done].
  - destruct (decide (y = x)) as [->|Hne].
    + split; [done|]. intros H. destruct H. left.
    + rewrite not_elem_of_cons, <- IH.
      destruct (TrainXgboost.position x l); simpl; split; try done; naive_solver.
Qed.

Lemma position_Some_0 x l : TrainXgboost.position x l = Some 0 <-> l !! 0 = Some x.
Proof.
  destruct l as [|y l]; simpl; [done|].
  destruct (decide (y = x)) as [->|Hne]; [done|].
  destruct (TrainXgboost.position x l); simpl; split; intros [=]; done.
Qed.

Lemma reciprocal_rank_bounds k y row :
  (0 <= reciprocal_rank k y row <= 1)%Q.
Proof.
  unfold reciprocal_rank. destruct (TrainXgboost.position _ _) as [p|].
  - apply Qdiv_pos_bounds; [apply Qnat_S_pos|].
    split; [done|apply Qnat_S_ge_1].
  - done.
Qed.

Lemma reciprocal_rank_0 k y row :
  (reciprocal_rank k y row == 0)%Q <-> y ∉ top_k_indices row k.
Proof.
  rewrite <- position_None. unfold reciprocal_rank.
  destruct (TrainXgboost.position _ _) as [p|]; [|done].
  rewrite Qdiv_eq_0 by apply Qnat_S_pos. split; [|done].
  intros H. by apply Q_apart_0_1 in H.
Qed.

Lemma reciprocal_rank_1 k y row :
  (reciprocal_rank k y row == 1)%Q <-> top_k_indices row k !! 0 = Some y.
Proof.
  rewrite <- position_Some_0. unfold reciprocal_rank.
  destruct (TrainXgboost.position _ _) as [p|].
  - rewrite Qdiv_eq_1 by apply Qnat_S_pos.
    change 1%Q with (Qnat 1). rewrite Qnat_eq. naive_solver.
  - split; [|done]. intros H. symmetry in H. by apply Q_apart_0_1 in H.
Qed.

Lemma Qsum_bounds (l : list Q) :
  Forall (fun x => 0 <= x <= 1)%Q l -> (0 <= Qsum l <= Qnat (length l))%Q.
Proof.
  induction 1 as [|x l [Hx0 Hx1] _ [IH0 IH1]]; simpl.
  - done.
  - rewrite Qnat_S. split.
    + rewrite <- (Qplus_0_r 0). by apply Qplus_le_compat.
    + by apply Qplus_le_compat.
Qed.

Lemma Qsum_eq_0 (l : list Q) :
  Forall (fun x => 0 <= x <= 1)%Q l ->
  (Qsum l == 0)%Q <-> Forall (fun x => x == 0)%Q l.
Proof.
  induction 1 as [|x l [Hx0 Hx1] Hl IH]; simpl.
  - split; [by constructor|done].
  - pose proof (Qsum_bounds l Hl) as [Hs0 _].
    rewrite Forall_cons, <- IH. split.
    + intros H. split; lra.
    + intros [-> ->]. reflexivity.
Qed.

Lemma Qsum_eq_length (l : list Q) :
  Forall (fun x => 0 <= x <= 1)%Q l ->
  (Qsum l == Qnat (length l))%Q <-> Forall (fun x => x == 1)%Q l.
Proof.
  induction 1 as [|x l [Hx0 Hx1] Hl IH]; simpl.
  - split; [by constructor|done].
  - pose proof (Qsum_bounds l Hl) as [_ Hs1].
    rewrite Forall_cons, <- IH, Qnat_S. split.
    + intros H. split; lra.
    + intros [-> ->]. reflexivity.
Qed.

Lemma Forall_zip_with_iff {A B C : Type} (f : A -> B -> C) (S : C -> Prop)
  (l1 : list A) (l2 : list B) :
  length l1 = length l2 ->
  Forall S (zip_with f l1 l2) <-> Forall2 (fun a b => S (f a b)) l1 l2.
Proof.
  revert l2.
  induction l1 as [|a l1 IH]; intros [|b l2] Hlen; simpl in *; try discriminate.
  - split; intros _; constructor.
  - rewrite Forall_cons, Forall2_cons, IH by lia. done.
Qed.

Lemma Forall2_equiv {A B : Type} (R R' : A -> B -> Prop) (l1 : list A) (l2 : list B) :
  (forall a b, R a b <-> R' a b) -> Forall2 R l1 l2 <-> Forall2 R' l1 l2.
Proof.
  intros HR. split; intros H; eapply Forall2_impl; try exact H;
    intros a b; apply HR.
Qed.

Lemma Forall_zip_with_all {A B C : Type} (f : A -> B -> C) (S : C -> Prop)
  (l1 : list A) (l2 : list B) :
  (forall a b, S (f a b)) -> Forall S (zip_with f l1 l2).
Proof.
  intros HS. revert l2. induction l1 as [|a l1 IH]; intros [|b l2]; simpl;
    constructor; auto.
Qed.

(** The loop adds the reciprocal ranks of the remaining examples to its
    accumulator. *)
Lemma mrr_loop_sum (P : list (list Q)) (k : Z) (y_true : list nat) (i : nat) (acc : Q) :
  i + length y_true <= length P ->
  exists q, TrainXgboost.mrr_loop P k i y_true acc = Return q
            /\ (q == acc + Qsum (zip_with (reciprocal_rank k) y_true (drop i P)))%Q.
Proof.
  revert i acc. induction y_true as [|y ys IH]; intros i acc Hlen; simpl.
  - exists acc. split; [done|]. destruct (drop i P); simpl; lra.
  - simpl in Hlen.
    destruct (lookup_lt_is_Some_2 P i) as [row Hrow]; [lia|].
    rewrite (proj2 (getitem_Some P i row) Hrow). simpl.
    rewrite (drop_S _ _ _ Hrow). simpl. unfold reciprocal_rank at 1.
    destruct (TrainXgboost.position y (top_k_indices row k)) as [p|].
    + destruct (IH (S i) (acc + 1 / Qnat (p + 1))%Q) as (q & -> & Hq); [lia|].
      exists q. split; [done|]. rewrite Hq. replace (p + 1) with (S p) by lia. lra.
    + destruct (IH (S i) acc) as (q & -> & Hq); [lia|].
      exists q. split; [done|]. rewrite Hq. lra.
Qed.

Lemma calculate_mrr_mean (y_true : list nat) (P : list (list Q)) (k : Z) :
  y_true <> [] -> length y_true <= length P ->
  exists mrr, TrainXgboost.calculate_mrr y_true P k = Return mrr
              /\ (mrr == mean_reciprocal_rank k y_true P)%Q.
Proof.
  intros Hne Hlen. unfold TrainXgboost.calculate_mrr.
  destruct (mrr_loop_sum P k y_true 0 0%Q) as (s & -> & Hs); [lia|]. simpl.
  rewrite decide_False by (by destruct y_true).
  eexists. split; [done|]. unfold mean_reciprocal_rank.
  rewrite Hs, drop_0, Qplus_0_l. reflexivity.
Qed.

(** [C5] On a non-empty evaluation set with one probability row per label,
    [calculate_mrr] returns the mean over the examples of [1 / rank] when
    the true class is in the example's top-K list and of 0 otherwise; the
    value lies in [0, 1], is 0 exactly when no true class is in its
    example's top-K list, and is 1 exactly when every true class heads its
    example's top-K list. *)
Theorem C5_mrr_definition_and_bounds (y_true : list nat) (P : list (list Q)) (k : Z) :
  y_true <> [] -> length y_true = length P ->
  exists mrr,
    TrainXgboost.calculate_mrr y_true P k = Return mrr
    /\ (mrr == mean_reciprocal_rank k y_true P)%Q
    /\ (0 <= mrr <= 1)%Q
    /\ ((mrr == 0)%Q
        <-> Forall2 (fun y row => y ∉ top_k_indices row k) y_true P)
    /\ ((mrr == 1)%Q
        <-> Forall2 (fun y row => top_k_indices row k !! 0 = Some y) y_true P).
Proof.
  intros Hne Hlen.
  destruct (calculate_mrr_mean y_true P k Hne) as (mrr & Hmrr & Hmean); [lia|].
  exists mrr. split; [done|]. split; [done|].
  assert (0 < Qnat (length y_true))%Q as Hn.
  { destruct y_true; [done|]. apply Qnat_S_pos. }
  assert (Forall (fun x => 0 <= x <= 1)%Q (zip_with (reciprocal_rank k) y_true P))
    as Hrr.
  { apply Forall_zip_with_all. intros y row. apply reciprocal_rank_bounds. }
  assert (length (zip_with (reciprocal_rank k) y_true P) = length y_true) as Hzl.
  { rewrite length_zip_with. lia. }
  pose proof (Qsum_bounds _ Hrr) as Hsum. rewrite Hzl in Hsum.
  rewrite Hmean. unfold mean_reciprocal_rank. split; [|split].
  - by apply Qdiv_pos_bounds.
  - rewrite Qdiv_eq_0, Qsum_eq_0, Forall_zip_with_iff by done.
    apply Forall2_equiv. intros y row. apply reciprocal_rank_0.
  - rewrite Qdiv_eq_1 by done. rewrite <- Hzl at 1.
    rewrite Qsum_eq_length, Forall_zip_with_iff by done.
    apply Forall2_equiv. intros y row. apply reciprocal_rank_1.
Qed.

(** One example, row [0.1, 0.7, 0.2], true class 0, cutoff 3. *)
Lemma C5_mrr_definition_and_bounds_witness :
  exists mrr,
    TrainXgboost.calculate_mrr [0%nat] [[1 # 10; 7 # 10; 2 # 10]%Q] 3 = Return mrr
    /\ (mrr == mean_reciprocal_rank 3 [0%nat] [[1 # 10; 7 # 10; 2 # 10]%Q])%Q
    /\ (0 <= mrr <= 1)%Q
    /\ ((mrr == 0)%Q
        <-> Forall2 (fun y row => y ∉ top_k_indices row 3) [0%nat]
              [[1 # 10; 7 # 10; 2 # 10]%Q])
    /\ ((mrr == 1)%Q
        <-> Forall2 (fun y row => top_k_indices row 3 !! 0 = Some y) [0%nat]
              [[1 # 10; 7 # 10; 2 # 10]%Q]).
Proof.
  apply (C5_mrr_definition_and_bounds [0%nat] [[1 # 10; 7 # 10; 2 # 10]%Q] 3).
  - discriminate.
  - reflexivity.
Defined.

(** [C9] [calculate_mrr] has no guard in front of its final division by
    [len(y_true)]: on an empty label list that division raises
    [ZeroDivisionError], so no MRR value (in particular not 0) is
    returned; on a non-empty list with enough probability rows it returns
    the accumulated sum divided by the number of labels. *)
Theorem C9_mrr_division_is_unguarded (P : list (list Q)) (k : Z) :
  TrainXgboost.calculate_mrr [] P k = Raise ZeroDivisionError
  /\ (forall q, TrainXgboost.calculate_mrr [] P k <> Return q)
  /\ (forall y_true, y_true <> [] -> length y_true <= length P ->
        exists mrr, TrainXgboost.calculate_mrr y_true P k = Return mrr
                    /\ (mrr == Qsum (zip_with (reciprocal_rank k) y_true P)
                               / Qnat (length y_true))%Q).
Proof.
  split; [done|]. split; [done|].
  intros y_true Hne Hlen. by apply calculate_mrr_mean.
Qed.

Lemma C9_mrr_division_is_unguarded_witness :
  exists mrr,
    TrainXgboost.calculate_mrr [1%nat] [[1 # 10; 7 # 10; 2 # 10]%Q] 50 = Return mrr
    /\ (mrr == Qsum (zip_with (reciprocal_rank 50) [1%nat] [[1 # 10; 7 # 10; 2 # 10]%Q])
               / Qnat (length [1%nat]))%Q.
Proof.
  apply (proj2 (proj2 (C9_mrr_division_is_unguarded [[1 # 10; 7 # 10; 2 # 10]%Q] 50))).
  - discriminate.
  - simpl. lia.
Defined.

(** ** Top-1 accuracy *)

Lemma argmax_from_spec (pre l : list Q) (bi : nat) (b : Q) :
  pre !! bi = Some b ->
  (forall j v, pre !! j = Some v -> (v <= b)%Q) ->
  let m := argmax_from bi b (length pre) l in
  m < length (pre ++ l)
  /\ forall j v, (pre ++ l) !! j = Some v -> (v <= prob (pre ++ l) m)%Q.
Proof.
  revert pre bi b. induction l as [|x l IH]; intros pre bi b Hbi Hmax; simpl.
  - rewrite app_nil_r. split; [by eapply lookup_lt_Some|].
    intros j v Hj. rewrite (prob_lookup _ _ _ Hbi). by eapply Hmax.
  - replace (pre ++ x :: l) with ((pre ++ [x]) ++ l) by (by rewrite <- app_assoc).
    replace (S (length pre)) with (length (pre ++ [x]))
      by (rewrite length_app; simpl; lia).
    destruct (Qle_bool x b) eqn:E.
    + apply IH.
      * by apply lookup_app_l_Some.
      * intros j v Hj. apply lookup_app_Some in Hj as [Hj|[_ Hj]].
        -- by eapply Hmax.
        -- apply list_lookup_singleton_Some in Hj as [_ <-].
           by apply Qle_bool_iff.
    + apply Qle_bool_false in E. apply IH.
      * rewrite lookup_app_r by lia. by rewrite Nat.sub_diag.
      * intros j v Hj. apply lookup_app_Some in Hj as [Hj|[_ Hj]].
        -- apply Qlt_le_weak, Qle_lt_trans with b; [by eapply Hmax|done].
        -- apply list_lookup_singleton_Some in Hj as [_ <-]. apply Qle_refl.
Qed.

Lemma prob_lookup_lt (row : list Q) j :
  j < length row -> row !! j = Some (prob row j).
Proof.
  intros Hj. destruct (lookup_lt_is_Some_2 row j Hj) as [v Hv].
  by rewrite (prob_lookup _ _ _ Hv).
Qed.

(** [np.argmax] returns a class of maximal probability. *)
Lemma np_argmax_max (row : list Q) :
  row <> [] ->
  exists m, np_argmax row = Return m /\ m < length row
            /\ forall j, j < length row -> (prob row j <= prob row m)%Q.
Proof.
  destruct row as [|x l]; [done|]. intros _. simpl.
  destruct (argmax_from_spec [x] l 0 x) as [Hm Hmax]; [done| |].
  { intros [|j] v; simpl; [|done]. intros [= <-]. apply Qle_refl. }
  eexists. split; [done|]. split; [exact Hm|].
  intros j Hj. apply (Hmax j). by apply (prob_lookup_lt (x :: l)).
Qed.

(** The head of the extractor's ranking is a class of maximal probability. *)
Lemma top_1_max (row : list Q) :
  row <> [] ->
  exists m, top_k_indices row 1 = [m] /\ m < length row
            /\ forall j, j < length row -> (prob row j <= prob row m)%Q.
Proof.
  intros Hne.
  assert (top_k_indices row (Z.of_nat (length row)) = rev (np_argsort row)) as Hfull.
  { unfold top_k_indices. rewrite slice_to_nonneg by lia.
    apply take_ge. rewrite length_rev_argsort. lia. }
  destruct (rev (np_argsort row)) as [|m rest] eqn:E.
  { pose proof (length_rev_argsort row) as Hl. rewrite E in Hl.
    destruct row; [done|discriminate]. }
  exists m. split; [|split].
  - unfold top_k_indices. by rewrite E.
  - apply (top_k_indices_bound row (Z.of_nat (length row))). rewrite Hfull. left.
  - intros j Hj.
    assert (j ∈ m :: rest) as Hin.
    { rewrite <- E, <- Permutation_rev, np_argsort_perm. apply elem_of_seq. lia. }
    apply list_elem_of_lookup in Hin as [[|b] Hb].
    + injection Hb as ->. apply Qle_refl.
    + apply (top_k_indices_order row (Z.of_nat (length row)) 0 (S b) m j);
        [lia|by rewrite Hfull|by rewrite Hfull].
Qed.

Lemma unique_max_agree (row : list Q) :
  unique_max row ->
  exists m, np_argmax row = Return m /\ top_k_indices row 1 = [m].
Proof.
  intros (m & Hm & Huniq).
  assert (row <> []) as Hne by (destruct row; [simpl in Hm; lia|done]).
  assert (forall m', m' < length row ->
            (forall j, j < length row -> (prob row j <= prob row m')%Q) -> m' = m)
    as Honly.
  { intros m' Hm' Hmax. destruct (decide (m' = m)) as [|Hdiff]; [done|].
    pose proof (Huniq m' Hm' Hdiff) as Hlt. pose proof (Hmax m Hm) as Hle.
    destruct (Qlt_not_le _ _ Hlt Hle). }
  destruct (np_argmax_max row Hne) as (m1 & H1 & Hb1 & Hmax1).
  destruct (top_1_max row Hne) as (m2 & H2 & Hb2 & Hmax2).
  rewrite (Honly m1 Hb1 Hmax1) in H1. rewrite (Honly m2 Hb2 Hmax2) in H2.
  by exists m.
Qed.

Lemma unique_max_hits (y : nat) (row : list Q) :
  unique_max row -> argmax_hit y row = top1_hit y row.
Proof.
  intros Hu. destruct (unique_max_agree row Hu) as (m & Ha & Ht).
  unfold argmax_hit, top1_hit. rewrite Ha, Ht.
  apply bool_decide_ext. rewrite list_elem_of_singleton. naive_solver.
Qed.

Lemma for_each_Forall2 {A B : Type} (f : A -> result B) (l : list A) (ys : list B) :
  for_each f l = Return ys -> Forall2 (fun x y => f x = Return y) l ys.
Proof.
  revert ys. induction l as [|x l IH]; intros ys; simpl.
  - intros [= <-]. constructor.
  - destruct (f x) eqn:Ex; [done|]. destruct (for_each f l); [done|].
    intros [= <-]. constructor; [done|]. by apply IH.
Qed.

Lemma argmax_hits_length (y_true : list nat) (P : list (list Q)) (y_pred : list nat) :
  Forall2 (fun row m => np_argmax row = Return m) P y_pred ->
  length (List.filter (fun p => bool_decide (fst p = snd p)) (zip y_true y_pred))
  = length (List.filter (fun p => argmax_hit (fst p) (snd p)) (zip y_true P)).
Proof.
  intros H. revert y_true. induction H as [|row m P y_pred Hm _ IH]; intros y_true.
  - by destruct y_true.
  - destruct y_true as [|y y_true]; [done|]. simpl.
    unfold argmax_hit at 1. rewrite Hm.
    rewrite (bool_decide_ext (y = m) (m = y)) by naive_solver.
    destruct (bool_decide (m = y)); simpl; by rewrite IH.
Qed.

(** [C6, amended] On a non-empty evaluation set with one non-empty
    probability row per label, the ["Top-1"] entry of [evaluate_topk] is
    the fraction of examples whose true class is [np.argmax] of their row
    (the first class of maximal probability).  It coincides with
    membership of the true class in the extractor's top-1 list when every
    row attains its maximum at a single class. *)
Theorem C6_top1_is_argmax_accuracy
  (top_k_accuracy_score : list nat -> list (list Q) -> Z -> result Q)
  (y_true : list nat) (P : list (list Q)) :
  y_true <> [] -> length y_true = length P -> Forall (fun row => row <> []) P ->
  exists acc,
    TrainXgboost.evaluate_topk top_k_accuracy_score y_true P [1%Z]
    = Return {[ "Top-1" := acc ]}
    /\ (acc == fraction argmax_hit y_true P)%Q
    /\ (Forall unique_max P -> (acc == fraction top1_hit y_true P)%Q).
Proof.
  intros Hne Hlen Hrows.
  unfold TrainXgboost.evaluate_topk, TrainXgboost.evaluate_loop.
  rewrite decide_True by done.
  destruct (for_each_Return np_argmax P) as [y_pred Hpred].
  { eapply Forall_impl; [exact Hrows|]. intros row Hrow.
    destruct (np_argmax_max row Hrow) as (m & Hm & _). by exists m. }
  rewrite Hpred. simpl. unfold TrainXgboost.accuracy_score.
  rewrite decide_True.
  2:{ split; [|done]. rewrite (for_each_length _ _ _ Hpred). done. }
  simpl. eexists. split; [by rewrite insert_empty|].
  apply for_each_Forall2 in Hpred.
  rewrite (argmax_hits_length y_true P y_pred Hpred). split; [reflexivity|].
  intros Huniq. unfold fraction.
  rewrite (filter_ext_in (fun p => argmax_hit (fst p) (snd p))
             (fun p => top1_hit (fst p) (snd p))); [reflexivity|].
  intros [y row] Hin. simpl. apply unique_max_hits.
  rewrite Forall_forall in Huniq. apply Huniq.
  apply list_elem_of_In. by apply in_combine_r in Hin.
Qed.

(** The scenario row [0.1, 0.7, 0.2] with true class 1. *)
Lemma C6_top1_is_argmax_accuracy_witness :
  exists acc,
    TrainXgboost.evaluate_topk Scenario.top_k_accuracy_stub [1%nat]
      [[1 # 10; 7 # 10; 2 # 10]%Q] [1%Z]
    = Return {[ "Top-1" := acc ]}
    /\ (acc == fraction argmax_hit [1%nat] [[1 # 10; 7 # 10; 2 # 10]%Q])%Q
    /\ (acc == fraction top1_hit [1%nat] [[1 # 10; 7 # 10; 2 # 10]%Q])%Q.
Proof.
  destruct (C6_top1_is_argmax_accuracy Scenario.top_k_accuracy_stub [1%nat]
              [[1 # 10; 7 # 10; 2 # 10]%Q]) as (acc & Hacc & Harg & Htop).
  - discriminate.
  - reflexivity.
  - repeat constructor. discriminate.
  - exists acc. split; [exact Hacc|]. split; [exact Harg|]. apply Htop.
    repeat constructor. exists 1. split; [simpl; lia|].
    intros [|[|[|j]]] Hj Hne; simpl in Hj; try lia; reflexivity.
Defined.

(** [C6] as stated fails on a tied row: with probabilities [0.5, 0.5] and
    true class 0, [np.argmax] picks class 0 and the top-1 accuracy is 1,
    while the extractor's top-1 list is [1] and does not contain the true
    class. *)
Lemma C6_tied_row_disagrees :
  TrainXgboost.evaluate_topk Scenario.top_k_accuracy_stub [0%nat] [[1 # 2; 1 # 2]%Q] [1%Z]
  = Return {[ "Top-1" := 1%Q ]}
  /\ np_argmax [1 # 2; 1 # 2]%Q = Return 0
  /\ top_k_indices [1 # 2; 1 # 2]%Q 1 = [1]
  /\ ~ (1 == fraction top1_hit [0%nat] [[1 # 2; 1 # 2]%Q])%Q.
Proof.
  split; [vm_compute; reflexivity|]. split; [reflexivity|]. split; [reflexivity|].
  vm_compute. discriminate.
Qed.

(** ** Feature-importance explainability *)

Lemma sort_insert_perm x l : Backend.sort_insert x l ≡ₚ x :: l.
Proof.
  induction l as [|y l IH]; simpl; [done|].
  destruct (Qle_bool _ _); [done|]. rewrite IH. apply Permutation_swap.
Qed.

Lemma sort_by_importance_perm l : Backend.sort_by_importance l ≡ₚ l.
Proof.
  induction l as [|x l IH]; simpl; [done|]. by rewrite sort_insert_perm, IH.
Qed.

Lemma sort_insert_sorted x l :
  StronglySorted by_importance l -> StronglySorted by_importance (Backend.sort_insert x l).
Proof.
  induction 1 as [|y l Hl IH Hy]; simpl.
  - repeat constructor.
  - destruct (Qle_bool _ _) eqn:E.
    + apply Qle_bool_iff in E.
      constructor; [by constructor|]. constructor; [exact E|].
      eapply Forall_impl; [exact Hy|]. intros z Hz. unfold by_importance in *.
      by apply Qle_trans with (Backend.scored_importance y).
    + apply Qle_bool_false in E. constructor; [done|].
      rewrite sort_insert_perm. constructor; [|done].
      by apply Qlt_le_weak.
Qed.

Lemma sort_by_importance_sorted l :
  StronglySorted by_importance (Backend.sort_by_importance l).
Proof.
  induction l as [|x l IH]; simpl; [constructor|]. by apply sort_insert_sorted.
Qed.

Lemma list_max_head (x : Q) (l : list Q) :
  Forall (fun y => y <= x)%Q l -> (Backend.list_max x l == x)%Q.
Proof.
  unfold Backend.list_max.
  assert (forall acc, (acc == x)%Q -> Forall (fun y => y <= x)%Q l ->
                      (foldl Qmax acc l == x)%Q) as H.
  { induction l as [|y l IH]; intros acc Hacc Hl; simpl; [done|].
    apply Forall_cons in Hl as [Hy Hl]. apply IH; [|done].
    rewrite Hacc. by apply Q.max_l. }
  apply H. reflexivity.
Qed.

Lemma collect_importance_Return dict (X : columns) i cols :
  Forall (fun col => is_Return (get_col col X)) cols ->
  is_Return (Backend.collect_importance dict X i cols).
Proof.
  intros H. revert i. induction H as [|col cols [v Hv] _ IH]; intros i; simpl.
  - by eexists.
  - destruct (IH (S i)) as [rest Hrest]. rewrite Hv, Hrest. simpl.
    destruct (negb _); by eexists.
Qed.

Lemma collect_importance_positive dict (X : columns) i cols entries :
  Backend.collect_importance dict X i cols = Return entries ->
  Forall (fun e => 0 < Backend.scored_importance e)%Q entries.
Proof.
  revert i entries. induction cols as [|col cols IH]; intros i entries; simpl.
  - intros [= <-]. constructor.
  - destruct (negb _) eqn:E.
    + destruct (get_col col X); [done|]. simpl.
      destruct (Backend.collect_importance dict X (S i) cols) eqn:Er; [done|].
      simpl. intros [= <-]. constructor; [|by eapply IH].
      simpl. apply negb_true_iff in E. by apply Qle_bool_false.
    + apply IH.
Qed.

Lemma collect_importance_contains dict (X : columns) i cols entries j col :
  Backend.collect_importance dict X i cols = Return entries ->
  cols !! j = Some col ->
  (0 < default 0 (dict !! ("f" ++ pretty (i + j)%nat)%string))%Q ->
  exists e, e ∈ entries /\ Backend.scored_feature e = col.
Proof.
  revert i j entries. induction cols as [|c cols IH]; intros i j entries; simpl; [done|].
  intros Hc Hj Hpos.
  assert (forall rest, Backend.collect_importance dict X (S i) cols = Return rest ->
            j <> 0 -> exists e, e ∈ rest /\ Backend.scored_feature e = col) as Hrest.
  { intros rest Hr Hne. destruct j as [|j]; [done|]. simpl in Hj.
    apply (IH (S i) j rest Hr Hj). by replace (S i + j) with (i + S j) by lia. }
  destruct (negb _) eqn:E.
  - destruct (get_col c X); [done|]. simpl in Hc.
    destruct (Backend.collect_importance dict X (S i) cols) as [|rest] eqn:Er; [done|].
    simpl in Hc. injection Hc as <-. destruct (decide (j = 0)) as [->|Hne].
    + simpl in Hj. injection Hj as ->. eexists. split; [left|done].
    + destruct (Hrest rest eq_refl Hne) as (e & He & Hf).
      exists e. split; [by right|done].
  - destruct (decide (j = 0)) as [->|Hne].
    + rewrite Nat.add_0_r in Hpos. apply negb_false_iff, Qle_bool_iff in E.
      destruct (Qlt_not_le _ _ Hpos E).
    + by apply Hrest.
Qed.

Lemma bucket_one (v : Q) : (v == 1)%Q -> Backend.bucket v = Backend.high.
Proof.
  intros Hv. unfold Backend.bucket.
  destruct (Qle_bool v (7 # 10)) eqn:E; [|done].
  apply Qle_bool_iff in E. rewrite Hv in E. by vm_compute in E.
Qed.

Lemma selected_features_facts (entries : list Backend.Scored) (top_n : Z) :
  Forall (fun e => 0 < Backend.scored_importance e)%Q entries ->
  let top := slice_to top_n (Backend.sort_by_importance entries) in
  StronglySorted by_importance top
  /\ Forall (fun e => 0 < Backend.scored_importance e)%Q top
  /\ ((1 <= top_n)%Z -> entries <> [] -> top <> []).
Proof.
  intros Hpos top. split; [|split].
  - apply slice_to_sorted, sort_by_importance_sorted.
  - subst top. destruct (slice_to_prefix top_n (Backend.sort_by_importance entries))
      as [n ->]. apply Forall_take. by rewrite sort_by_importance_perm.
  - intros Hn Hne. subst top. rewrite slice_to_nonneg by lia.
    destruct (Backend.sort_by_importance entries) as [|x l] eqn:E.
    + pose proof (sort_by_importance_perm entries) as Hp. rewrite E in Hp.
      apply Permutation_nil in Hp. done.
    + replace (Z.to_nat top_n) with (S (Z.to_nat (top_n - 1))) by lia. done.
Qed.

(** [C10] Whenever every feature column has a value, the explainability
    list is the selected top-N features (positive raw importance, sorted
    by it, cut to [top_n]) with each raw importance divided by the maximum
    raw importance among them.  Hence every returned importance lies in
    (0, 1], the first returned feature has importance 1 and bucket
    ["high"], and the list is non-empty as soon as [top_n >= 1] and some
    feature has positive raw importance. *)
Theorem C10_normalized_importance (g : Backend.Globals) (m : Model) (X : columns)
  (top_n : Z) :
  Forall (fun col => is_Return (get_col col X)) (Backend.feature_columns g) ->
  exists (top : list Backend.Scored) (mx : Q) (res : list Backend.FeatureImportance),
    Backend.get_feature_importance g m X top_n = Return res
    /\ res = map (fun s => {| Backend.feature := Backend.scored_feature s;
                              Backend.importance := (Backend.scored_importance s / mx)%Q;
                              Backend.value := Backend.scored_value s;
                              Backend.impact :=
                                Backend.bucket (Backend.scored_importance s / mx)%Q |})
                   top
    /\ Forall (fun s => 0 < Backend.scored_importance s <= mx)%Q top
    /\ (forall s rest, top = s :: rest -> (Backend.scored_importance s == mx)%Q)
    /\ Forall (fun f => 0 < Backend.importance f <= 1)%Q res
    /\ (forall f rest, res = f :: rest ->
          (Backend.importance f == 1)%Q /\ Backend.impact f = Backend.high)
    /\ ((1 <= top_n)%Z ->
        (exists i col, Backend.feature_columns g !! i = Some col
                       /\ (0 < default 0 (get_score m !! ("f" ++ pretty i)%string))%Q) ->
        res <> []).
Proof.
  intros HX. unfold Backend.get_feature_importance.
  destruct (collect_importance_Return (get_score m) X 0 _ HX) as [entries Hentries].
  rewrite Hentries. simpl.
  pose proof (collect_importance_positive _ _ _ _ _ Hentries) as Hpos.
  destruct (selected_features_facts entries top_n Hpos) as (Hsorted & Htoppos & Hnonempty).
  set (top := slice_to top_n (Backend.sort_by_importance entries)) in *.
  set (mx := match map Backend.scored_importance top with
             | [] => 1%Q
             | x :: l => Backend.list_max x l
             end).
  assert (Forall (fun s => 0 < Backend.scored_importance s <= mx)%Q top
          /\ forall s rest, top = s :: rest -> (Backend.scored_importance s == mx)%Q)
    as [Hbound Hhead].
  { subst mx. destruct top as [|s rest] eqn:Etop; [split; [constructor|done]|].
    simpl. apply StronglySorted_cons in Hsorted as [Hs _].
    assert (Backend.list_max (Backend.scored_importance s)
              (map Backend.scored_importance rest)
            == Backend.scored_importance s)%Q as Hmax.
    { apply list_max_head. apply Forall_forall. intros q Hq.
      apply list_elem_of_In, in_map_iff in Hq as (e & <- & He).
      rewrite Forall_forall in Hs. apply Hs. by apply list_elem_of_In. }
    split.
    - apply Forall_forall. intros e He. rewrite Hmax. split.
      + rewrite Forall_forall in Htoppos. by apply Htoppos.
      + apply elem_of_cons in He as [->|He]; [apply Qle_refl|].
        rewrite Forall_forall in Hs. by apply Hs.
    - intros s' rest' [= <- <-]. by rewrite Hmax. }
  assert (forall s, s ∈ top -> 0 < mx)%Q as Hmxpos.
  { intros s Hs. rewrite Forall_forall in Hbound. destruct (Hbound s Hs) as [H0 H1].
    by apply Qlt_le_trans with (Backend.scored_importance s). }
  exists top, mx. eexists. split; [reflexivity|]. split; [reflexivity|].
  split; [exact Hbound|]. split; [exact Hhead|]. split; [|split].
  - apply Forall_forall. intros f Hf.
    apply list_elem_of_In, in_map_iff in Hf as (s & <- & Hs). simpl.
    apply list_elem_of_In in Hs. pose proof (Hmxpos s Hs) as Hmx.
    rewrite Forall_forall in Hbound. destruct (Hbound s Hs) as [H0 H1]. split.
    + apply Qlt_shift_div_l; [done|]. by rewrite Qmult_0_l.
    + apply Qle_shift_div_r; [done|]. by rewrite Qmult_1_l.
  - intros f rest Hres. destruct top as [|s top'] eqn:Etop; [done|].
    simpl in Hres. injection Hres as <- _. simpl.
    assert (Backend.scored_importance s / mx == 1)%Q as H1.
    { apply Qdiv_eq_1; [apply (Hmxpos s); left|]. by apply (Hhead s top'). }
    split; [exact H1|]. by apply bucket_one.
  - intros Hn (i & col & Hcol & Himp) Hres.
    destruct (collect_importance_contains _ _ _ _ _ i col Hentries Hcol Himp)
      as (e & He & _).
    apply Hnonempty in Hn; [|by intros ->; apply elem_of_nil in He].
    destruct top; [done|discriminate].
Qed.

(** The service's explainability block for [request_a] with [top_n = 5]. *)
Lemma C10_normalized_importance_witness :
  exists (top : list Backend.Scored) (mx : Q) (res : list Backend.FeatureImportance),
    Backend.get_feature_importance Scenario.deployed Scenario.model
      Scenario.features_a 5 = Return res
    /\ res = map (fun s => {| Backend.feature := Backend.scored_feature s;
                              Backend.importance := (Backend.scored_importance s / mx)%Q;
                              Backend.value := Backend.scored_value s;
                              Backend.impact :=
                                Backend.bucket (Backend.scored_importance s / mx)%Q |})
                   top
    /\ Forall (fun s => 0 < Backend.scored_importance s <= mx)%Q top
    /\ (forall s rest, top = s :: rest -> (Backend.scored_importance s == mx)%Q)
    /\ Forall (fun f => 0 < Backend.importance f <= 1)%Q res
    /\ (forall f rest, res = f :: rest ->
          (Backend.importance f == 1)%Q /\ Backend.impact f = Backend.high)
    /\ ((1 <= 5)%Z ->
        (exists i col, Backend.feature_columns Scenario.deployed !! i = Some col
                       /\ (0 < default 0 (get_score Scenario.model
                                            !! ("f" ++ pretty i)%string))%Q) ->
        res <> []).
Proof.
  apply (C10_normalized_importance Scenario.deployed Scenario.model
           Scenario.features_a 5).
  vm_compute. repeat (constructor; [eexists; reflexivity|]). constructor.
Defined.

(** * Further properties of the embedded code *)

(** ** The top-K expression [np.argsort(row)[::-1][:k]] *)

Lemma full_ranking (row : list Q) :
  top_k_indices row (Z.of_nat (length row)) = rev (np_argsort row).
Proof.
  unfold top_k_indices. rewrite slice_to_nonneg by lia.
  apply take_ge. rewrite length_rev_argsort. lia.
Qed.

Lemma full_ranking_order (row : list Q) a b i j :
  a < b -> rev (np_argsort row) !! a = Some i -> rev (np_argsort row) !! b = Some j ->
  (prob row j <= prob row i)%Q.
Proof.
  intros Hab Ha Hb. rewrite <- full_ranking in Ha, Hb.
  by destruct (top_k_indices_order row _ a b i j Hab Ha Hb).
Qed.

(** [X1] Whatever the sign of [k], the extracted candidates are distinct valid
    class indices, and no class that is left out is more probable than a
    class that is kept. *)
Theorem top_k_indices_keeps_the_most_probable (row : list Q) (k : Z) :
  NoDup (top_k_indices row k)
  /\ (forall i, i ∈ top_k_indices row k -> i < length row)
  /\ (forall i j, i ∈ top_k_indices row k -> j < length row ->
        j ∉ top_k_indices row k -> (prob row j <= prob row i)%Q).
Proof.
  split; [apply top_k_indices_NoDup|]. split; [apply top_k_indices_bound|].
  intros i j Hi Hj Hout.
  destruct (top_k_indices_prefix row k) as [n Hn]. rewrite Hn in Hi, Hout.
  apply elem_of_take in Hi as (a & Ha & Han).
  assert (j ∈ rev (np_argsort row)) as Hin.
  { rewrite <- Permutation_rev, np_argsort_perm. apply elem_of_seq. lia. }
  apply list_elem_of_lookup in Hin as [b Hb].
  destruct (decide (b < n)) as [Hlt|Hge].
  { destruct Hout. apply elem_of_take. eauto. }
  apply (full_ranking_order row a b i j); [lia|done|done].
Qed.

Lemma top_k_indices_keeps_the_most_probable_witness :
  (prob [1 # 10; 7 # 10; 2 # 10] 0 <= prob [1 # 10; 7 # 10; 2 # 10] 1)%Q.
Proof.
  apply (proj2 (proj2 (top_k_indices_keeps_the_most_probable
                         [1 # 10; 7 # 10; 2 # 10]%Q 2)) 1 0).
  - apply list_elem_of_In. simpl. tauto.
  - simpl. lia.
  - intros H. apply list_elem_of_In in H. simpl in H.
    destruct H as [H|[H|[]]]; discriminate.
Defined.

Lemma top_k_indices_prefix_mono (row : list Q) (k k' : Z) :
  (0 <= k <= k')%Z -> top_k_indices row k `prefix_of` top_k_indices row k'.
Proof.
  intros Hk. unfold top_k_indices. rewrite !slice_to_nonneg by lia.
  replace (Z.to_nat k) with (Nat.min (Z.to_nat k) (Z.to_nat k')) by lia.
  rewrite <- take_take. apply prefix_take.
Qed.

(** [X2] A smaller non-negative cutoff yields a prefix of the ranking of a
    larger one, and a cutoff of at least the number of classes ranks every
    class exactly once. *)
Theorem top_k_indices_nested (row : list Q) (k k' : Z) :
  (0 <= k <= k')%Z ->
  top_k_indices row k `prefix_of` top_k_indices row k'
  /\ ((Z.of_nat (length row) <= k')%Z -> top_k_indices row k' ≡ₚ seq 0 (length row)).
Proof.
  intros Hk. split; [by apply top_k_indices_prefix_mono|].
  intros Hn. unfold top_k_indices. rewrite slice_to_nonneg by lia.
  rewrite take_ge by (rewrite length_rev_argsort; lia).
  by rewrite <- Permutation_rev, np_argsort_perm.
Qed.

Lemma top_k_indices_nested_witness :
  top_k_indices [1 # 10; 7 # 10; 2 # 10]%Q 1
    `prefix_of` top_k_indices [1 # 10; 7 # 10; 2 # 10]%Q 5
  /\ top_k_indices [1 # 10; 7 # 10; 2 # 10]%Q 5 ≡ₚ seq 0 3.
Proof.
  destruct (top_k_indices_nested [1 # 10; 7 # 10; 2 # 10]%Q 1 5 ltac:(lia))
    as [Hpre Hall].
  split; [exact Hpre|]. apply Hall. simpl. lia.
Defined.

(** ** [calculate_mrr]: rows it reads, and the cutoff *)

Lemma mrr_loop_short (P : list (list Q)) (k : Z) (y_true : list nat) (i : nat) (acc : Q) :
  (i <= length P < i + length y_true)%nat ->
  TrainXgboost.mrr_loop P k i y_true acc = Raise IndexError.
Proof.
  revert i acc. induction y_true as [|y ys IH]; intros i acc Hlen; simpl in *; [lia|].
  unfold getitem. destruct (P !! i) as [row|] eqn:Hrow; [|done]. simpl.
  apply lookup_lt_Some in Hrow.
  destruct (TrainXgboost.position _ _); apply IH; lia.
Qed.

Lemma mrr_loop_take (P : list (list Q)) (k : Z) (y_true : list nat) (i n : nat) (acc : Q) :
  (i + length y_true <= n)%nat ->
  TrainXgboost.mrr_loop (take n P) k i y_true acc = TrainXgboost.mrr_loop P k i y_true acc.
Proof.
  revert i acc. induction y_true as [|y ys IH]; intros i acc Hlen; simpl in *; [done|].
  unfold getitem. rewrite lookup_take_lt by lia.
  destruct (P !! i) as [row|]; [|done]. simpl.
  destruct (TrainXgboost.position _ _); apply IH; lia.
Qed.

(** [X3] [calculate_mrr] reads exactly the first [len(y_true)] probability rows:
    surplus rows are ignored, and with fewer rows than labels the lookup
    [y_pred_proba[i]] raises [IndexError]. *)
Theorem calculate_mrr_rows (y_true : list nat) (P : list (list Q)) (k : Z) :
  TrainXgboost.calculate_mrr y_true (take (length y_true) P) k
  = TrainXgboost.calculate_mrr y_true P k
  /\ (length P < length y_true ->
      TrainXgboost.calculate_mrr y_true P k = Raise IndexError).
Proof.
  unfold TrainXgboost.calculate_mrr. split.
  - by rewrite mrr_loop_take by lia.
  - intros Hlen. by rewrite mrr_loop_short by lia.
Qed.

Lemma calculate_mrr_rows_witness :
  TrainXgboost.calculate_mrr [1%nat; 0%nat] [[1 # 10; 7 # 10; 2 # 10]%Q] 3
  = Raise IndexError.
Proof.
  apply (proj2 (calculate_mrr_rows [1%nat; 0%nat] [[1 # 10; 7 # 10; 2 # 10]%Q] 3)).
  simpl. lia.
Defined.

Lemma position_app_l x l1 l2 p :
  TrainXgboost.position x l1 = Some p -> TrainXgboost.position x (l1 ++ l2) = Some p.
Proof.
  revert p. induction l1 as [|y l1 IH]; intros p; simpl; [done|].
  destruct (decide (y = x)); [done|].
  destruct (TrainXgboost.position x l1) as [q|]; [|done].
  intros [= <-]. by rewrite (IH q).
Qed.

Lemma reciprocal_rank_mono (k k' : Z) (y : nat) (row : list Q) :
  (0 <= k <= k')%Z -> (reciprocal_rank k y row <= reciprocal_rank k' y row)%Q.
Proof.
  intros Hk. destruct (top_k_indices_prefix_mono row k k' Hk) as [rest Hpre].
  unfold reciprocal_rank at 1.
  destruct (TrainXgboost.position y (top_k_indices row k)) as [p|] eqn:E.
  - unfold reciprocal_rank. rewrite Hpre, (position_app_l _ _ _ _ E). apply Qle_refl.
  - apply reciprocal_rank_bounds.
Qed.

Lemma Qsum_zip_with_mono {A B : Type} (f g : A -> B -> Q) (l1 : list A) (l2 : list B) :
  (forall a b, f a b <= g a b)%Q ->
  (Qsum (zip_with f l1 l2) <= Qsum (zip_with g l1 l2))%Q.
Proof.
  intros Hfg. revert l2. induction l1 as [|a l1 IH]; intros [|b l2]; simpl;
    try apply Qle_refl.
  apply Qplus_le_compat; [apply Hfg|apply IH].
Qed.

(** [X4] Raising the cutoff never lowers the MRR: on the same non-empty
    evaluation set, [MRR@k <= MRR@k'] whenever [0 <= k <= k']. *)
Theorem calculate_mrr_monotone_in_cutoff (y_true : list nat) (P : list (list Q))
  (k k' : Z) :
  y_true <> [] -> length y_true <= length P -> (0 <= k <= k')%Z ->
  exists mrr mrr',
    TrainXgboost.calculate_mrr y_true P k = Return mrr
    /\ TrainXgboost.calculate_mrr y_true P k' = Return mrr'
    /\ (mrr <= mrr')%Q.
Proof.
  intros Hne Hlen Hk.
  destruct (calculate_mrr_mean y_true P k Hne Hlen) as (m & Hm & Hmv).
  destruct (calculate_mrr_mean y_true P k' Hne Hlen) as (m' & Hm' & Hmv').
  exists m, m'. split; [done|]. split; [done|].
  rewrite Hmv, Hmv'. unfold mean_reciprocal_rank.
  assert (0 < Qnat (length y_true))%Q as Hn.
  { destruct y_true; [done|]. apply Qnat_S_pos. }
  apply Qmult_le_compat_r.
  - apply Qsum_zip_with_mono. intros y row. by apply reciprocal_rank_mono.
  - apply Qlt_le_weak, Qinv_lt_0_compat, Hn.
Qed.

Lemma calculate_mrr_monotone_in_cutoff_witness :
  exists mrr mrr',
    TrainXgboost.calculate_mrr [0%nat] [[1 # 10; 7 # 10; 2 # 10]%Q] 1 = Return mrr
    /\ TrainXgboost.calculate_mrr [0%nat] [[1 # 10; 7 # 10; 2 # 10]%Q] 3 = Return mrr'
    /\ (mrr <= mrr')%Q.
Proof.
  apply (calculate_mrr_monotone_in_cutoff [0%nat] [[1 # 10; 7 # 10; 2 # 10]%Q] 1 3).
  - discriminate.
  - simpl. lia.
  - lia.
Defined.

(** ** Data-frame columns *)

Lemma get_col_set_col_eq name v (cols : columns) :
  get_col name (set_col name v cols) = Return v.
Proof.
  induction cols as [|[n w] cols IH]; simpl.
  - by rewrite decide_True.
  - destruct (decide (n = name)) as [->|Hne]; simpl.
    + by rewrite decide_True.
    + by rewrite decide_False.
Qed.

Lemma get_col_set_col_ne name name' v (cols : columns) :
  name' <> name -> get_col name (set_col name' v cols) = get_col name cols.
Proof.
  intros Hne. induction cols as [|[n w] cols IH]; simpl.
  - by rewrite decide_False.
  - destruct (decide (n = name')) as [->|Hne']; simpl.
    + by rewrite !decide_False.
    + destruct (decide (n = name)); [done|]. apply IH.
Qed.

Lemma get_col_Return_iff name (cols : columns) :
  is_Return (get_col name cols) <-> name ∈ map fst cols.
Proof.
  induction cols as [|[n w] cols IH]; simpl.
  - split; [by intros [v Hv]|intros H; by apply elem_of_nil in H].
  - destruct (decide (n = name)) as [->|Hne].
    + split; [intros _; left|intros _; by eexists].
    + rewrite IH, elem_of_cons. naive_solver.
Qed.

Lemma get_col_error name (cols : columns) e :
  get_col name cols = Raise e -> e = KeyError.
Proof.
  induction cols as [|[n w] cols IH]; simpl; [by intros [= <-]|].
  destruct (decide (n = name)); [done|]. apply IH.
Qed.

Lemma get_col_app name (c1 c2 : columns) :
  get_col name (c1 ++ c2)
  = match get_col name c1 with Return v => Return v | Raise _ => get_col name c2 end.
Proof.
  induction c1 as [|[n w] c1 IH]; simpl; [done|].
  destruct (decide (n = name)); [done|]. apply IH.
Qed.

(** ** The training frame *)

Lemma engineer_features_rows fsqrt guard_top_country (raw : list Circuit) :
  fst (PrepareFeatures.engineer_features fsqrt guard_top_country raw)
  = map (fun c => (c, training_row fsqrt guard_top_country raw c)) raw.
Proof.
  unfold PrepareFeatures.engineer_features, PrepareFeatures.encode_column.
  cbn [foldl categorical_cols fst snd].
  rewrite (assign_map _ _ (fun _ => [])). rewrite !assign_map.
  cbn [fst]. apply map_ext. intros c. reflexivity.
Qed.

Lemma training_frame_lookup fsqrt guard_top_country (raw : list Circuit) i c cols :
  fst (PrepareFeatures.engineer_features fsqrt guard_top_country raw) !! i = Some (c, cols)
  <-> raw !! i = Some c /\ cols = training_row fsqrt guard_top_country raw c.
Proof.
  rewrite engineer_features_rows, lookup_map.
  destruct (raw !! i) as [c'|]; simpl; naive_solver.
Qed.

(** [X5] Whatever the corpus, the training frame keeps the circuits in order,
    every row gets the same twenty-seven new columns, and the feature list
    [train_xgboost.py] derives from any row is the same thirty-one names:
    the target [guard_label] and the identifier columns are excluded, and
    selecting them from the row yields a vector of thirty-one numbers. *)
Theorem training_frame_schema fsqrt guard_top_country (raw : list Circuit) :
  map fst (fst (PrepareFeatures.engineer_features fsqrt guard_top_country raw)) = raw
  /\ forall r,
       r ∈ fst (PrepareFeatures.engineer_features fsqrt guard_top_country raw) ->
       map fst (snd r) = training_names
       /\ TrainXgboost.feature_cols r = model_feature_names
       /\ ("guard_label" ∉ TrainXgboost.feature_cols r)
       /\ (exists x, select_features (TrainXgboost.feature_cols r) r = Return x
                     /\ length x = 31).
Proof.
  rewrite engineer_features_rows. split.
  - rewrite map_map. simpl. apply map_id.
  - intros r Hr. apply list_elem_of_In, in_map_iff in Hr as (c & <- & _).
    split; [reflexivity|]. split; [reflexivity|]. split.
    + change (TrainXgboost.feature_cols
                (c, training_row fsqrt guard_top_country raw c))
        with model_feature_names.
      intros H. apply list_elem_of_In in H. simpl in H.
      repeat (destruct H as [H|H]; [discriminate|]). done.
    + eexists. split; reflexivity.
Qed.

Lemma training_frame_schema_witness :
  exists x,
    select_features
      (TrainXgboost.feature_cols
         (Scenario.circuit_a,
          training_row Scenario.sqrt_stub Scenario.top_country_stub Scenario.corpus
            Scenario.circuit_a))
      (Scenario.circuit_a,
       training_row Scenario.sqrt_stub Scenario.top_country_stub Scenario.corpus
         Scenario.circuit_a)
    = Return x
    /\ length x = 31.
Proof.
  assert ((Scenario.circuit_a,
           training_row Scenario.sqrt_stub Scenario.top_country_stub Scenario.corpus
             Scenario.circuit_a)
          ∈ fst (PrepareFeatures.engineer_features Scenario.sqrt_stub
                   Scenario.top_country_stub Scenario.corpus)) as Hmem.
  { rewrite engineer_features_rows. apply list_elem_of_In. simpl. tauto. }
  exact (proj2 (proj2 (proj2 (proj2 (training_frame_schema Scenario.sqrt_stub
                                       Scenario.top_country_stub Scenario.corpus)
                                     _ Hmem)))).
Defined.

Lemma code_fit (y : list string) (v : string) :
  v ∈ y ->
  exists n, PrepareFeatures.code (LabelEncoder.fit y) v = Qnat n
            /\ LabelEncoder.classes_ (LabelEncoder.fit y) !! n = Some v.
Proof.
  intros Hv. unfold PrepareFeatures.code.
  destruct (LabelEncoder.index_of v (LabelEncoder.classes_ (LabelEncoder.fit y)))
    as [n|] eqn:E.
  - exists n. split; [done|]. by apply index_of_Some.
  - apply index_of_None in E. destruct E. by apply elem_of_np_unique.
Qed.

Lemma training_row_encoded fsqrt guard_top_country raw c col get name :
  (col, get, name) ∈ encoded_columns ->
  get_col name (training_row fsqrt guard_top_country raw c)
  = Return (PrepareFeatures.code (LabelEncoder.fit (map get raw)) (get c)).
Proof.
  intros H. unfold encoded_columns in H.
  repeat (apply elem_of_cons in H as [[= -> -> ->]|H]); try reflexivity.
  by apply elem_of_nil in H.
Qed.

(** [X6] Each label-encoded column of the training frame (the five categorical
    features and the target [guard_label]) holds, in every row, a class
    index below the number [N] of fitted classes that decodes to the
    row's raw value, so the unreachable [-1] never appears; every index
    below [N] occurs in some row; and two rows carry the same code exactly
    when they carry the same raw value. *)
Theorem training_codes_are_class_indices fsqrt guard_top_country (raw : list Circuit)
  (col : string) (get : Circuit -> string) (name : string) :
  (col, get, name) ∈ encoded_columns ->
  let frame := fst (PrepareFeatures.engineer_features fsqrt guard_top_country raw) in
  let le := LabelEncoder.fit (map get raw) in
  snd (PrepareFeatures.engineer_features fsqrt guard_top_country raw) !! col = Some le
  /\ (forall i c cols, frame !! i = Some (c, cols) ->
        exists n, get_col name cols = Return (Qnat n)
                  /\ n < length (LabelEncoder.classes_ le)
                  /\ LabelEncoder.inverse_transform1 le (Z.of_nat n) = Return (get c))
  /\ (forall n, n < length (LabelEncoder.classes_ le) ->
        exists i c cols, frame !! i = Some (c, cols)
                         /\ get_col name cols = Return (Qnat n))
  /\ (forall i j c c' cols cols' n n',
        frame !! i = Some (c, cols) -> frame !! j = Some (c', cols') ->
        get_col name cols = Return (Qnat n) -> get_col name cols' = Return (Qnat n') ->
        (n = n' <-> get c = get c')).
Proof.
  intros Hcol frame le.
  assert (forall i c cols, frame !! i = Some (c, cols) ->
            exists n, get_col name cols = Return (Qnat n)
                      /\ LabelEncoder.classes_ le !! n = Some (get c)) as Hrow.
  { intros i c cols Hi. apply training_frame_lookup in Hi as [Hc ->].
    rewrite (training_row_encoded _ _ _ _ _ _ _ Hcol).
    destruct (code_fit (map get raw) (get c)) as (n & Hn & Hcls).
    { apply list_elem_of_In, in_map, list_elem_of_In. by eapply list_elem_of_lookup_2. }
    exists n. by rewrite Hn. }
  split; [|split; [|split]].
  - apply training_encoders. unfold encoded_columns in Hcol.
    repeat (apply elem_of_cons in Hcol as [[= -> -> ->]|Hcol]);
      [apply list_elem_of_In; simpl; tauto..|by apply elem_of_nil in Hcol].
  - intros i c cols Hi. destruct (Hrow i c cols Hi) as (n & Hn & Hcls).
    exists n. split; [done|]. split; [by eapply lookup_lt_Some|].
    by apply inverse_transform1_lookup.
  - intros n Hn. destruct (lookup_lt_is_Some_2 _ _ Hn) as [v Hv].
    assert (v ∈ map get raw) as Hin.
    { apply elem_of_np_unique. by eapply list_elem_of_lookup_2. }
    apply list_elem_of_In, in_map_iff in Hin as (c & <- & Hc).
    apply list_elem_of_In, list_elem_of_lookup in Hc as [i Hi].
    exists i, c, (training_row fsqrt guard_top_country raw c).
    split; [by apply training_frame_lookup|].
    destruct (Hrow i c _ (proj2 (training_frame_lookup _ _ _ _ _ _) (conj Hi eq_refl)))
      as (m & Hm & Hcls).
    rewrite Hm. do 2 f_equal.
    pose proof (sorted_slt_NoDup _ (np_unique_sorted (map get raw))) as Hnd.
    by apply (NoDup_lookup _ _ _ _ Hnd Hcls Hv).
  - intros i j c c' cols cols' n n' Hi Hj Hn Hn'.
    destruct (Hrow i c cols Hi) as (m & Hm & Hcls).
    destruct (Hrow j c' cols' Hj) as (m' & Hm' & Hcls').
    rewrite Hm in Hn. rewrite Hm' in Hn'.
    injection Hn as Hn. injection Hn' as Hn'.
    apply Nat2Z.inj in Hn, Hn'. subst m m'. split.
    + intros ->. congruence.
    + intros Heq. rewrite Heq in Hcls.
      pose proof (sorted_slt_NoDup _ (np_unique_sorted (map get raw))) as Hnd.
      by apply (NoDup_lookup _ _ _ _ Hnd Hcls Hcls').
Qed.

Lemma training_codes_are_class_indices_witness :
  exists n, get_col "guard_label"
              (training_row Scenario.sqrt_stub Scenario.top_country_stub Scenario.corpus
                 Scenario.circuit_b)
            = Return (Qnat n)
            /\ n < length (LabelEncoder.classes_
                             (LabelEncoder.fit (map guard_fingerprint Scenario.corpus)))
            /\ LabelEncoder.inverse_transform1
                 (LabelEncoder.fit (map guard_fingerprint Scenario.corpus)) (Z.of_nat n)
               = Return (guard_fingerprint Scenario.circuit_b).
Proof.
  assert (("guard_fingerprint", guard_fingerprint, "guard_label") ∈ encoded_columns)
    as Hmem by (apply list_elem_of_In; simpl; tauto).
  apply (proj1 (proj2 (training_codes_are_class_indices Scenario.sqrt_stub
                         Scenario.top_country_stub Scenario.corpus
                         "guard_fingerprint" guard_fingerprint "guard_label" Hmem)) 1).
  apply training_frame_lookup. split; reflexivity.
Defined.

Lemma distinct_countries_flags (g m e : string) :
  distinct_countries g m e
  = if bool_decide (g = m) && bool_decide (g = e) then 1
    else if bool_decide (g = m) || bool_decide (g = e) || bool_decide (m = e) then 2
    else 3.
Proof.
  unfold distinct_countries. cbn [remove_dups].
  destruct (decide_rel elem_of g [m; e]) as [H1|H1];
    destruct (decide_rel elem_of m [e]) as [H2|H2];
    repeat case_bool_decide; simpl; try done; set_solver.
Qed.

(** [X7] In every row of the training frame the four same-country flags are 0
    or 1, [all_same_country] is the product of the guard-middle and
    guard-exit flags, and [country_diversity] is the raw count 1, 2 or 3:
    1 exactly when [all_same_country] is set, 3 exactly when no pair flag
    is set, 2 otherwise. *)
Theorem training_geography_consistent fsqrt guard_top_country (raw : list Circuit)
  i c cols :
  fst (PrepareFeatures.engineer_features fsqrt guard_top_country raw) !! i = Some (c, cols) ->
  exists gm ge me : bool,
    get_col "same_country_guard_middle" cols = Return (Qbool gm)
    /\ get_col "same_country_guard_exit" cols = Return (Qbool ge)
    /\ get_col "same_country_middle_exit" cols = Return (Qbool me)
    /\ get_col "all_same_country" cols = Return (Qbool (gm && ge))
    /\ get_col "country_diversity" cols
       = Return (Qnat (if gm && ge then 1 else if gm || ge || me then 2 else 3))
    /\ (gm && ge = true -> me = true)
    /\ (gm = true <-> guard_country c = middle_country c)
    /\ (ge = true <-> guard_country c = exit_country c)
    /\ (me = true <-> middle_country c = exit_country c).
Proof.
  intros Hi. apply training_frame_lookup in Hi as [_ ->].
  exists (bool_decide (guard_country c = middle_country c)),
         (bool_decide (guard_country c = exit_country c)),
         (bool_decide (middle_country c = exit_country c)).
  repeat split; try reflexivity.
  - change (get_col "country_diversity" (training_row fsqrt guard_top_country raw c))
      with (Return (Qnat (distinct_countries (guard_country c) (middle_country c)
                            (exit_country c)))).
    by rewrite distinct_countries_flags.
  - intros H. apply andb_true_iff in H as [H1 H2].
    apply bool_decide_eq_true in H1, H2. apply bool_decide_eq_true. congruence.
  - apply bool_decide_eq_true.
  - apply bool_decide_eq_true.
  - apply bool_decide_eq_true.
  - apply bool_decide_eq_true.
  - apply bool_decide_eq_true.
  - apply bool_decide_eq_true.
Qed.

Lemma training_geography_consistent_witness :
  exists gm ge me : bool,
    get_col "same_country_guard_middle"
      (training_row Scenario.sqrt_stub Scenario.top_country_stub Scenario.corpus
         Scenario.circuit_b) = Return (Qbool gm)
    /\ get_col "same_country_guard_exit"
         (training_row Scenario.sqrt_stub Scenario.top_country_stub Scenario.corpus
            Scenario.circuit_b) = Return (Qbool ge)
    /\ get_col "same_country_middle_exit"
         (training_row Scenario.sqrt_stub Scenario.top_country_stub Scenario.corpus
            Scenario.circuit_b) = Return (Qbool me)
    /\ get_col "all_same_country"
         (training_row Scenario.sqrt_stub Scenario.top_country_stub Scenario.corpus
            Scenario.circuit_b) = Return (Qbool (gm && ge))
    /\ get_col "country_diversity"
         (training_row Scenario.sqrt_stub Scenario.top_country_stub Scenario.corpus
            Scenario.circuit_b)
       = Return (Qnat (if gm && ge then 1 else if gm || ge || me then 2 else 3))
    /\ (gm && ge = true -> me = true)
    /\ (gm = true <-> guard_country Scenario.circuit_b = middle_country Scenario.circuit_b)
    /\ (ge = true <-> guard_country Scenario.circuit_b = exit_country Scenario.circuit_b)
    /\ (me = true <-> middle_country Scenario.circuit_b = exit_country Scenario.circuit_b).
Proof.
  apply (training_geography_consistent Scenario.sqrt_stub Scenario.top_country_stub
           Scenario.corpus 1).
  apply training_frame_lookup. split; reflexivity.
Defined.

Lemma count_rows_pos (P : Circuit -> bool) (raw : list Circuit) c :
  c ∈ raw -> P c = true -> 1 <= PrepareFeatures.count_rows P raw.
Proof.
  intros Hc HP. unfold PrepareFeatures.count_rows.
  assert (In c (List.filter P raw)) as Hin.
  { apply filter_In. split; [by apply list_elem_of_In|done]. }
  destruct (List.filter P raw); [done|simpl; lia].
Qed.

Lemma count_rows_le (P R : Circuit -> bool) (raw : list Circuit) :
  (forall c, P c = true -> R c = true) ->
  PrepareFeatures.count_rows P raw <= PrepareFeatures.count_rows R raw.
Proof.
  intros HPR. unfold PrepareFeatures.count_rows.
  induction raw as [|c raw IH]; simpl; [done|].
  destruct (P c) eqn:EP.
  - rewrite (HPR c EP). simpl. lia.
  - destruct (R c); simpl; lia.
Qed.

Lemma count_rows_total (P : Circuit -> bool) (raw : list Circuit) :
  PrepareFeatures.count_rows P raw <= length raw.
Proof.
  unfold PrepareFeatures.count_rows.
  induction raw as [|c raw IH]; simpl; [done|]. destruct (P c); simpl; lia.
Qed.

Lemma same_refl (f : Circuit -> string) (c : Circuit) : PrepareFeatures.same f c c = true.
Proof. unfold PrepareFeatures.same. by apply bool_decide_eq_true. Qed.

(** [X8] In every row of the training frame the historical counts are those of
    the row's own relays in the corpus: each usage frequency is at least 1
    and at most the number of circuits, each pair frequency is at least 1
    and at most the usage frequency of both members of the pair, and the
    guard's average bandwidth times its usage frequency is the sum of the
    guard bandwidths over the guard's circuits (the group is never empty,
    so the mean never divides by zero). *)
Theorem training_historical_counts fsqrt guard_top_country (raw : list Circuit)
  i c cols :
  fst (PrepareFeatures.engineer_features fsqrt guard_top_country raw) !! i = Some (c, cols) ->
  exists (ug um ue pge pgm : nat) (avg : Q),
    get_col "guard_usage_freq" cols = Return (Qnat ug)
    /\ get_col "middle_usage_freq" cols = Return (Qnat um)
    /\ get_col "exit_usage_freq" cols = Return (Qnat ue)
    /\ get_col "guard_exit_pair_freq" cols = Return (Qnat pge)
    /\ get_col "guard_middle_pair_freq" cols = Return (Qnat pgm)
    /\ get_col "guard_avg_bandwidth" cols = Return avg
    /\ 1 <= pge /\ pge <= ug /\ pge <= ue
    /\ 1 <= pgm /\ pgm <= ug /\ pgm <= um
    /\ ug <= length raw /\ um <= length raw /\ ue <= length raw
    /\ (avg * Qnat ug
        == Qsum (map guard_bandwidth
                   (List.filter (PrepareFeatures.same guard_fingerprint c) raw)))%Q.
Proof.
  intros Hi. apply training_frame_lookup in Hi as [Hc ->].
  assert (c ∈ raw) as Hin by (by eapply list_elem_of_lookup_2).
  do 6 eexists. repeat (split; [reflexivity|]).
  repeat split.
  - apply (count_rows_pos _ _ c Hin). by rewrite !same_refl.
  - apply count_rows_le. intros r Hr. by apply andb_true_iff in Hr as [? _].
  - apply count_rows_le. intros r Hr. by apply andb_true_iff in Hr as [_ ?].
  - apply (count_rows_pos _ _ c Hin). by rewrite !same_refl.
  - apply count_rows_le. intros r Hr. by apply andb_true_iff in Hr as [? _].
  - apply count_rows_le. intros r Hr. by apply andb_true_iff in Hr as [_ ?].
  - apply count_rows_total.
  - apply count_rows_total.
  - apply count_rows_total.
  - unfold PrepareFeatures.guard_avg_bw, PrepareFeatures.count_rows.
    pose proof (count_rows_pos (PrepareFeatures.same guard_fingerprint c) raw c Hin
                  (same_refl _ _)) as Hpos.
    unfold PrepareFeatures.count_rows in Hpos. cbv zeta.
    destruct (length (List.filter (PrepareFeatures.same guard_fingerprint c) raw))
      as [|n] eqn:E; [lia|].
    rewrite Qmult_comm. apply Qmult_div_r.
    intros H0. pose proof (Qnat_S_pos n) as Hn. rewrite H0 in Hn.
    by apply Qlt_irrefl in Hn.
Qed.

Lemma training_historical_counts_witness :
  exists (ug um ue pge pgm : nat) (avg : Q),
    get_col "guard_usage_freq"
      (training_row Scenario.sqrt_stub Scenario.top_country_stub Scenario.corpus
         Scenario.circuit_a) = Return (Qnat ug)
    /\ get_col "middle_usage_freq"
         (training_row Scenario.sqrt_stub Scenario.top_country_stub Scenario.corpus
            Scenario.circuit_a) = Return (Qnat um)
    /\ get_col "exit_usage_freq"
         (training_row Scenario.sqrt_stub Scenario.top_country_stub Scenario.corpus
            Scenario.circuit_a) = Return (Qnat ue)
    /\ get_col "guard_exit_pair_freq"
         (training_row Scenario.sqrt_stub Scenario.top_country_stub Scenario.corpus
            Scenario.circuit_a) = Return (Qnat pge)
    /\ get_col "guard_middle_pair_freq"
         (training_row Scenario.sqrt_stub Scenario.top_country_stub Scenario.corpus
            Scenario.circuit_a) = Return (Qnat pgm)
    /\ get_col "guard_avg_bandwidth"
         (training_row Scenario.sqrt_stub Scenario.top_country_stub Scenario.corpus
            Scenario.circuit_a) = Return avg
    /\ 1 <= pge /\ pge <= ug /\ pge <= ue
    /\ 1 <= pgm /\ pgm <= ug /\ pgm <= um
    /\ ug <= length Scenario.corpus /\ um <= length Scenario.corpus
    /\ ue <= length Scenario.corpus
    /\ (avg * Qnat ug
        == Qsum (map guard_bandwidth
                   (List.filter (PrepareFeatures.same guard_fingerprint Scenario.circuit_a)
                      Scenario.corpus)))%Q.
Proof.
  apply (training_historical_counts Scenario.sqrt_stub Scenario.top_country_stub
           Scenario.corpus 0).
  apply training_frame_lookup. split; reflexivity.
Defined.

(** ** The batch script's feature engineering *)

Lemma assign_rows name (f : Circuit -> Q) (G : Circuit * columns -> columns)
  (data : frame) :
  assign name f (map (fun r => (fst r, G r)) data)
  = map (fun r => (fst r, set_col name (f (fst r)) (G r))) data.
Proof. unfold assign. by rewrite map_map. Qed.

Lemma frame_eta (data : frame) : data = map (fun r => (fst r, snd r)) data.
Proof. induction data as [|[c cols] data IH]; simpl; by f_equal. Qed.

Lemma transform_codes le (y : list string) :
  Forall (fun v => v ∈ LabelEncoder.classes_ le) y ->
  exists codes, LabelEncoder.transform le y = Return codes
                /\ map inject_Z codes = map (PrepareFeatures.code le) y.
Proof.
  unfold LabelEncoder.transform.
  induction 1 as [|v y Hv _ (codes & Hc & Hm)]; simpl.
  - by exists [].
  - destruct (transform1_seen le v Hv) as (i & Ht & Hi). rewrite Ht, Hc.
    eexists. split; [done|]. simpl. rewrite Hm. f_equal.
    symmetry. by apply code_transform1.
Qed.

Lemma assign_values_rows name (g : Circuit * columns -> Q)
  (G : Circuit * columns -> columns) (data : frame) :
  PredictGuard.assign_values name (map g data) (map (fun r => (fst r, G r)) data)
  = map (fun r => (fst r, set_col name (g r) (G r))) data.
Proof.
  unfold PredictGuard.assign_values.
  induction data as [|r data IH]; simpl; [done|]. by rewrite IH.
Qed.

Lemma encode_column_rows encoders (data : frame) (G : Circuit * columns -> columns)
  col get le :
  encoders !! col = Some le ->
  (forall r, r ∈ data -> get (fst r) ∈ LabelEncoder.classes_ le) ->
  PredictGuard.encode_column encoders (map (fun r => (fst r, G r)) data) (col, get)
  = Return (map (fun r => (fst r, set_col (col ++ "_encoded")
                                   (PrepareFeatures.code le (get (fst r))) (G r)))
              data).
Proof.
  intros Hle Hseen. unfold PredictGuard.encode_column. simpl. rewrite Hle.
  rewrite map_map. simpl.
  destruct (transform_codes le (map (fun r => get (fst r)) data)) as (codes & -> & Hm).
  { apply Forall_forall. intros v Hv.
    apply list_elem_of_In, in_map_iff in Hv as (r & <- & Hr).
    by apply Hseen, list_elem_of_In. }
  simpl. rewrite Hm, map_map. by rewrite assign_values_rows.
Qed.

Lemma engineer_rows fsqrt encoders (data : frame) :
  encoders_cover encoders data ->
  PredictGuard.engineer fsqrt encoders data
  = Return (map (fun r => (fst r, batch_row fsqrt encoders r)) data).
Proof.
  intros Hcover.
  destruct (Hcover "middle_fingerprint" middle_fingerprint) as (le1 & H1 & S1);
    [apply list_elem_of_In; simpl; tauto|].
  destruct (Hcover "exit_fingerprint" exit_fingerprint) as (le2 & H2 & S2);
    [apply list_elem_of_In; simpl; tauto|].
  destruct (Hcover "guard_country" guard_country) as (le3 & H3 & S3);
    [apply list_elem_of_In; simpl; tauto|].
  destruct (Hcover "middle_country" middle_country) as (le4 & H4 & S4);
    [apply list_elem_of_In; simpl; tauto|].
  destruct (Hcover "exit_country" exit_country) as (le5 & H5 & S5);
    [apply list_elem_of_In; simpl; tauto|].
  unfold PredictGuard.engineer. rewrite (frame_eta data) at 1.
  rewrite !assign_rows. cbn [PredictGuard.encode_columns categorical_cols].
  rewrite (encode_column_rows _ _ _ _ _ _ H1 S1). cbn [mbind result_bind].
  rewrite (encode_column_rows _ _ _ _ _ _ H2 S2). cbn [mbind result_bind].
  rewrite (encode_column_rows _ _ _ _ _ _ H3 S3). cbn [mbind result_bind].
  rewrite (encode_column_rows _ _ _ _ _ _ H4 S4). cbn [mbind result_bind].
  rewrite (encode_column_rows _ _ _ _ _ _ H5 S5). cbn [mbind result_bind].
  rewrite !assign_rows. f_equal. apply map_ext. intros [c cols].
  unfold batch_row, batch_assignments, encoder_code, set_cols.
  rewrite H1, H2, H3, H4, H5. reflexivity.
Qed.

Lemma fst_assign name (f : Circuit -> Q) (df : frame) :
  map fst (assign name f df) = map fst df.
Proof. unfold assign. rewrite map_map. by apply map_ext. Qed.

Lemma fst_assign_values name (vals : list Q) (df : frame) :
  length vals = length df ->
  map fst (PredictGuard.assign_values name vals df) = map fst df.
Proof.
  unfold PredictGuard.assign_values. revert vals.
  induction df as [|r df IH]; intros [|v vals] Hlen; simpl in *; try done.
  f_equal. apply IH. lia.
Qed.

Lemma transform_Return le (y : list string) codes :
  LabelEncoder.transform le y = Return codes ->
  length codes = length y /\ Forall (fun v => v ∈ LabelEncoder.classes_ le) y.
Proof.
  unfold LabelEncoder.transform. intros H. split; [by eapply for_each_length|].
  apply Forall_forall. intros v Hv. apply list_elem_of_lookup in Hv as [i Hi].
  destruct (for_each_lookup _ _ _ _ _ H Hi) as (z & Hz & _).
  destruct (decide (v ∈ LabelEncoder.classes_ le)) as [|Hout]; [done|].
  by rewrite (transform1_unseen le v Hout) in Hz.
Qed.

Lemma transform_error le (y : list string) e :
  LabelEncoder.transform le y = Raise e ->
  e = ValueError /\ exists v, v ∈ y /\ v ∉ LabelEncoder.classes_ le.
Proof.
  unfold LabelEncoder.transform. intros H.
  apply for_each_Raise in H as (v & Hv & Hraise).
  split; [by eapply transform1_error|]. exists v. split; [done|].
  intros Hin. destruct (transform1_seen le v Hin) as (i & Hi & _). congruence.
Qed.

(** What one step of the encoding loop can do. *)
Lemma encode_column_outcome encoders (df : frame) col get :
  match PredictGuard.encode_column encoders df (col, get) with
  | Return df' =>
      map fst df' = map fst df
      /\ exists le, encoders !! col = Some le
                    /\ forall c, c ∈ map fst df -> get c ∈ LabelEncoder.classes_ le
  | Raise e =>
      (e = KeyError /\ encoders !! col = None)
      \/ (e = ValueError
          /\ exists le c, encoders !! col = Some le /\ c ∈ map fst df
                          /\ get c ∉ LabelEncoder.classes_ le)
  end.
Proof.
  unfold PredictGuard.encode_column. simpl.
  destruct (encoders !! col) as [le|]; [|by left].
  destruct (LabelEncoder.transform le _) as [e|codes] eqn:E; simpl.
  - right. apply transform_error in E as (-> & v & Hv & Hout). split; [done|].
    apply list_elem_of_In, in_map_iff in Hv as (r & <- & Hr).
    exists le, (fst r). split; [done|]. split; [|done].
    apply list_elem_of_In, in_map, Hr.
  - apply transform_Return in E as [Hlen Hseen]. split.
    + apply fst_assign_values. by rewrite !length_map in *.
    + exists le. split; [done|]. intros c Hc.
      rewrite Forall_forall in Hseen. apply Hseen.
      apply list_elem_of_In, in_map_iff in Hc as (r & <- & Hr).
      apply list_elem_of_In, in_map_iff. by exists r.
Qed.

Lemma encode_columns_outcome encoders (df : frame) cols :
  match PredictGuard.encode_columns encoders df cols with
  | Return df' =>
      map fst df' = map fst df
      /\ forall col get, (col, get) ∈ cols ->
           exists le, encoders !! col = Some le
                      /\ forall c, c ∈ map fst df -> get c ∈ LabelEncoder.classes_ le
  | Raise e =>
      (e = KeyError /\ exists col get, (col, get) ∈ cols /\ encoders !! col = None)
      \/ (e = ValueError
          /\ exists col get le c, (col, get) ∈ cols /\ encoders !! col = Some le
                                  /\ c ∈ map fst df
                                  /\ get c ∉ LabelEncoder.classes_ le)
  end.
Proof.
  revert df. induction cols as [|[col get] cols IH]; intros df; simpl.
  - split; [done|]. intros col get H. by apply elem_of_nil in H.
  - pose proof (encode_column_outcome encoders df col get) as Hstep.
    destruct (PredictGuard.encode_column encoders df (col, get)) as [e|df1]; simpl.
    + destruct Hstep as [[-> Hnone]|(-> & le & c & Hle & Hc & Hout)].
      * left. split; [done|]. exists col, get. split; [left|done].
      * right. split; [done|]. exists col, get, le, c. repeat split; try done. left.
    + destruct Hstep as (Hfst & le & Hle & Hseen). specialize (IH df1).
      destruct (PredictGuard.encode_columns encoders df1 cols) as [e|df2].
      * destruct IH as [(-> & col' & get' & Hin & Hnone)
                       |(-> & col' & get' & le' & c & Hin & Hle' & Hc & Hout)].
        -- left. split; [done|]. exists col', get'. split; [by right|done].
        -- right. split; [done|]. exists col', get', le', c.
           rewrite Hfst in Hc. repeat split; try done. by right.
      * destruct IH as [Hfst2 Hall]. split; [congruence|].
        intros col' get' Hin. apply elem_of_cons in Hin as [[= -> ->]|Hin].
        -- eauto.
        -- destruct (Hall col' get' Hin) as (le' & Hle' & Hseen').
           exists le'. split; [done|]. intros c Hc. apply Hseen'. by rewrite Hfst.
Qed.

(** [X9] The feature engineering of the batch script succeeds exactly when every
    categorical encoder is present and has seen every value of its column;
    it then gives each row its computed columns on top of the existing
    ones.  Otherwise it raises [KeyError] (only when an encoder is
    missing) or [ValueError] (only when some value is unseen), and a frame
    with an unseen value and no missing encoder always raises
    [ValueError]. *)
Theorem batch_engineer_outcome fsqrt encoders (data : frame) :
  (encoders_cover encoders data
   <-> PredictGuard.engineer fsqrt encoders data
       = Return (map (fun r => (fst r, batch_row fsqrt encoders r)) data))
  /\ (forall df, PredictGuard.engineer fsqrt encoders data = Return df ->
        encoders_cover encoders data)
  /\ (forall e, PredictGuard.engineer fsqrt encoders data = Raise e ->
        (e = KeyError
         /\ exists col get, (col, get) ∈ categorical_cols /\ encoders !! col = None)
        \/ (e = ValueError
            /\ exists col get le r, (col, get) ∈ categorical_cols
                                    /\ encoders !! col = Some le /\ r ∈ data
                                    /\ get (fst r) ∉ LabelEncoder.classes_ le))
  /\ ((forall col get, (col, get) ∈ categorical_cols -> is_Some (encoders !! col)) ->
      ~ encoders_cover encoders data ->
      PredictGuard.engineer fsqrt encoders data = Raise ValueError).
Proof.
  assert (forall df, PredictGuard.engineer fsqrt encoders data = Return df ->
            encoders_cover encoders data) as Hret.
  { intros df. unfold PredictGuard.engineer.
    match goal with
    | |- context [PredictGuard.encode_columns encoders ?d categorical_cols] =>
        pose proof (encode_columns_outcome encoders d categorical_cols) as Hout;
        assert (map fst d = map fst data) as Hfst by (by rewrite !fst_assign);
        destruct (PredictGuard.encode_columns encoders d categorical_cols) as [e|df1]
    end; [done|]. intros _. destruct Hout as [_ Hall].
    intros col get Hin. destruct (Hall col get Hin) as (le & Hle & Hseen).
    exists le. split; [done|]. intros r Hr. apply Hseen. rewrite Hfst.
    apply list_elem_of_In, in_map, list_elem_of_In, Hr. }
  assert (forall e, PredictGuard.engineer fsqrt encoders data = Raise e ->
            (e = KeyError
             /\ exists col get, (col, get) ∈ categorical_cols /\ encoders !! col = None)
            \/ (e = ValueError
                /\ exists col get le r, (col, get) ∈ categorical_cols
                                        /\ encoders !! col = Some le /\ r ∈ data
                                        /\ get (fst r) ∉ LabelEncoder.classes_ le))
    as Herr.
  { intros e. unfold PredictGuard.engineer.
    match goal with
    | |- context [PredictGuard.encode_columns encoders ?d categorical_cols] =>
        pose proof (encode_columns_outcome encoders d categorical_cols) as Hout;
        assert (map fst d = map fst data) as Hfst by (by rewrite !fst_assign);
        destruct (PredictGuard.encode_columns encoders d categorical_cols) as [e'|df1]
    end; [|done]. simpl. intros [= <-].
    destruct Hout as [?|(-> & col & get & le & c & Hin & Hle & Hc & Hunseen)];
      [by left|]. right. split; [done|].
    rewrite Hfst in Hc. apply list_elem_of_In, in_map_iff in Hc as (r & <- & Hr).
    exists col, get, le, r. repeat split; try done. by apply list_elem_of_In. }
  split; [|split; [|split]].
  - split; [apply engineer_rows|]. apply Hret.
  - exact Hret.
  - exact Herr.
  - intros Hpresent Hnot.
    destruct (PredictGuard.engineer fsqrt encoders data) as [e|df] eqn:E.
    + destruct (Herr e eq_refl) as [(_ & col & get & Hin & Hnone)|[-> _]]; [|done].
      destruct (Hpresent col get Hin) as [le Hle]. congruence.
    + destruct Hnot. by apply (Hret df).
Qed.

Lemma scenario_encoders_cover :
  encoders_cover (Scenario.encoders Scenario.sqrt_stub Scenario.top_country_stub)
    [(Scenario.circuit_a, [])].
Proof.
  intros col get Hin. unfold categorical_cols in Hin.
  repeat (apply elem_of_cons in Hin as [[= -> ->]|Hin]);
    try (eexists; split; [vm_compute; reflexivity|];
         intros r Hr; apply list_elem_of_singleton in Hr as ->;
         apply list_elem_of_In; simpl; tauto).
  by apply elem_of_nil in Hin.
Qed.

Lemma batch_engineer_outcome_witness :
  PredictGuard.engineer Scenario.sqrt_stub
    (Scenario.encoders Scenario.sqrt_stub Scenario.top_country_stub)
    [(Scenario.circuit_a, [])]
  = Return (map (fun r => (fst r, batch_row Scenario.sqrt_stub
                                    (Scenario.encoders Scenario.sqrt_stub
                                       Scenario.top_country_stub) r))
              [(Scenario.circuit_a, [])]).
Proof.
  apply (proj1 (proj1 (batch_engineer_outcome Scenario.sqrt_stub
                         (Scenario.encoders Scenario.sqrt_stub Scenario.top_country_stub)
                         [(Scenario.circuit_a, [])]))).
  apply scenario_encoders_cover.
Defined.

Lemma training_encoders_cover fsqrt guard_top_country (raw : list Circuit) :
  encoders_cover (snd (PrepareFeatures.engineer_features fsqrt guard_top_country raw))
    (fst (PrepareFeatures.engineer_features fsqrt guard_top_country raw)).
Proof.
  intros col get Hin. exists (LabelEncoder.fit (map get raw)). split.
  - apply training_encoders. by right.
  - intros r Hr. rewrite engineer_features_rows in Hr.
    apply list_elem_of_In, in_map_iff in Hr as (c & <- & Hc). simpl.
    apply elem_of_np_unique, list_elem_of_In, in_map, Hc.
Qed.

(** [X10] Running the batch script's feature engineering on the engineered
    training frame, with the encoders fitted by the training transform,
    reproduces that frame exactly: every recomputed ratio, aggregate, flag,
    code and interaction equals the stored one. *)
Theorem batch_engineer_reproduces_training_frame fsqrt guard_top_country
  (raw : list Circuit) :
  PredictGuard.engineer fsqrt
    (snd (PrepareFeatures.engineer_features fsqrt guard_top_country raw))
    (fst (PrepareFeatures.engineer_features fsqrt guard_top_country raw))
  = Return (fst (PrepareFeatures.engineer_features fsqrt guard_top_country raw)).
Proof.
  rewrite (engineer_rows _ _ _ (training_encoders_cover fsqrt guard_top_country raw)).
  f_equal. rewrite engineer_features_rows, map_map.
  apply map_ext. intros c. reflexivity.
Qed.

(** ** The batch script end to end *)

Lemma elem_of_names_set_col name n v (cols : columns) :
  name ∈ map fst (set_col n v cols) <-> name = n \/ name ∈ map fst cols.
Proof.
  rewrite <- !get_col_Return_iff. destruct (decide (n = name)) as [->|Hne].
  - rewrite get_col_set_col_eq. split; [by left|intros _; by eexists].
  - rewrite get_col_set_col_ne by done. naive_solver.
Qed.

Lemma elem_of_names_set_cols name (A cols : columns) :
  name ∈ map fst (set_cols A cols) <-> name ∈ map fst A \/ name ∈ map fst cols.
Proof.
  unfold set_cols. revert cols. induction A as [|[n v] A IH]; intros cols; simpl.
  - rewrite elem_of_nil. naive_solver.
  - rewrite IH, elem_of_names_set_col, elem_of_cons. naive_solver.
Qed.

Lemma batch_row_names fsqrt encoders (r : Circuit * columns) name :
  is_Return (get_col name (numeric_columns (fst r) ++ batch_row fsqrt encoders r))
  <-> name ∈ raw_numeric_names \/ name ∈ batch_names \/ name ∈ map fst (snd r).
Proof.
  rewrite get_col_Return_iff, map_app, elem_of_app.
  unfold batch_row. rewrite elem_of_names_set_cols. done.
Qed.

Lemma rank_row_fields enc k r row res :
  PredictGuard.rank_row enc k r row = Return res ->
  PredictGuard.ranking_circuit_id res = circuit_id (fst r)
  /\ PredictGuard.top_k_probabilities res = map (prob row) (top_k_indices row k)
  /\ Forall2 (fun idx g => LabelEncoder.classes_ enc !! idx = Some g)
       (top_k_indices row k) (PredictGuard.top_k_guards res).
Proof.
  intros H. pose proof (rank_row_inv _ _ _ _ _ H) as [Hp _]. revert H.
  unfold PredictGuard.rank_row.
  destruct (for_each (getitem row) (top_k_indices row k)) as [|probs]; [done|]. simpl.
  destruct (LabelEncoder.inverse_transform enc _) as [|guards] eqn:Eg; [done|].
  simpl. intros [= <-]. simpl in *. split; [done|]. split; [done|].
  unfold LabelEncoder.inverse_transform in Eg. apply for_each_Forall2 in Eg.
  apply Forall2_fmap_l in Eg. eapply Forall2_impl; [exact Eg|].
  intros idx g. unfold LabelEncoder.inverse_transform1. simpl.
  destruct (decide _); [|done]. rewrite Nat2Z.id.
  destruct (LabelEncoder.classes_ enc !! idx); [|done]. by intros [= ->].
Qed.

Lemma rank_rows_Return enc k (data : frame) (probs : list (list Q)) i n :
  i + n <= length data -> i + n <= length probs ->
  Forall (fun row => length row <= length (LabelEncoder.classes_ enc)) probs ->
  exists results,
    PredictGuard.rank_rows enc k data probs i n = Return results
    /\ length results = n
    /\ forall j r, j < n -> data !! (i + j) = Some r ->
         exists res row, results !! j = Some res /\ probs !! (i + j) = Some row
                         /\ PredictGuard.rank_row enc k r row = Return res.
Proof.
  intros Hd Hp Hw. revert i Hd Hp. induction n as [|n IH]; intros i Hd Hp; simpl.
  - exists []. split; [done|]. split; [done|]. intros j r Hj. lia.
  - destruct (lookup_lt_is_Some_2 probs i) as [row Hrow]; [lia|].
    destruct (lookup_lt_is_Some_2 data i) as [r0 Hr0]; [lia|].
    rewrite (proj2 (getitem_Some _ _ _) Hrow), (proj2 (getitem_Some _ _ _) Hr0). simpl.
    destruct (rank_row_Return enc k r0 row) as [res Hres].
    { rewrite Forall_forall in Hw. by eapply Hw, list_elem_of_lookup_2. }
    rewrite Hres. simpl.
    destruct (IH (S i)) as (rest & -> & Hlen & Hrest); [lia..|]. simpl.
    eexists. split; [done|]. split; [simpl; lia|].
    intros [|j] r Hj Hr.
    + rewrite Nat.add_0_r in Hr. rewrite Nat.add_0_r.
      exists res, row. simpl. split; [done|]. split; [done|]. congruence.
    + replace (i + S j) with (S i + j) in * by lia.
      destruct (Hrest j r) as (res' & row' & ? & ? & ?); [lia|done|].
      exists res', row'. done.
Qed.

(** [X11] On a frame with at least one row: when every categorical encoder
    covers the frame, every requested feature column is a raw numeric
    column, a column the script computes or a numeric column the input
    already has, the target encoder is present, and the model answers with
    one probability row per input row, none wider than the class table,
    then [predict_top_k_guards] returns one ranking per input row, in input
    order: it carries the row's circuit id, the probabilities of the
    extracted classes in ranking order, and the guard fingerprints those
    class indices decode to. *)
Theorem predict_top_k_guards_returns fsqrt (data : frame) (m : Model)
  (encoders : gmap string LabelEncoder.t) (feature_cols : list string) (k : Z)
  (guard_encoder : LabelEncoder.t) :
  data <> [] ->
  encoders_cover encoders data ->
  (forall name r, name ∈ feature_cols -> r ∈ data ->
     name ∈ raw_numeric_names \/ name ∈ batch_names \/ name ∈ map fst (snd r)) ->
  encoders !! "guard_fingerprint" = Some guard_encoder ->
  (forall X, length X = length data ->
     length data <= length (predict_proba m X)
     /\ Forall (fun row => length row <= length (LabelEncoder.classes_ guard_encoder))
          (predict_proba m X)) ->
  exists X results,
    for_each (select_features feature_cols)
      (map (fun r => (fst r, batch_row fsqrt encoders r)) data) = Return X
    /\ PredictGuard.predict_top_k_guards fsqrt data m encoders feature_cols k
       = Return results
    /\ length results = length data
    /\ forall j r, data !! j = Some r ->
         exists res row,
           results !! j = Some res /\ predict_proba m X !! j = Some row
           /\ PredictGuard.ranking_circuit_id res = circuit_id (fst r)
           /\ PredictGuard.top_k_probabilities res = map (prob row) (top_k_indices row k)
           /\ Forall2 (fun idx g => LabelEncoder.classes_ guard_encoder !! idx = Some g)
                (top_k_indices row k) (PredictGuard.top_k_guards res).
Proof.
  intros _ Hcover Hfeat Hguard Hmodel. unfold PredictGuard.predict_top_k_guards.
  rewrite (engineer_rows _ _ _ Hcover). cbn [mbind result_bind].
  destruct (for_each_Return (select_features feature_cols)
              (map (fun r => (fst r, batch_row fsqrt encoders r)) data)) as [X HX].
  { apply Forall_forall. intros r' Hr'.
    apply list_elem_of_In, in_map_iff in Hr' as (r & <- & Hr).
    apply list_elem_of_In in Hr. unfold select_features.
    apply for_each_Return, Forall_forall. intros name Hname.
    apply (proj2 (batch_row_names fsqrt encoders r name)). by apply Hfeat. }
  rewrite HX. cbn [mbind result_bind]. rewrite Hguard.
  assert (length X = length data) as HlenX.
  { apply for_each_length in HX. by rewrite length_map in HX. }
  destruct (Hmodel X HlenX) as [Hrows Hwidth].
  destruct (rank_rows_Return guard_encoder k data (predict_proba m X) 0 (length X))
    as (results & Hres & Hlen & Hall); [simpl; lia..|done|].
  exists X, results. split; [done|]. split; [done|]. split; [lia|].
  intros j r Hj.
  destruct (Hall j r) as (res & row & Hrj & Hpj & Hrank).
  { apply lookup_lt_Some in Hj. lia. }
  { done. }
  exists res, row. split; [done|]. split; [done|]. by apply rank_row_fields.
Qed.

Lemma scenario_model_shape (data : frame) :
  forall X, length X = length data ->
    length data <= length (predict_proba Scenario.model X)
    /\ Forall (fun row => length row
                          <= length (LabelEncoder.classes_
                                       (LabelEncoder.fit
                                          (map guard_fingerprint Scenario.corpus))))
         (predict_proba Scenario.model X).
Proof.
  intros X HX. simpl. rewrite length_map. split; [lia|].
  apply Forall_forall. intros row Hrow.
  apply list_elem_of_In, in_map_iff in Hrow as (x & <- & _). simpl. lia.
Qed.

Lemma predict_top_k_guards_returns_witness :
  exists results,
    PredictGuard.predict_top_k_guards Scenario.sqrt_stub [(Scenario.circuit_a, [])]
      Scenario.model (Scenario.encoders Scenario.sqrt_stub Scenario.top_country_stub)
      ["guard_bandwidth"; "bw_total"; "exit_country_encoded"] 5
    = Return results
    /\ length results = 1.
Proof.
  destruct (predict_top_k_guards_returns Scenario.sqrt_stub [(Scenario.circuit_a, [])]
              Scenario.model
              (Scenario.encoders Scenario.sqrt_stub Scenario.top_country_stub)
              ["guard_bandwidth"; "bw_total"; "exit_country_encoded"] 5
              (LabelEncoder.fit (map guard_fingerprint Scenario.corpus)))
    as (X & results & _ & Hres & Hlen & _).
  - discriminate.
  - apply scenario_encoders_cover.
  - intros name r Hname _. apply list_elem_of_In in Hname. simpl in Hname.
    destruct Hname as [<-|[<-|[<-|[]]]].
    + left. apply list_elem_of_In. simpl. tauto.
    + right. left. apply list_elem_of_In. simpl. tauto.
    + right. left. apply list_elem_of_In. simpl. tauto.
  - vm_compute. reflexivity.
  - apply scenario_model_shape.
  - exists results. split; [exact Hres|exact Hlen].
Defined.

Lemma select_features_error feature_cols (r : Circuit * columns) e :
  select_features feature_cols r = Raise e -> e = KeyError.
Proof.
  unfold select_features. intros H.
  apply for_each_Raise in H as (name & _ & Hname). by eapply get_col_error.
Qed.

Lemma rank_rows_short enc k (data : frame) (probs : list (list Q)) i n :
  i + n <= length data -> i <= length probs < i + n ->
  Forall (fun row => length row <= length (LabelEncoder.classes_ enc)) probs ->
  PredictGuard.rank_rows enc k data probs i n = Raise IndexError.
Proof.
  intros Hd Hp Hw. revert i Hd Hp. induction n as [|n IH]; intros i Hd Hp; [lia|].
  cbn [PredictGuard.rank_rows].
  destruct (probs !! i) as [row|] eqn:Hrow.
  2:{ unfold getitem. rewrite Hrow. reflexivity. }
  rewrite (proj2 (getitem_Some _ _ _) Hrow). cbn [mbind result_bind].
  destruct (lookup_lt_is_Some_2 data i) as [r0 Hr0]; [lia|].
  rewrite (proj2 (getitem_Some _ _ _) Hr0). simpl.
  destruct (rank_row_Return enc k r0 row) as [res Hres].
  { rewrite Forall_forall in Hw. by eapply Hw, list_elem_of_lookup_2. }
  rewrite Hres. simpl. apply lookup_lt_Some in Hrow.
  rewrite (IH (S i)) by lia. done.
Qed.

(** [X12] How [predict_top_k_guards] fails on a frame with at least one row
    once its encoders cover the frame: a requested feature column that is
    no column of the circuit CSV (neither one of its eighteen identifier
    and text columns nor one of its five numeric columns), is not computed
    by the script and is not present in some input row raises [KeyError]
    (so a frame of raw circuits cannot be scored with a feature list that
    names a historical column, which the script never computes); with
    every requested column a numeric column of the frame, a missing target
    encoder raises [KeyError] after the features were selected, and a model
    that answers with fewer probability rows than input rows raises
    [IndexError]. *)
Theorem predict_top_k_guards_failures fsqrt (data : frame) (m : Model)
  (encoders : gmap string LabelEncoder.t) (feature_cols : list string) (k : Z) :
  data <> [] ->
  encoders_cover encoders data ->
  (forall name r, name ∈ feature_cols -> r ∈ data ->
     name ∉ TrainXgboost.exclude_cols -> name ∉ raw_numeric_names ->
     name ∉ batch_names -> name ∉ map fst (snd r) ->
     PredictGuard.predict_top_k_guards fsqrt data m encoders feature_cols k
     = Raise KeyError)
  /\ ((forall name r, name ∈ feature_cols -> r ∈ data ->
         name ∈ raw_numeric_names \/ name ∈ batch_names \/ name ∈ map fst (snd r)) ->
      (encoders !! "guard_fingerprint" = None ->
       PredictGuard.predict_top_k_guards fsqrt data m encoders feature_cols k
       = Raise KeyError)
      /\ (forall guard_encoder,
            encoders !! "guard_fingerprint" = Some guard_encoder ->
            (forall X, length X = length data ->
               length (predict_proba m X) < length data
               /\ Forall (fun row => length row
                                     <= length (LabelEncoder.classes_ guard_encoder))
                    (predict_proba m X)) ->
            PredictGuard.predict_top_k_guards fsqrt data m encoders feature_cols k
            = Raise IndexError)).
Proof.
  intros _ Hcover. unfold PredictGuard.predict_top_k_guards.
  rewrite (engineer_rows _ _ _ Hcover). cbn [mbind result_bind]. split.
  - intros name r Hname Hr _ H1 H2 H3.
    rewrite (for_each_raises _ _ (fst r, batch_row fsqrt encoders r) KeyError); [done| | |].
    + apply list_elem_of_In, in_map_iff. exists r. split; [done|].
      by apply list_elem_of_In.
    + unfold select_features. apply (for_each_raises _ _ name); [done| |].
      * destruct (get_col name _) as [e|v] eqn:E; [by rewrite (get_col_error _ _ _ E)|].
        assert (is_Return (get_col name (numeric_columns (fst r)
                                          ++ batch_row fsqrt encoders r))) as Hret
          by (by eexists).
        apply batch_row_names in Hret. tauto.
      * intros y e'. apply get_col_error.
    + intros y e'. apply select_features_error.
  - intros Hfeat.
    destruct (for_each_Return (select_features feature_cols)
                (map (fun r => (fst r, batch_row fsqrt encoders r)) data)) as [X HX].
    { apply Forall_forall. intros r' Hr'.
      apply list_elem_of_In, in_map_iff in Hr' as (r & <- & Hr).
      apply list_elem_of_In in Hr. unfold select_features.
      apply for_each_Return, Forall_forall. intros name Hname.
      apply (proj2 (batch_row_names fsqrt encoders r name)). by apply Hfeat. }
    rewrite HX. cbn [mbind result_bind].
    assert (length X = length data) as HlenX.
    { apply for_each_length in HX. by rewrite length_map in HX. }
    split.
    + by intros ->.
    + intros guard_encoder -> Hmodel. destruct (Hmodel X HlenX) as [Hshort Hwidth].
      apply rank_rows_short; [simpl; lia|simpl; lia|done].
Qed.

(** A raw circuit scored with the thirty-one trained feature names. *)
Lemma predict_top_k_guards_failures_witness :
  PredictGuard.predict_top_k_guards Scenario.sqrt_stub [(Scenario.circuit_a, [])]
    Scenario.model (Scenario.encoders Scenario.sqrt_stub Scenario.top_country_stub)
    model_feature_names 5
  = Raise KeyError.
Proof.
  apply (proj1 (predict_top_k_guards_failures Scenario.sqrt_stub
                  [(Scenario.circuit_a, [])] Scenario.model
                  (Scenario.encoders Scenario.sqrt_stub Scenario.top_country_stub)
                  model_feature_names 5 ltac:(discriminate) scenario_encoders_cover)
           "guard_usage_freq" (Scenario.circuit_a, [])).
  - apply list_elem_of_In. simpl. tauto.
  - apply list_elem_of_In. simpl. tauto.
  - intros H. apply list_elem_of_In in H. simpl in H.
    repeat (destruct H as [H|H]; [discriminate|]). done.
  - intros H. apply list_elem_of_In in H. simpl in H.
    repeat (destruct H as [H|H]; [discriminate|]). done.
  - intros H. apply list_elem_of_In in H. simpl in H.
    repeat (destruct H as [H|H]; [discriminate|]). done.
  - intros H. apply list_elem_of_In in H. simpl in H. done.
Defined.

(** ** The service's feature engineering *)

(** The frame [backend/main.py] builds before selecting the model inputs. *)
Lemma service_frame fsqrt g (request : Backend.PredictionRequest) :
  exists DF : columns,
    Backend.engineer_features fsqrt g request
    = for_each (fun name => v ← get_col name DF; Return (name, v))
        (Backend.feature_columns g)
    /\ map fst DF = model_feature_names
    /\ get_col "exit_bandwidth" DF
       = Return (if negb (Qle_bool (Backend.bandwidth request) 0)
                 then Backend.bandwidth request else 13 # 2)%Q
    /\ get_col "bw_ratio_guard_middle" DF = Return ((17 # 2) / (7 + (1 # 1000000)))%Q
    /\ get_col "bw_ratio_guard_exit" DF
       = Return ((17 # 2)
                 / ((if negb (Qle_bool (Backend.bandwidth request) 0)
                     then Backend.bandwidth request else 13 # 2) + (1 # 1000000)))%Q
    /\ get_col "bw_ratio_middle_exit" DF
       = Return (7 / ((if negb (Qle_bool (Backend.bandwidth request) 0)
                       then Backend.bandwidth request else 13 # 2) + (1 # 1000000)))%Q
    /\ get_col "total_bytes" DF
       = Return (if negb (Qle_bool (Backend.bandwidth request) 0)
                 then Backend.bandwidth request * Backend.setup_time request * 1000000
                 else 10000000)%Q
    /\ get_col "middle_fingerprint_encoded" DF
       = Return (Backend.encode_or_sentinel g "middle_fingerprint"
                   (Backend.opt_or (Backend.middle_fingerprint request) "UNKNOWN"))
    /\ get_col "exit_fingerprint_encoded" DF
       = Return (Backend.encode_or_sentinel g "exit_fingerprint"
                   (Backend.exit_fingerprint request))
    /\ get_col "guard_country_encoded" DF
       = Return (Backend.encode_or_sentinel g "guard_country" "US")
    /\ get_col "middle_country_encoded" DF
       = Return (Backend.encode_or_sentinel g "middle_country"
                   (Backend.opt_or (Backend.middle_country request) "Unknown"))
    /\ get_col "exit_country_encoded" DF
       = Return (Backend.encode_or_sentinel g "exit_country"
                   (Backend.exit_country request)).
Proof.
  unfold Backend.engineer_features. cbv zeta.
  eexists. split; [reflexivity|]. repeat split; reflexivity.
Qed.

Lemma select_named_Return (DF : columns) (cols : list string) :
  Forall (fun name => name ∈ map fst DF) cols ->
  exists X, for_each (fun name => v ← get_col name DF; Return (name, v)) cols = Return X
            /\ map fst X = cols.
Proof.
  induction 1 as [|name cols Hname _ (X & HX & Hfst)]; simpl.
  - by exists [].
  - apply get_col_Return_iff in Hname as [v Hv]. rewrite Hv, HX. simpl.
    eexists. split; [done|]. simpl. by rewrite Hfst.
Qed.

Lemma select_named_Raise (DF : columns) (cols : list string) name :
  name ∈ cols -> name ∉ map fst DF ->
  for_each (fun name => v ← get_col name DF; Return (name, v)) cols = Raise KeyError.
Proof.
  intros Hin Hout. apply (for_each_raises _ _ name); [done| |].
  - destruct (get_col name DF) as [e|v] eqn:E.
    + by rewrite (get_col_error _ _ _ E).
    + destruct Hout. apply get_col_Return_iff. by eexists.
  - intros y e'. destruct (get_col y DF) as [e|v] eqn:E; simpl; [|done].
    intros [= <-]. by eapply get_col_error.
Qed.

(** [X13] The service's feature engineering returns exactly when every configured
    feature column is one of the thirty-one columns it builds; the result
    then lists the configured columns in their configured order.  Any other
    configured name makes it raise [KeyError], whatever the request.
    Unseen categorical values and missing encoders never make it fail. *)
Theorem service_engineer_outcome fsqrt g (request : Backend.PredictionRequest) :
  (Forall (fun name => name ∈ model_feature_names) (Backend.feature_columns g) ->
   exists X, Backend.engineer_features fsqrt g request = Return X
             /\ map fst X = Backend.feature_columns g)
  /\ (forall name, name ∈ Backend.feature_columns g -> name ∉ model_feature_names ->
        Backend.engineer_features fsqrt g request = Raise KeyError).
Proof.
  destruct (service_frame fsqrt g request) as (DF & -> & Hnames & _). split.
  - intros Hall. apply select_named_Return. by rewrite Hnames.
  - intros name Hin Hout. apply (select_named_Raise _ _ name); [done|].
    by rewrite Hnames.
Qed.

Lemma service_engineer_outcome_witness :
  exists X, Backend.engineer_features Scenario.sqrt_stub Scenario.deployed
              Scenario.request_unseen = Return X
            /\ map fst X = Backend.feature_columns Scenario.deployed.
Proof.
  apply (proj1 (service_engineer_outcome Scenario.sqrt_stub Scenario.deployed
                  Scenario.request_unseen)).
  vm_compute.
  repeat (constructor; [apply list_elem_of_In; simpl; tauto|]). constructor.
Defined.

(** [X14] For every request whose observed bandwidth is a finite number,
    the service's frame has a positive exit bandwidth (the observed
    bandwidth when it is positive, else the default 6.5), so the three
    bandwidth ratios are positive and no stabilized denominator is zero.
    (The request schema also accepts [inf], which the rational field
    leaves out: the two exit ratios are then [0.0].) *)
Theorem service_bandwidths_positive fsqrt g (request : Backend.PredictionRequest)
  (X : columns) (name : string) (v : Q) :
  Backend.engineer_features fsqrt g request = Return X ->
  name ∈ ["exit_bandwidth"; "bw_ratio_guard_middle"; "bw_ratio_guard_exit";
          "bw_ratio_middle_exit"] ->
  get_col name X = Return v -> (0 < v)%Q.
Proof.
  intros HX Hname Hv.
  destruct (service_frame fsqrt g request)
    as (DF & HDF & Hnames & Heb & Hgm & Hge & Hme & _).
  rewrite HDF in HX.
  assert (name ∈ Backend.feature_columns g) as Hsel.
  { assert (name ∈ map fst X) as HinX by (apply get_col_Return_iff; by eexists).
    destruct (select_named_Return DF (Backend.feature_columns g)) as (X' & HX' & Hfst).
    - apply Forall_forall. intros n Hn.
      destruct (decide (n ∈ map fst DF)) as [|Hout]; [done|].
      by rewrite (select_named_Raise DF _ n Hn Hout) in HX.
    - rewrite HX in HX'. injection HX' as <-. by rewrite <- Hfst. }
  rewrite (select_named_get DF _ X name HX Hsel) in Hv.
  set (eb := (if negb (Qle_bool (Backend.bandwidth request) 0)
              then Backend.bandwidth request else 13 # 2)%Q) in *.
  assert (0 < eb)%Q as Hpos.
  { subst eb. destruct (Qle_bool (Backend.bandwidth request) 0) eqn:E; simpl; [done|].
    by apply Qle_bool_false. }
  assert (0 < eb + (1 # 1000000))%Q as Hden.
  { apply Qlt_trans with eb; [done|]. rewrite <- (Qplus_0_r eb) at 1.
    by apply Qplus_lt_r. }
  apply list_elem_of_In in Hname. simpl in Hname.
  destruct Hname as [<-|[<-|[<-|[<-|[]]]]].
  - rewrite Heb in Hv. by injection Hv as <-.
  - rewrite Hgm in Hv. by injection Hv as <-.
  - rewrite Hge in Hv. injection Hv as <-.
    apply Qlt_shift_div_l; [done|]. by rewrite Qmult_0_l.
  - rewrite Hme in Hv. injection Hv as <-.
    apply Qlt_shift_div_l; [done|]. by rewrite Qmult_0_l.
Qed.

Lemma service_bandwidths_positive_witness :
  (0 < 34000000 # 26000004)%Q.
Proof.
  apply (service_bandwidths_positive Scenario.sqrt_stub Scenario.deployed
           Scenario.request_a Scenario.features_a "bw_ratio_guard_exit").
  - vm_compute. reflexivity.
  - apply list_elem_of_In. simpl. tauto.
  - vm_compute. reflexivity.
Defined.

(** [X15] [encode_or_sentinel] yields [-1] exactly when the column has no encoder
    or the encoder never saw the value; otherwise it yields the
    non-negative position of the value among the fitted classes. *)
Theorem encode_or_sentinel_characterised (g : Backend.Globals) (col v : string) :
  (Backend.encode_or_sentinel g col v = (-1)%Q
   <-> forall le, Backend.encoders g !! col = Some le -> v ∉ LabelEncoder.classes_ le)
  /\ (forall le, Backend.encoders g !! col = Some le -> v ∈ LabelEncoder.classes_ le ->
        exists i, LabelEncoder.classes_ le !! i = Some v
                  /\ Backend.encode_or_sentinel g col v = inject_Z (Z.of_nat i)).
Proof.
  split.
  - split; [|apply encode_or_sentinel_unseen].
    intros Hs le Hle Hin.
    destruct (encode_or_sentinel_seen g col le v Hle Hin) as (i & _ & Hi).
    rewrite Hi in Hs. injection Hs as Hs. lia.
  - intros le. apply encode_or_sentinel_seen.
Qed.

Lemma encode_or_sentinel_characterised_witness :
  exists i, LabelEncoder.classes_
              (LabelEncoder.fit (map exit_country Scenario.corpus)) !! i = Some "FR"
            /\ Backend.encode_or_sentinel Scenario.deployed "exit_country" "FR"
               = inject_Z (Z.of_nat i).
Proof.
  apply (proj2 (encode_or_sentinel_characterised Scenario.deployed "exit_country" "FR")).
  - vm_compute. reflexivity.
  - apply list_elem_of_In. simpl. tauto.
Defined.

(** ** Ranked predictions of the service *)

Lemma get_top_k_predictions_error g probabilities k e :
  Backend.get_top_k_predictions g probabilities k = Raise e -> e = IndexError.
Proof.
  unfold Backend.get_top_k_predictions, getitem.
  destruct (probabilities !! 0) as [row|]; simpl; [|by intros [= <-]].
  intros H. apply for_each_Raise in H as ([r idx] & _ & H). revert H.
  destruct (Backend.guard_fingerprints g !! idx); simpl; [|by intros [= <-]].
  destruct (row !! idx); simpl; [done|by intros [= <-]].
Qed.

(** [X16] [get_top_k_predictions] returns exactly when the probability matrix has
    a first row and every extracted class index has a fingerprint; every
    failure is an [IndexError].  On success the entries follow the
    extracted indices: each carries the fingerprint of its class, and no
    guard is listed twice when the class table has no duplicates; a guard
    without metadata is labelled [GuardNodeNNN], [Unknown], [Unknown]. *)
Theorem get_top_k_predictions_outcome (g : Backend.Globals)
  (probabilities : list (list Q)) (k : Z) :
  (is_Return (Backend.get_top_k_predictions g probabilities k)
   <-> exists row, probabilities !! 0 = Some row
                   /\ forall idx, idx ∈ top_k_indices row k ->
                        idx < length (Backend.guard_fingerprints g))
  /\ (forall e, Backend.get_top_k_predictions g probabilities k = Raise e ->
        e = IndexError)
  /\ (forall row rest preds,
        probabilities = row :: rest ->
        Backend.get_top_k_predictions g probabilities k = Return preds ->
        Forall2 (fun idx p =>
                   Backend.guard_fingerprints g !! idx = Some (Backend.guard_fingerprint p)
                   /\ (Backend.guard_meta g !! Backend.guard_fingerprint p = None ->
                       Backend.guard_nickname p = Backend.guard_node_label idx
                       /\ Backend.guard_address p = "Unknown"
                       /\ Backend.guard_country p = "Unknown"))
          (top_k_indices row k) preds
        /\ (NoDup (Backend.guard_fingerprints g) ->
            NoDup (map Backend.guard_fingerprint preds))).
Proof.
  split; [|split; [apply get_top_k_predictions_error|]].
  - split.
    + intros [preds Hp]. destruct probabilities as [|row rest].
      { by vm_compute in Hp. }
      exists row. split; [done|]. intros idx Hidx.
      apply list_elem_of_lookup in Hidx as [a Ha].
      apply get_top_k_predictions_inv in Hp as [_ Hp].
      destruct (Hp a idx Ha) as (p & _ & _ & _ & Hfp). by eapply lookup_lt_Some.
    + intros (row & Hrow & Hidx). destruct probabilities as [|row' rest]; [done|].
      injection Hrow as ->. unfold Backend.get_top_k_predictions. simpl.
      apply for_each_Return, Forall_forall. intros [r idx] Hri.
      apply elem_of_enumerate_from in Hri as [_ Hri].
      apply list_elem_of_lookup_2 in Hri.
      destruct (getitem_lt (Backend.guard_fingerprints g) idx) as [fp Hfp];
        [by apply Hidx|].
      destruct (getitem_lt row idx) as [c Hc]; [by eapply top_k_indices_bound|].
      rewrite Hfp. simpl. rewrite Hc. simpl. by eexists.
  - intros row rest preds -> Hp.
    assert (Forall2 (fun idx p =>
                   Backend.guard_fingerprints g !! idx = Some (Backend.guard_fingerprint p)
                   /\ (Backend.guard_meta g !! Backend.guard_fingerprint p = None ->
                       Backend.guard_nickname p = Backend.guard_node_label idx
                       /\ Backend.guard_address p = "Unknown"
                       /\ Backend.guard_country p = "Unknown"))
              (top_k_indices row k) preds) as Hall.
    { revert Hp. unfold Backend.get_top_k_predictions. simpl.
      generalize (top_k_indices row k) 1. intros top. revert preds.
      induction top as [|idx top IH]; intros preds start; simpl.
      - intros [= <-]. constructor.
      - destruct (getitem (Backend.guard_fingerprints g) idx) as [|fp] eqn:Efp; [done|].
        simpl. destruct (getitem row idx) as [|c]; [done|]. simpl.
        destruct (for_each _ (enumerate_from (S start) top)) as [|ps] eqn:Eps; [done|].
        intros [= <-]. constructor; [|by eapply IH].
        simpl. apply getitem_Some in Efp. split; [done|]. by intros ->. }
    split; [done|]. intros Hnd. clear Hp.
    pose proof (top_k_indices_NoDup row k) as Htop.
    revert Hall Htop. generalize (top_k_indices row k). intros top Hall.
    induction Hall as [|idx p top preds [Hfp _] Hrest IH]; intros Htop; cbn [map];
      [constructor|].
    apply NoDup_cons in Htop as [Hidx Htop]. apply NoDup_cons. split; [|by apply IH].
    intros Hin. apply list_elem_of_In, in_map_iff in Hin as (q & Hq & Hqin).
    apply list_elem_of_In, list_elem_of_lookup in Hqin as [b Hb].
    destruct (Forall2_lookup_r _ _ _ _ _ Hrest Hb) as (idx' & Hidx' & [Hfp' _]).
    rewrite Hq in Hfp'.
    pose proof (NoDup_lookup _ _ _ _ Hnd Hfp Hfp') as ->.
    apply Hidx. by eapply list_elem_of_lookup_2.
Qed.

Lemma get_top_k_predictions_outcome_witness :
  exists row, [[3 # 10; 7 # 10]%Q] !! 0 = Some row
              /\ forall idx, idx ∈ top_k_indices row 10 ->
                   idx < length (Backend.guard_fingerprints Scenario.deployed).
Proof.
  apply (proj1 (proj1 (get_top_k_predictions_outcome Scenario.deployed
                         [[3 # 10; 7 # 10]%Q] 10))).
  eexists. vm_compute. reflexivity.
Defined.

(** ** The explainability block *)

Lemma collect_importance_spec dict (X : columns) i cols entries :
  Backend.collect_importance dict X i cols = Return entries ->
  map Backend.scored_feature entries `sublist_of` cols
  /\ Forall (fun e =>
               exists j, cols !! j = Some (Backend.scored_feature e)
                         /\ Backend.scored_importance e
                            = default 0%Q (dict !! ("f" ++ pretty (i + j)%nat)%string)
                         /\ get_col (Backend.scored_feature e) X
                            = Return (Backend.scored_value e))
       entries.
Proof.
  revert i entries. induction cols as [|col cols IH]; intros i entries; simpl.
  - intros [= <-]. split; constructor.
  - assert (forall rest, Backend.collect_importance dict X (S i) cols = Return rest ->
              Forall (fun e =>
                        exists j, (col :: cols) !! j = Some (Backend.scored_feature e)
                                  /\ Backend.scored_importance e
                                     = default 0%Q
                                         (dict !! ("f" ++ pretty (i + j)%nat)%string)
                                  /\ get_col (Backend.scored_feature e) X
                                     = Return (Backend.scored_value e)) rest) as Hshift.
    { intros rest Hrest. destruct (IH _ _ Hrest) as [_ Hall].
      eapply Forall_impl; [exact Hall|]. intros e (j & Hj & Himp & Hval).
      exists (S j). split; [done|]. split; [|done].
      by replace (i + S j) with (S i + j) by lia. }
    destruct (negb _) eqn:E.
    + destruct (get_col col X) as [|v] eqn:Ev; [done|]. simpl.
      destruct (Backend.collect_importance dict X (S i) cols) as [|rest] eqn:Er; [done|].
      simpl. intros [= <-]. destruct (IH _ _ Er) as [Hsub _]. split.
      * simpl. by apply sublist_skip.
      * constructor; [|by apply Hshift]. exists 0. simpl.
        rewrite Nat.add_0_r. done.
    + intros Hrest. destruct (IH _ _ Hrest) as [Hsub _]. split.
      * by apply sublist_cons.
      * by apply Hshift.
Qed.

Lemma collect_importance_error dict (X : columns) i cols e :
  Backend.collect_importance dict X i cols = Raise e -> e = KeyError.
Proof.
  revert i. induction cols as [|col cols IH]; intros i; simpl; [done|].
  destruct (negb _); [|apply IH].
  destruct (get_col col X) as [e'|v] eqn:Ev; simpl.
  - intros [= <-]. by eapply get_col_error.
  - destruct (Backend.collect_importance dict X (S i) cols) eqn:Er; simpl; [|done].
    intros [= <-]. by eapply IH.
Qed.

Lemma get_feature_importance_length (g : Backend.Globals) (m : Model)
  (X : columns) (top_n : Z) (res : list Backend.FeatureImportance) :
  Backend.get_feature_importance g m X top_n = Return res ->
  (0 <= top_n)%Z -> length res <= Z.to_nat top_n.
Proof.
  unfold Backend.get_feature_importance.
  destruct (Backend.collect_importance _ _ _ _) as [e'|entries]; simpl; [done|].
  intros [= <-] Hn. rewrite length_map, slice_to_nonneg, length_take by done. lia.
Qed.

(** [X17] The explainability block never has more than [top_n] entries (for a
    non-negative [top_n]); its importances are in non-increasing order;
    every entry is a configured feature column whose raw importance in the
    booster's dictionary is positive, reported with that column's value in
    the feature row; no column is reported twice when the configured
    columns are distinct; and the only possible failure is the [KeyError]
    of a positively scored column without a value. *)
Theorem get_feature_importance_selection (g : Backend.Globals) (m : Model)
  (X : columns) (top_n : Z) :
  (forall e, Backend.get_feature_importance g m X top_n = Raise e -> e = KeyError)
  /\ forall res, Backend.get_feature_importance g m X top_n = Return res ->
       ((0 <= top_n)%Z -> length res <= Z.to_nat top_n)
       /\ StronglySorted (fun a b => Backend.importance b <= Backend.importance a)%Q res
       /\ Forall (fun f =>
                    exists i, Backend.feature_columns g !! i = Some (Backend.feature f)
                              /\ (0 < default 0 (get_score m !! ("f" ++ pretty i)%string))%Q
                              /\ get_col (Backend.feature f) X = Return (Backend.value f))
            res
       /\ (NoDup (Backend.feature_columns g) -> NoDup (map Backend.feature res)).
Proof.
  unfold Backend.get_feature_importance. split.
  - intros e.
    destruct (Backend.collect_importance _ _ _ _) as [e'|entries] eqn:E; simpl; [|done].
    intros [= <-]. by eapply collect_importance_error.
  - intros res.
    destruct (Backend.collect_importance _ _ _ _) as [e'|entries] eqn:E; simpl; [done|].
    pose proof (collect_importance_positive _ _ _ _ _ E) as Hpos.
    destruct (collect_importance_spec _ _ _ _ _ E) as [Hsub Hspec].
    destruct (selected_features_facts entries top_n Hpos) as (Hsorted & Htoppos & _).
    set (top := slice_to top_n (Backend.sort_by_importance entries)) in *.
    set (mx := match map Backend.scored_importance top with
               | [] => 1%Q
               | x :: l => Backend.list_max x l
               end).
    intros [= <-].
    assert (top ⊆ entries) as Hincl.
    { intros e He. subst top.
      destruct (slice_to_prefix top_n (Backend.sort_by_importance entries)) as [n Hn].
      rewrite Hn in He. apply subseteq_take in He.
      by rewrite sort_by_importance_perm in He. }
    assert (forall e, e ∈ top -> 0 < mx)%Q as Hmx.
    { intros e He. subst mx. destruct top as [|s rest] eqn:Etop.
      { by apply elem_of_nil in He. }
      simpl. apply StronglySorted_cons in Hsorted as [Hs _].
      rewrite list_max_head.
      - apply Forall_cons in Htoppos as [H0 _]. exact H0.
      - apply Forall_forall. intros q Hq.
        apply list_elem_of_In, in_map_iff in Hq as (e' & <- & He').
        rewrite Forall_forall in Hs. apply Hs. by apply list_elem_of_In. }
    split; [|split; [|split]].
    + intros Hn. rewrite length_map. subst top.
      rewrite slice_to_nonneg, length_take by done. lia.
    + clearbody mx. clear Hincl Htoppos.
      induction Hsorted as [|s rest Hrest IH Hs]; simpl; constructor.
      * apply IH. intros e He. apply (Hmx e). by right.
      * apply Forall_forall. intros f Hf.
        apply list_elem_of_In, in_map_iff in Hf as (s' & <- & Hs'). simpl.
        rewrite Forall_forall in Hs. apply list_elem_of_In in Hs'.
        apply Qmult_le_compat_r; [by apply Hs|].
        apply Qlt_le_weak, Qinv_lt_0_compat, (Hmx s). left.
    + apply Forall_forall. intros f Hf.
      apply list_elem_of_In, in_map_iff in Hf as (s & <- & Hs). simpl.
      apply list_elem_of_In, Hincl in Hs.
      rewrite Forall_forall in Hspec, Hpos.
      destruct (Hspec s Hs) as (j & Hj & Himp & Hval).
      exists j. split; [done|]. split; [|done].
      specialize (Hpos s Hs). simpl in Hpos. rewrite Himp in Hpos. exact Hpos.
    + intros Hnd. rewrite map_map. simpl.
      assert (NoDup (map Backend.scored_feature entries)) as Hentries
        by (by eapply sublist_NoDup).
      assert (NoDup (map Backend.scored_feature (Backend.sort_by_importance entries)))
        as Hsortnd.
      { eapply NoDup_Permutation_proper; [|exact Hentries].
        apply (fmap_Permutation Backend.scored_feature), sort_by_importance_perm. }
      subst top.
      destruct (slice_to_prefix top_n (Backend.sort_by_importance entries)) as [n ->].
      apply (sublist_NoDup _ _ Hsortnd).
      change (map Backend.scored_feature ?l) with (Backend.scored_feature <$> l).
      rewrite fmap_take. apply sublist_take.
Qed.

Lemma get_feature_importance_selection_witness :
  exists res,
    Backend.get_feature_importance Scenario.deployed Scenario.model
      Scenario.features_a 2 = Return res
    /\ length res <= Z.to_nat 2.
Proof.
  destruct (Backend.get_feature_importance Scenario.deployed Scenario.model
              Scenario.features_a 2) as [e|res] eqn:Hres.
  { vm_compute in Hres. discriminate. }
  exists res. split; [reflexivity|].
  apply (proj1 (proj2 (get_feature_importance_selection Scenario.deployed
                         Scenario.model Scenario.features_a 2) res Hres)).
  lia.
Defined.

(** ** The prediction endpoint *)

Lemma predictions_ranks_confidences g row rest k preds :
  Backend.get_top_k_predictions g (row :: rest) k = Return preds ->
  length preds = length (top_k_indices row k)
  /\ map Backend.rank preds = seq 1 (length (top_k_indices row k))
  /\ map Backend.confidence preds = map (prob row) (top_k_indices row k).
Proof.
  intros Hp. apply get_top_k_predictions_inv in Hp as [Hlen Hp].
  split; [done|]. split.
  - apply list_eq. intros a. rewrite lookup_map.
    destruct (top_k_indices row k !! a) as [i|] eqn:Ea.
    + destruct (Hp a i Ea) as (p & -> & Hr & _). simpl. rewrite Hr.
      apply lookup_lt_Some in Ea. by rewrite lookup_seq_lt.
    + apply lookup_ge_None in Ea.
      rewrite (proj2 (lookup_ge_None preds a)) by lia.
      simpl. symmetry. by apply lookup_seq_ge.
  - apply list_eq. intros a. rewrite !lookup_map.
    destruct (top_k_indices row k !! a) as [i|] eqn:Ea; simpl.
    + destruct (Hp a i Ea) as (p & -> & _ & Hc & _). simpl. by rewrite Hc.
    + apply lookup_ge_None in Ea.
      by rewrite (proj2 (lookup_ge_None preds a)) by lia.
Qed.

Lemma selected_row_has_columns (DF : columns) (cols : list string) (X : columns) :
  for_each (fun name => v ← get_col name DF; Return (name, v)) cols = Return X ->
  Forall (fun col => is_Return (get_col col X)) cols.
Proof.
  intros HX. apply Forall_forall. intros name Hname.
  rewrite (select_named_get DF cols X name HX Hname).
  apply list_elem_of_lookup in Hname as [i Hi].
  destruct (for_each_lookup _ _ _ _ _ HX Hi) as (y & Hy & _).
  destruct (get_col name DF); [done|by eexists].
Qed.

(** [X18] The endpoint answers 503 exactly when no model is loaded.  With a
    model loaded, feature columns among the thirty-one built columns, and
    a classifier that returns at least one probability row no wider than
    the fingerprint table, it answers 200 whatever the request: at most
    ten predictions (as many as the row has classes, up to ten), ranked 1,
    2, ... with the probabilities of the extracted classes, at most five
    explained features, and the number of configured features.  A
    configured column the service does not build gives 500 ([KeyError]),
    and an empty probability matrix gives 500 ([IndexError]). *)
Theorem predict_guard_nodes_outcome fsqrt (g : Backend.Globals)
  (request : Backend.PredictionRequest) :
  (Backend.model g = None <-> Backend.predict_guard_nodes fsqrt g request = Backend.Http503)
  /\ (forall m,
        Backend.model g = Some m ->
        Forall (fun name => name ∈ model_feature_names) (Backend.feature_columns g) ->
        (forall x, exists row rest,
            predict_proba m [x] = row :: rest
            /\ length row <= length (Backend.guard_fingerprints g)) ->
        exists resp X row rest,
          Backend.engineer_features fsqrt g request = Return X
          /\ predict_proba m [map snd X] = row :: rest
          /\ Backend.predict_guard_nodes fsqrt g request = Backend.Http200 resp
          /\ length (Backend.predictions resp) = Nat.min 10 (length row)
          /\ map Backend.rank (Backend.predictions resp)
             = seq 1 (Nat.min 10 (length row))
          /\ map Backend.confidence (Backend.predictions resp)
             = map (prob row) (top_k_indices row 10)
          /\ length (Backend.top_features resp) <= 5
          /\ Backend.total_features resp = length (Backend.feature_columns g))
  /\ (forall m name,
        Backend.model g = Some m ->
        name ∈ Backend.feature_columns g -> name ∉ model_feature_names ->
        Backend.predict_guard_nodes fsqrt g request = Backend.Http500 KeyError)
  /\ (forall m,
        Backend.model g = Some m ->
        Forall (fun name => name ∈ model_feature_names) (Backend.feature_columns g) ->
        (forall x, predict_proba m [x] = []) ->
        Backend.predict_guard_nodes fsqrt g request = Backend.Http500 IndexError).
Proof.
  unfold Backend.predict_guard_nodes. split; [|split; [|split]].
  - destruct (Backend.model g) as [m|]; [|done]. split; [done|].
    destruct (_ ≫= _); discriminate.
  - intros m -> Hknown Hmodel.
    destruct (service_frame fsqrt g request) as (DF & HDF & Hnames & _).
    destruct (select_named_Return DF (Backend.feature_columns g)) as (X & HX & Hfst);
      [by rewrite Hnames|].
    rewrite HDF, HX. cbn [mbind result_bind].
    destruct (Hmodel (map snd X)) as (row & rest & Hrow & Hwidth). rewrite Hrow.
    destruct (get_top_k_predictions_Return g row rest 10 Hwidth) as [preds Hpreds].
    rewrite Hpreds. cbn [mbind result_bind].
    pose proof (selected_row_has_columns _ _ _ HX) as Hcols.
    destruct (Backend.get_feature_importance g m X 5) as [e|tf] eqn:Etf.
    { unfold Backend.get_feature_importance in Etf.
      destruct (collect_importance_Return (get_score m) X 0 _ Hcols) as [en Hen].
      by rewrite Hen in Etf. }
    cbn [mbind result_bind mret result_ret].
    destruct (predictions_ranks_confidences _ _ _ _ _ Hpreds) as (Hlen & Hranks & Hconf).
    rewrite top_k_indices_length in Hlen, Hranks by lia.
    eexists _, X, row, rest. split; [done|]. split; [done|]. split; [done|]. simpl.
    split; [exact Hlen|]. split; [exact Hranks|]. split; [exact Hconf|].
    split; [|done].
    apply (get_feature_importance_length g m X 5 tf Etf). lia.
  - intros m name -> Hin Hout.
    destruct (service_frame fsqrt g request) as (DF & HDF & Hnames & _).
    rewrite HDF, (select_named_Raise DF _ name Hin) by (by rewrite Hnames). done.
  - intros m -> Hknown Hempty.
    destruct (service_frame fsqrt g request) as (DF & HDF & Hnames & _).
    destruct (select_named_Return DF (Backend.feature_columns g)) as (X & HX & Hfst);
      [by rewrite Hnames|].
    rewrite HDF, HX. cbn [mbind result_bind].
    by rewrite Hempty.
Qed.

Lemma predict_guard_nodes_outcome_witness :
  exists resp,
    Backend.predict_guard_nodes Scenario.sqrt_stub Scenario.deployed
      Scenario.request_unseen = Backend.Http200 resp
    /\ length (Backend.predictions resp) = 2
    /\ map Backend.rank (Backend.predictions resp) = [1; 2].
Proof.
  destruct (predict_guard_nodes_outcome Scenario.sqrt_stub Scenario.deployed
              Scenario.request_unseen) as (_ & Hok & _).
  destruct (Hok Scenario.model eq_refl) as (resp & X & row & rest & HX & Hrow & Hresp & Hlen & Hranks & _).
  - vm_compute.
    repeat (constructor; [apply list_elem_of_In; simpl; tauto|]). constructor.
  - intros x. exists [3 # 10; 7 # 10]%Q, []. split; [reflexivity|]. vm_compute. lia.
  - exists resp. simpl in Hrow. injection Hrow as <- <-.
    split; [exact Hresp|]. split; [exact Hlen|exact Hranks].
Defined.

(** ** Relay metadata *)

Lemma str_or_nonempty (x d : string) : d <> "" -> str_or x d <> "".
Proof. intros Hd. unfold str_or. by destruct (decide (x = "")). Qed.

Lemma str_or_id (x d : string) : x <> "" -> str_or x d = x.
Proof. intros Hx. unfold str_or. by rewrite decide_False. Qed.

Lemma meta_entry_nonempty fp nickname address country :
  Backend.meta_nickname (LoadModel.meta_entry fp nickname address country) <> ""
  /\ Backend.meta_address (LoadModel.meta_entry fp nickname address country) <> ""
  /\ Backend.meta_country (LoadModel.meta_entry fp nickname address country) <> "".
Proof. simpl. repeat split; by apply str_or_nonempty. Qed.

Lemma insert_well_formed guard_meta fp nickname address country :
  meta_well_formed guard_meta -> String.length fp = 40 ->
  meta_well_formed (<[fp := LoadModel.meta_entry fp nickname address country]> guard_meta).
Proof.
  intros Hwf Hlen fp' mt. rewrite lookup_insert. case_decide as Heq.
  - intros [= <-]. subst fp'. split; [done|]. apply meta_entry_nonempty.
  - apply Hwf.
Qed.

Lemma load_header_row_well_formed st row :
  meta_well_formed (fst st) -> meta_well_formed (fst (LoadModel.load_header_row st row)).
Proof.
  intros Hwf. unfold LoadModel.load_header_row. cbv zeta.
  case_decide; [|done]. simpl. by apply insert_well_formed.
Qed.

Lemma load_plain_row_well_formed st row :
  meta_well_formed (fst st) -> meta_well_formed (fst (LoadModel.load_plain_row st row)).
Proof.
  intros Hwf. unfold LoadModel.load_plain_row. cbv zeta.
  case_decide; [done|]. case_decide; [|done]. simpl. by apply insert_well_formed.
Qed.

Lemma foldl_invariant {A B : Type} (P : A -> Prop) (f : A -> B -> A) (l : list B) (a : A) :
  (forall a b, P a -> P (f a b)) -> P a -> P (foldl f a l).
Proof. intros Hf. revert a. induction l as [|b l IH]; intros a Ha; simpl; auto. Qed.

Lemma load_metadata_well_formed guard_meta has_header dict_rows plain_rows :
  meta_well_formed guard_meta ->
  meta_well_formed (fst (LoadModel.load_metadata guard_meta has_header dict_rows plain_rows)).
Proof.
  intros Hwf. unfold LoadModel.load_metadata. destruct has_header.
  - apply (foldl_invariant (fun st => meta_well_formed (fst st))); [|done].
    intros st row. apply load_header_row_well_formed.
  - apply (foldl_invariant (fun st => meta_well_formed (fst st))); [|done].
    intros st row. apply load_plain_row_well_formed.
Qed.

Lemma load_metadata_counts guard_meta has_header dict_rows plain_rows :
  size (fst (LoadModel.load_metadata guard_meta has_header dict_rows plain_rows))
  <= size guard_meta
     + snd (LoadModel.load_metadata guard_meta has_header dict_rows plain_rows).
Proof.
  unfold LoadModel.load_metadata.
  assert (forall (m : gmap string Backend.GuardMeta) fp mt,
            size (<[fp := mt]> m) <= S (size m)) as Hins.
  { intros m fp mt. destruct (m !! fp) as [old|] eqn:E.
    - rewrite <- (insert_delete_id m fp old E) at 2.
      rewrite <- insert_delete_eq, !map_size_insert_None by apply lookup_delete_eq. lia.
    - by rewrite map_size_insert_None. }
  destruct has_header.
  - apply (foldl_invariant (fun st => size (fst st) <= size guard_meta + snd st));
      [|simpl; lia].
    intros st row Hst. unfold LoadModel.load_header_row. cbv zeta.
    case_decide; [|done]. simpl. etransitivity; [apply Hins|]. lia.
  - apply (foldl_invariant (fun st => size (fst st) <= size guard_meta + snd st));
      [|simpl; lia].
    intros st row Hst. unfold LoadModel.load_plain_row. cbv zeta.
    case_decide; [done|]. case_decide; [|done]. simpl.
    etransitivity; [apply Hins|]. lia.
Qed.

(** [X19] Loading metadata into an empty table, from either file layout, stores
    only entries keyed by a 40-character fingerprint with a non-empty
    nickname, address and country, and never more entries than the rows
    it counted as loaded.  Served from such a table, every prediction whose
    guard has an entry shows the stored nickname, address and country
    verbatim: the placeholder labels are used only for guards without an
    entry. *)
Theorem loaded_metadata_is_shown_verbatim (has_header : bool)
  (dict_rows : list (gmap string string)) (plain_rows : list (list string))
  (g : Backend.Globals) (probabilities : list (list Q)) (k : Z)
  (preds : list Backend.GuardPrediction) :
  let loaded := LoadModel.load_metadata ∅ has_header dict_rows plain_rows in
  meta_well_formed (fst loaded)
  /\ size (fst loaded) <= snd loaded
  /\ (Backend.guard_meta g = fst loaded ->
      Backend.get_top_k_predictions g probabilities k = Return preds ->
      Forall (fun p =>
                forall mt, fst loaded !! Backend.guard_fingerprint p = Some mt ->
                  Backend.guard_nickname p = Backend.meta_nickname mt
                  /\ Backend.guard_address p = Backend.meta_address mt
                  /\ Backend.guard_country p = Backend.meta_country mt)
        preds).
Proof.
  intros loaded.
  assert (meta_well_formed (fst loaded)) as Hwf.
  { apply load_metadata_well_formed. intros fp mt H. by rewrite lookup_empty in H. }
  split; [done|]. split.
  { pose proof (load_metadata_counts ∅ has_header dict_rows plain_rows) as H.
    rewrite map_size_empty in H. exact H. }
  intros Hg. unfold Backend.get_top_k_predictions.
  destruct (getitem probabilities 0) as [|row]; [done|]. simpl.
  generalize (enumerate_from 1 (top_k_indices row k)). intros l. revert preds.
  induction l as [|[r idx] l IH]; intros preds; simpl.
  - intros [= <-]. constructor.
  - destruct (getitem (Backend.guard_fingerprints g) idx) as [|fp]; [done|]. simpl.
    destruct (getitem row idx) as [|c]; [done|]. simpl.
    destruct (for_each _ l) as [|ps] eqn:Eps; [done|].
    intros [= <-]. constructor; [|by apply IH].
    simpl. intros mt Hmt. rewrite Hg, Hmt. simpl.
    destruct (Hwf fp mt Hmt) as (_ & Hn & Ha & Hc).
    by rewrite !str_or_id.
Qed.

Lemma loaded_metadata_is_shown_verbatim_witness :
  exists p, Backend.get_top_k_predictions Startup.deployment [[1%Q]] 10 = Return [p]
            /\ Backend.guard_nickname p = "relayA"
            /\ Backend.guard_address p = "Unknown"
            /\ Backend.guard_country p = "Unknown".
Proof.
  destruct (Backend.get_top_k_predictions Startup.deployment [[1%Q]] 10)
    as [e|preds] eqn:E.
  { vm_compute in E. discriminate. }
  destruct (loaded_metadata_is_shown_verbatim true [Startup.csv_row] []
              Startup.deployment [[1%Q]] 10 preds) as (_ & _ & H).
  specialize (H eq_refl E).
  assert (map Backend.guard_fingerprint preds = [Startup.fingerprint]) as Hfp.
  { vm_compute in E. injection E as <-. reflexivity. }
  destruct preds as [|p [|? ?]]; try discriminate.
  injection Hfp as Hfp. apply Forall_cons in H as [H _].
  destruct (H (LoadModel.meta_entry Startup.fingerprint "relayA" "" "")) as (Hn & Ha & Hc).
  { rewrite Hfp. vm_compute. reflexivity. }
  exists p. split; [reflexivity|]. split; [exact Hn|]. split; [exact Ha|exact Hc].
Defined.

(** ** The synthetic topology *)

Lemma mk_nodes_spec {rng : Type} (choice : list string -> rng -> string * rng)
  (uniform : Q -> Q -> rng -> Q * rng) (round : Q -> nat -> Q)
  (fps : list string) (r : Topology.NodeType) (st : rng) :
  map Topology.id (fst (Topology.mk_nodes choice uniform round fps r st)) = fps
  /\ map Topology.role (fst (Topology.mk_nodes choice uniform round fps r st))
     = replicate (length fps) r.
Proof.
  revert st. induction fps as [|fp fps IH]; intros st; simpl; [done|].
  unfold Topology.mk_node.
  destruct (choice _ st) as [c st1]. destruct (uniform _ _ st1) as [b st2].
  destruct (IH st2) as [Hid Hrole].
  destruct (Topology.mk_nodes choice uniform round fps r st2) as [ns st3].
  simpl in *. by rewrite Hid, Hrole.
Qed.

Lemma mk_links_endpoints {rng : Type} (uniform : Q -> Q -> rng -> Q * rng)
  (round : Q -> nat -> Q) (f h : string -> string) (gs : list string) (st : rng) :
  map (fun lk => (Topology.source lk, Topology.target lk))
    (fst (Topology.mk_links uniform round gs (map f gs) (map h gs) st))
  = gs ≫= (fun g => [(g, f g); (f g, h g)]).
Proof.
  revert st. induction gs as [|g gs IH]; intros st; simpl; [done|].
  destruct (uniform _ _ st) as [w1 st1]. destruct (uniform _ _ st1) as [l1 st2].
  destruct (uniform _ _ st2) as [w2 st3]. destruct (uniform _ _ st3) as [l2 st4].
  specialize (IH st4).
  destruct (Topology.mk_links uniform round gs (map f gs) (map h gs) st4) as [ls st5].
  simpl in *. by rewrite IH.
Qed.

Lemma degree_map_step (k : string) (d : gmap string nat) (links : list Topology.TopologyLink) :
  default 0 (foldl (fun d lk => Topology.bump (Topology.target lk)
                                  (Topology.bump (Topology.source lk) d)) d links !! k)
  = default 0 (d !! k) + Topology.endpoint_count k links.
Proof.
  revert d. induction links as [|lk links IH]; intros d.
  - unfold Topology.endpoint_count. simpl. lia.
  - cbn [foldl]. rewrite IH. unfold Topology.endpoint_count, Topology.bump.
    rewrite !filter_cons.
    destruct (decide (Topology.target lk = k)) as [Ht|Ht],
             (decide (Topology.source lk = k)) as [Hs|Hs];
      rewrite ?Ht, ?Hs; simplify_map_eq; simpl; try lia.
Qed.

Lemma degree_map_count (k : string) (links : list Topology.TopologyLink) :
  default 0 (Topology.degree_map links !! k) = Topology.endpoint_count k links.
Proof. unfold Topology.degree_map. by rewrite degree_map_step, lookup_empty. Qed.

Lemma filter_length_pos {A : Type} (P : A -> Prop) `{!forall x, Decision (P x)}
  (l : list A) (x : A) : x ∈ l -> P x -> 1 <= length (filter P l).
Proof.
  intros Hx HP. assert (x ∈ filter P l) as Hin by (by apply list_elem_of_filter).
  destruct (filter P l); [by apply elem_of_nil in Hin|simpl; lia].
Qed.

Lemma endpoint_link (ends : string * string) (links : list Topology.TopologyLink) :
  ends ∈ map (fun lk => (Topology.source lk, Topology.target lk)) links ->
  1 <= length (filter (fun lk => Topology.source lk = fst ends) links)
  /\ 1 <= length (filter (fun lk => Topology.target lk = snd ends) links).
Proof.
  intros H. apply list_elem_of_In, in_map_iff in H as (lk & <- & Hlk).
  apply list_elem_of_In in Hlk.
  split; by apply (filter_length_pos _ _ lk).
Qed.

Lemma generate_topology_shape {rng : Type}
  (sample : list string -> nat -> rng -> list string * rng)
  (choice : list string -> rng -> string * rng)
  (uniform : Q -> Q -> rng -> Q * rng) (round : Q -> nat -> Q)
  (guard_fingerprints : option (list string)) (limit : Z) (st : rng) :
  (forall population k st, k <= length population ->
     length (fst (sample population k st)) = k) ->
  let fingerprints := default Topology.fake_fingerprints guard_fingerprints in
  let s := Nat.min (Z.to_nat (Z.max 10 (limit / 3))) (length fingerprints) in
  let topo := fst (Topology.generate_topology sample choice uniform round
                     guard_fingerprints limit st) in
  exists sg,
    length sg = s
    /\ map Topology.id (Topology.nodes topo) = sg ++ map Topology.middle_of sg ++ map Topology.exit_of sg
    /\ map Topology.role (Topology.nodes topo)
       = replicate s Topology.guard ++ replicate s Topology.middle
         ++ replicate s Topology.exit
    /\ map (fun lk => (Topology.source lk, Topology.target lk)) (Topology.links topo)
       = sg ≫= (fun g => [(g, Topology.middle_of g); (Topology.middle_of g, Topology.exit_of g)])
    /\ Forall (fun n => Topology.degree n
                        = Topology.endpoint_count (Topology.id n) (Topology.links topo))
         (Topology.nodes topo)
    /\ Topology.node_count topo = length (Topology.nodes topo)
    /\ Topology.link_count topo = length (Topology.links topo).
Proof.
  intros Hsample fingerprints s topo. subst topo. unfold Topology.generate_topology.
  fold fingerprints.
  replace (Z.to_nat (Z.min (Z.max 10 (limit / 3)) (Z.of_nat (length fingerprints))))
    with s by (subst s; lia).
  pose proof (Hsample fingerprints s st ltac:(subst s; lia)) as Hlen.
  destruct (sample fingerprints s st) as [sg st1]. simpl in Hlen.
  rewrite (take_ge sg s) by lia.
  destruct (mk_nodes_spec choice uniform round sg Topology.guard st1) as [Hg1 Hg2].
  destruct (Topology.mk_nodes choice uniform round sg Topology.guard st1) as [guards st2].
  destruct (mk_nodes_spec choice uniform round (map Topology.middle_of sg) Topology.middle st2)
    as [Hm1 Hm2].
  destruct (Topology.mk_nodes choice uniform round (map Topology.middle_of sg) Topology.middle st2)
    as [middles st3].
  destruct (mk_nodes_spec choice uniform round (map Topology.exit_of sg) Topology.exit st3)
    as [He1 He2].
  destruct (Topology.mk_nodes choice uniform round (map Topology.exit_of sg) Topology.exit st3)
    as [exits st4].
  pose proof (mk_links_endpoints uniform round Topology.middle_of Topology.exit_of sg st4) as Hl.
  destruct (Topology.mk_links uniform round sg (map Topology.middle_of sg) (map Topology.exit_of sg) st4)
    as [links st5].
  simpl in *. rewrite !length_map in *. rewrite Hlen in *.
  exists sg. split; [done|].
  split.
  { rewrite map_map, (map_ext _ Topology.id) by done.
    by rewrite !map_app, Hg1, Hm1, He1. }
  split.
  { rewrite map_map, (map_ext _ Topology.role) by done.
    by rewrite !map_app, Hg2, Hm2, He2. }
  split; [done|]. split; [|done].
  apply Forall_forall. intros n Hn.
  apply list_elem_of_In, in_map_iff in Hn as (n0 & <- & _). simpl.
  apply degree_map_count.
Qed.

(** [X20] [GET /api/topology] rejects a limit below 10 or above 150 with status
    400.  Otherwise, provided [random.sample] returns as many relays as
    asked, it answers with [s] guard nodes, then [s] middle nodes, then
    [s] exit nodes and [2 * s] links, where [s] is the smaller of
    [max(10, limit // 3)] and the number of known guards (200 stand-ins
    before the model is loaded); the announced counts are the lengths of
    the lists.  The node count never exceeds [max(30, limit)], and for a
    limit below 30 with at least ten known guards it is 30: more nodes
    than the limit asked for. *)
Theorem topology_endpoint_size {rng : Type}
  (sample : list string -> nat -> rng -> list string * rng)
  (choice : list string -> rng -> string * rng)
  (uniform : Q -> Q -> rng -> Q * rng) (round : Q -> nat -> Q)
  (guard_fingerprints : option (list string)) (limit : Z) (st : rng) :
  (forall population k st, k <= length population ->
     length (fst (sample population k st)) = k) ->
  let known := match guard_fingerprints with Some l => length l | None => 200 end in
  let s := Nat.min (Z.to_nat (Z.max 10 (limit / 3))) known in
  ((limit < 10)%Z ->
   Topology.topology sample choice uniform round guard_fingerprints limit st
   = Topology.Http400 "limit must be >= 10")
  /\ ((150 < limit)%Z ->
      Topology.topology sample choice uniform round guard_fingerprints limit st
      = Topology.Http400 "limit too large for demo (<=150)")
  /\ ((10 <= limit <= 150)%Z ->
      exists topo,
        Topology.topology sample choice uniform round guard_fingerprints limit st
        = Topology.Http200 topo
        /\ Topology.node_count topo = 3 * s
        /\ Topology.link_count topo = 2 * s
        /\ length (Topology.nodes topo) = 3 * s
        /\ length (Topology.links topo) = 2 * s
        /\ map Topology.role (Topology.nodes topo)
           = replicate s Topology.guard ++ replicate s Topology.middle
             ++ replicate s Topology.exit
        /\ (Z.of_nat (Topology.node_count topo) <= Z.max 30 limit)%Z
        /\ ((limit < 30)%Z -> 10 <= known -> Topology.node_count topo = 30)).
Proof.
  intros Hsample known s. unfold Topology.topology.
  split; [intros H; by rewrite decide_True by lia|].
  split; [intros H; rewrite decide_False, decide_True by lia; done|].
  intros Hlim. rewrite !decide_False by lia. eexists. split; [reflexivity|].
  destruct (generate_topology_shape sample choice uniform round guard_fingerprints
              limit st Hsample) as (sg & Hlen & Hids & Hroles & Hends & _ & Hnc & Hlc).
  assert (length (default Topology.fake_fingerprints guard_fingerprints) = known) as Hk.
  { subst known. destruct guard_fingerprints; reflexivity. }
  rewrite Hk in Hlen, Hroles. fold s in Hlen, Hroles.
  set (topo := fst (Topology.generate_topology _ _ _ _ _ _ _)) in *.
  assert (length (Topology.nodes topo) = 3 * s) as Hn.
  { rewrite <- (length_map Topology.role), Hroles, !length_app, !length_replicate. lia. }
  assert (length (Topology.links topo) = 2 * s) as Hl.
  { rewrite <- (length_map (fun lk => (Topology.source lk, Topology.target lk))), Hends.
    rewrite <- Hlen. clear. induction sg as [|g sg IH]; [done|].
    rewrite bind_cons, length_app, IH. simpl. lia. }
  rewrite Hnc, Hlc, Hn, Hl. repeat split; try done.
  - assert (limit / 3 <= 50)%Z by (apply Z.div_le_upper_bound; lia).
    assert (3 * (limit / 3) <= limit)%Z by (apply Z.mul_div_le; lia).
    subst s. lia.
  - intros Hsmall Hmany.
    assert (limit / 3 < 10)%Z by (apply Z.div_lt_upper_bound; lia).
    subst s. lia.
Qed.

Lemma topology_endpoint_size_witness :
  exists topo,
    Topology.topology Topology.sample_stub Topology.choice_stub Topology.uniform_stub
      Topology.round_stub None 12 tt = Topology.Http200 topo
    /\ Topology.node_count topo = 30 /\ Topology.link_count topo = 20.
Proof.
  destruct (topology_endpoint_size Topology.sample_stub Topology.choice_stub
              Topology.uniform_stub Topology.round_stub None 12 tt)
    as (_ & _ & Hok).
  - intros population k st Hk. simpl. rewrite length_take. lia.
  - destruct Hok as (topo & Htopo & Hn & Hl & _); [lia|].
    exists topo. split; [exact Htopo|]. split; [exact Hn|exact Hl].
Defined.

(** [X21] In a generated topology every node's degree is the number of link end
    points that carry its identifier, and every link joins two nodes of
    the response.  Provided [random.sample] returns as many relays as
    asked, no node is isolated: every node has degree at least one and
    every middle node at least two. *)
Theorem topology_degrees {rng : Type}
  (sample : list string -> nat -> rng -> list string * rng)
  (choice : list string -> rng -> string * rng)
  (uniform : Q -> Q -> rng -> Q * rng) (round : Q -> nat -> Q)
  (guard_fingerprints : option (list string)) (limit : Z) (st : rng) :
  (forall population k st, k <= length population ->
     length (fst (sample population k st)) = k) ->
  let topo := fst (Topology.generate_topology sample choice uniform round
                     guard_fingerprints limit st) in
  Forall (fun n =>
            Topology.degree n
            = Topology.endpoint_count (Topology.id n) (Topology.links topo)
            /\ 1 <= Topology.degree n
            /\ (Topology.role n = Topology.middle -> 2 <= Topology.degree n))
    (Topology.nodes topo)
  /\ Forall (fun lk =>
               Topology.source lk ∈ map Topology.id (Topology.nodes topo)
               /\ Topology.target lk ∈ map Topology.id (Topology.nodes topo))
       (Topology.links topo).
Proof.
  intros Hsample topo.
  destruct (generate_topology_shape sample choice uniform round guard_fingerprints
              limit st Hsample) as (sg & Hlen & Hids & Hroles & Hends & Hdeg & _).
  fold topo in Hids, Hroles, Hends, Hdeg.
  set (ends := fun lk => (Topology.source lk, Topology.target lk)) in *.
  assert (forall g, g ∈ sg ->
            (g, Topology.middle_of g) ∈ map ends (Topology.links topo)
            /\ (Topology.middle_of g, Topology.exit_of g) ∈ map ends (Topology.links topo)) as Hcirc.
  { intros g Hg. rewrite Hends. split; apply list_elem_of_bind; exists g;
      (split; [|done]); set_solver. }
  split.
  - apply Forall_lookup. intros i n Hi.
    rewrite Forall_forall in Hdeg. pose proof (Hdeg n (list_elem_of_lookup_2 _ _ _ Hi)) as Hd.
    split; [done|]. rewrite Hd. unfold Topology.endpoint_count.
    assert (map Topology.id (Topology.nodes topo) !! i = Some (Topology.id n)) as Hid
      by (by rewrite lookup_map, Hi).
    assert (map Topology.role (Topology.nodes topo) !! i = Some (Topology.role n)) as Hrole
      by (by rewrite lookup_map, Hi).
    rewrite Hids in Hid. rewrite Hroles in Hrole.
    destruct (decide (i < length sg)) as [Hlt|Hge].
    + rewrite lookup_app_l in Hid by done.
      rewrite lookup_app_l in Hrole by (rewrite length_replicate; lia).
      apply lookup_replicate in Hrole as [Hrole _].
      apply list_elem_of_lookup_2, Hcirc in Hid as [H1 _].
      apply endpoint_link in H1 as [H1 _]. simpl in H1.
      split; [lia|]. intros Hmid. by rewrite Hmid in Hrole.
    + rewrite lookup_app_r in Hid by lia.
      rewrite lookup_app_r in Hrole by (rewrite length_replicate; lia).
      rewrite length_replicate in Hrole.
      destruct (decide (i - length sg < length sg)) as [Hlt2|Hge2].
      * rewrite lookup_app_l in Hid by (rewrite length_map; lia).
        apply list_elem_of_lookup_2, list_elem_of_In, in_map_iff in Hid
          as (g & Hg & Hin).
        apply list_elem_of_In, Hcirc in Hin as [H1 H2].
        apply endpoint_link in H1 as [_ H1]. apply endpoint_link in H2 as [H2 _].
        simpl in H1, H2. rewrite Hg in H1, H2. lia.
      * rewrite lookup_app_r in Hid by (rewrite length_map; lia).
        rewrite lookup_app_r in Hrole by (rewrite length_replicate; lia).
        apply lookup_replicate in Hrole as [Hrole _].
        apply list_elem_of_lookup_2, list_elem_of_In, in_map_iff in Hid
          as (g & Hg & Hin).
        apply list_elem_of_In, Hcirc in Hin as [_ H2].
        apply endpoint_link in H2 as [_ H2]. simpl in H2. rewrite Hg in H2.
        split; [lia|]. intros Hmid. by rewrite Hmid in Hrole.
  - apply Forall_forall. intros lk Hlk.
    assert (ends lk ∈ map ends (Topology.links topo)) as He
      by (apply list_elem_of_In, in_map, list_elem_of_In, Hlk).
    rewrite Hends in He. apply list_elem_of_bind in He as (g & He & Hg).
    rewrite Hids.
    assert (Topology.middle_of g ∈ map Topology.middle_of sg) as Hm
      by (apply list_elem_of_In, in_map, list_elem_of_In, Hg).
    assert (Topology.exit_of g ∈ map Topology.exit_of sg) as Hx
      by (apply list_elem_of_In, in_map, list_elem_of_In, Hg).
    subst ends. simpl in He.
    apply list_elem_of_In in He. simpl in He.
    destruct He as [He|[He|[]]]; injection He as Hs Ht; rewrite <- Hs, <- Ht;
      set_solver.
Qed.

Lemma topology_degrees_witness :
  Forall (fun n => 1 <= Topology.degree n)
    (Topology.nodes
       (fst (Topology.generate_topology Topology.sample_stub Topology.choice_stub
               Topology.uniform_stub Topology.round_stub (Some ["AAAA"; "BBBB"]) 40 tt))).
Proof.
  destruct (topology_degrees Topology.sample_stub Topology.choice_stub
              Topology.uniform_stub Topology.round_stub (Some ["AAAA"; "BBBB"]) 40 tt)
    as [Hdeg _].
  - intros population k st Hk. simpl. rewrite length_take. lia.
  - eapply Forall_impl; [exact Hdeg|]. intros n (_ & H1 & _). exact H1.
Defined.

(** ** [evaluate_topk] *)

Lemma top_key_inj (k k' : Z) :
  ("Top-" ++ pretty k)%string = ("Top-" ++ pretty k')%string -> k = k'.
Proof. intros H. apply (inj pretty). by simplify_eq/=. Qed.

Lemma evaluate_loop_spec
  (top_k_accuracy_score : list nat -> list (list Q) -> Z -> result Q)
  (y_true : list nat) (P : list (list Q)) (ks : list Z) (r0 r : gmap string Q) :
  TrainXgboost.evaluate_loop top_k_accuracy_score y_true P ks r0 = Return r ->
  (forall k, k ∈ ks ->
     exists a, accuracy_at top_k_accuracy_score y_true P k = Return a
               /\ r !! ("Top-" ++ pretty k)%string = Some a)
  /\ (forall key, (forall k, k ∈ ks -> key <> ("Top-" ++ pretty k)%string) ->
        r !! key = r0 !! key).
Proof.
  revert r0. induction ks as [|k ks IH]; intros r0; simpl.
  - intros [= <-]. split; [intros k Hk; by apply elem_of_nil in Hk|done].
  - fold (accuracy_at top_k_accuracy_score y_true P k).
    destruct (accuracy_at top_k_accuracy_score y_true P k) as [e|a] eqn:Ea; [done|]. simpl.
    intros Hr. destruct (IH _ Hr) as [Hin Hout]. split.
    + intros k' Hk'. destruct (decide (k' ∈ ks)) as [Hks|Hks]; [by apply Hin|].
      apply elem_of_cons in Hk' as [->|]; [|done].
      exists a. split; [done|]. rewrite Hout.
      * by rewrite lookup_insert_eq.
      * intros k'' Hk'' Heq. apply top_key_inj in Heq. by subst.
    + intros key Hkey. rewrite Hout.
      * rewrite lookup_insert_ne; [done|]. intros Heq. apply (Hkey k); [left|done].
      * intros k' Hk'. apply Hkey. by right.
Qed.

Lemma evaluate_loop_error
  (top_k_accuracy_score : list nat -> list (list Q) -> Z -> result Q)
  (y_true : list nat) (P : list (list Q)) (ks : list Z)
  (r0 : gmap string Q) (k : Z) (e : exn) :
  k ∈ ks -> accuracy_at top_k_accuracy_score y_true P k = Raise e ->
  exists e', TrainXgboost.evaluate_loop top_k_accuracy_score y_true P ks r0 = Raise e'.
Proof.
  revert r0. induction ks as [|k0 ks IH]; intros r0 Hk He; simpl.
  - by apply elem_of_nil in Hk.
  - fold (accuracy_at top_k_accuracy_score y_true P k0).
    destruct (accuracy_at top_k_accuracy_score y_true P k0) as [e0|a] eqn:Ea; [by eexists|]. simpl.
    apply elem_of_cons in Hk as [->|Hk]; [congruence|]. by apply IH.
Qed.

(** [X22] When [evaluate_topk] returns, its dictionary has exactly the keys
    [Top-k] for the requested [k]; the entry for [k = 1] is the accuracy of
    the row-wise argmax predictions and the entry for any other [k] is what
    [top_k_accuracy_score] returned for that [k].  It fails as soon as the
    accuracy of one requested [k] cannot be computed. *)
Theorem evaluate_topk_results
  (top_k_accuracy_score : list nat -> list (list Q) -> Z -> result Q)
  (y_true : list nat) (P : list (list Q)) (ks : list Z) :
  (forall results,
     TrainXgboost.evaluate_topk top_k_accuracy_score y_true P ks = Return results ->
     (forall key, is_Some (results !! key)
                  <-> exists k, k ∈ ks /\ key = ("Top-" ++ pretty k)%string)
     /\ (1%Z ∈ ks ->
         exists y_pred a, for_each np_argmax P = Return y_pred
                          /\ TrainXgboost.accuracy_score y_true y_pred = Return a
                          /\ results !! "Top-1" = Some a)
     /\ (forall k, k ∈ ks -> k <> 1%Z ->
           exists a, top_k_accuracy_score y_true P k = Return a
                     /\ results !! ("Top-" ++ pretty k)%string = Some a))
  /\ (forall k e, k ∈ ks -> k <> 1%Z -> top_k_accuracy_score y_true P k = Raise e ->
        exists e', TrainXgboost.evaluate_topk top_k_accuracy_score y_true P ks = Raise e').
Proof.
  unfold TrainXgboost.evaluate_topk. split.
  - intros results Hr. destruct (evaluate_loop_spec _ _ _ _ _ _ Hr) as [Hin Hout].
    split; [|split].
    + intros key. split.
      * intros Hsome.
        destruct (decide (Exists (fun k => key = ("Top-" ++ pretty k)%string) ks))
          as [Hex|Hno].
        { apply Exists_exists in Hex as (k & Hk & Hkey). by exists k. }
        rewrite Hout, lookup_empty in Hsome; [by destruct Hsome|].
        intros k Hk Hkey. apply Hno, Exists_exists. by exists k.
      * intros (k & Hk & ->). destruct (Hin k Hk) as (a & _ & Ha). by rewrite Ha.
    + intros H1. destruct (Hin 1%Z H1) as (a & Ha & Hres).
      unfold accuracy_at in Ha. rewrite decide_True in Ha by done.
      destruct (for_each np_argmax P) as [e|y_pred] eqn:Epred; [done|].
      simpl in Ha. by exists y_pred, a.
    + intros k Hk Hne. destruct (Hin k Hk) as (a & Ha & Hres).
      unfold accuracy_at in Ha. rewrite decide_False in Ha by done. by exists a.
  - intros k e Hk Hne He. apply (evaluate_loop_error _ _ _ _ _ k e Hk).
    unfold accuracy_at. by rewrite decide_False.
Qed.

Lemma evaluate_topk_results_witness :
  exists results a,
    TrainXgboost.evaluate_topk Scenario.top_k_accuracy_stub [1; 0]
      [[3 # 10; 7 # 10]; [2 # 10; 8 # 10]]%Q [1%Z] = Return results
    /\ results !! "Top-1" = Some a.
Proof.
  destruct (TrainXgboost.evaluate_topk Scenario.top_k_accuracy_stub [1; 0]
              [[3 # 10; 7 # 10]; [2 # 10; 8 # 10]]%Q [1%Z]) as [e|results] eqn:E.
  { vm_compute in E. discriminate. }
  destruct (evaluate_topk_results Scenario.top_k_accuracy_stub [1; 0]
              [[3 # 10; 7 # 10]; [2 # 10; 8 # 10]]%Q [1%Z]) as [Hok _].
  destruct (Hok results E) as (_ & H1 & _).
  destruct H1 as (y_pred & a & _ & _ & Ha); [by left|].
  by exists results, a.
Defined.
